(** * MCQ-ENGINE: the orchestration core of [server/services/ai-service.js]
      and of the [/generate-mcq] route, embedded in Rocq.

    The development follows the JavaScript sources function by function:

    - [JSString]   the string primitives the code calls ([includes], [trim],
                   [endsWith], [lastIndexOf], the global regex replaces);
    - [Fallback]   [generateWithFallback] over the constant [MODELS];
    - [Scheduler]  the batch splitting loop and the streaming loop of the
                   [/generate-mcq] handler;
    - [JSON]       the values and the grammar accepted by [JSON.parse];
    - [Sanitizer]  [cleanJSONResponse];
    - [Normalizer] [normalizeOptions] and [normalizeMCQ];
    - [Service]    the result cache, [generateMCQs] and [solveMCQs];
    - [FallbackCost], [SchedulerMore], [ServiceMore], [NormalizerMore],
      [SanitizerMore], [SanitizerTwice]
                   further properties of the functions above;
    - [Routes]     the provider as the service functions see it, and the
                   [/solve-mcq] handler;
    - [Progress]   the progress reported on the [/generate-mcq] stream;
    - [Validators] [server/utils/validators.js]: [parseInt], the regular
                   expressions of [sanitizeText], the two request
                   validators.

    A JavaScript string is a sequence of UTF-16 code units; it is modelled
    as a list of code units ([N]).  Promises are sequential in every path
    below (each [await] is the only pending operation of its request), so
    asynchronous calls are modelled by explicit state passing, the provider
    being an oracle that answers the successive calls. *)

From Stdlib Require Import List NArith ZArith Bool Arith Lia String Ascii.
From Stdlib Require Import DecimalString.
From Stdlib Require DecimalPos.
From Equations Require Import Equations.
Import ListNotations.

(* ===================================================================== *)
(** * JavaScript strings                                                  *)
(* ===================================================================== *)

Module JSString.

(** One UTF-16 code unit. *)
Definition char := N.
Definition jsstring := list char.

(** Literals.  The apostrophe of a Rocq literal stands for the JavaScript
    double quote (code unit 34), so that JSON texts stay readable:
    [js "{'a':1}"] is the text [{"a":1}].  No literal below needs a real
    apostrophe. *)
Definition char_of_ascii (a : ascii) : char :=
  if Ascii.eqb a "'"%char then 34%N else N_of_ascii a.

Definition js (s : string) : jsstring :=
  List.map char_of_ascii (list_ascii_of_string s).

Definition ch (s : string) : char :=
  match js s with c :: _ => c | [] => 0%N end.

Definition QUOTE : char := 34%N.
Definition BACKSLASH : char := 92%N.
Definition LF : char := 10%N.

Fixpoint eqb (s t : jsstring) : bool :=
  match s, t with
  | [], [] => true
  | c :: s', d :: t' => N.eqb c d && eqb s' t'
  | _, _ => false
  end.

Lemma eqb_spec (s t : jsstring) : reflect (s = t) (eqb s t).
Proof.
  revert t; induction s as [|c s IH]; intros [|d t]; simpl;
    try (constructor; congruence).
  destruct (N.eqb_spec c d) as [->|Hne]; simpl.
  - destruct (IH t) as [->|Hne]; constructor; congruence.
  - constructor; congruence.
Qed.

Lemma eqb_refl (s : jsstring) : eqb s s = true.
Proof. destruct (eqb_spec s s); congruence. Qed.

Lemma eqb_eq (s t : jsstring) : eqb s t = true <-> s = t.
Proof. destruct (eqb_spec s t); split; congruence. Qed.

(** [s.startsWith(p)] *)
Fixpoint startsWith (p s : jsstring) : bool :=
  match p, s with
  | [], _ => true
  | c :: p', d :: s' => N.eqb c d && startsWith p' s'
  | _ :: _, [] => false
  end.

(** [s.includes(p)] *)
Fixpoint includes (p s : jsstring) : bool :=
  startsWith p s ||
  match s with
  | [] => false
  | _ :: s' => includes p s'
  end.

(** [s.endsWith(c)] for a one-unit string [c]. *)
Definition endsWith (c : char) (s : jsstring) : bool :=
  match rev s with
  | d :: _ => N.eqb d c
  | [] => false
  end.

(** [s.lastIndexOf(c)] for a one-unit string [c]: the index of the last
    occurrence, [-1] when there is none. *)
Fixpoint lastIndexOf_from (c : char) (s : jsstring) (i : Z) (found : Z) : Z :=
  match s with
  | [] => found
  | d :: s' => lastIndexOf_from c s' (i + 1) (if N.eqb d c then i else found)
  end.

Definition lastIndexOf (c : char) (s : jsstring) : Z :=
  lastIndexOf_from c s 0 (-1).

(** [(s.match(/c/g) || []).length] for a one-unit pattern [c]. *)
Definition countChar (c : char) (s : jsstring) : Z :=
  Z.of_nat (List.length (List.filter (N.eqb c) s)).

(** The code units [String.prototype.trim] removes: ECMAScript WhiteSpace
    and LineTerminator. *)
Definition isWhiteSpace (c : char) : bool :=
  ((9 <=? c) && (c <=? 13) || (c =? 32) || (c =? 160) || (c =? 5760)
   || (8192 <=? c) && (c <=? 8202) || (c =? 8232) || (c =? 8233)
   || (c =? 8239) || (c =? 8287) || (c =? 12288) || (c =? 65279))%N.

Fixpoint trimStart (s : jsstring) : jsstring :=
  match s with
  | c :: s' => if isWhiteSpace c then trimStart s' else s
  | [] => []
  end.

Definition trimEnd (s : jsstring) : jsstring := rev (trimStart (rev s)).

Definition trim (s : jsstring) : jsstring := trimEnd (trimStart s).

(** [s.replace(/p\n?/g, '')] for a literal pattern [p] of at least one
    unit: scanning from the left, every occurrence of [p] is removed with
    the line feed that follows it, if any; the scan resumes after the
    match.  [skip] counts the units of the current match still to drop. *)
Fixpoint removeAll_from (p : jsstring) (skip : nat) (s : jsstring) : jsstring :=
  match s with
  | [] => []
  | c :: s' =>
      match skip with
      | S k => removeAll_from p k s'
      | O =>
          if startsWith p s then
            let after := List.skipn (List.length p) s in
            let nl := match after with
                      | d :: _ => if N.eqb d LF then 1 else 0
                      | [] => 0
                      end in
            removeAll_from p (List.length p - 1 + nl) s'
          else c :: removeAll_from p 0 s'
      end
  end.

Definition removeFence (p : jsstring) (s : jsstring) : jsstring :=
  removeAll_from p 0 s.

(** ** Facts on the string primitives *)

Lemma startsWith_app (p q s : jsstring) :
  startsWith (p ++ q) s = true -> startsWith p s = true.
Proof.
  revert s; induction p as [|c p IH]; intros s H; [now destruct s|].
  destruct s as [|d s]; simpl in *; [discriminate|].
  apply andb_true_iff in H as [Hc Hp].
  rewrite Hc. simpl. auto.
Qed.

Lemma includes_app_false (p q s : jsstring) :
  includes p s = false -> includes (p ++ q) s = false.
Proof.
  induction s as [|d s IH]; simpl; intros H;
    apply orb_false_iff in H as [Hs Hi]; apply orb_false_iff; split; auto;
    destruct (startsWith (p ++ q) _) eqn:E; auto;
    apply startsWith_app in E; congruence.
Qed.

Lemma removeFence_absent (p s : jsstring) :
  includes p s = false -> removeFence p s = s.
Proof.
  unfold removeFence. induction s as [|c s IH]; intros H; [reflexivity|].
  cbn [includes] in H. apply orb_false_iff in H as [Hs Hi].
  cbn [removeAll_from]. rewrite Hs. now rewrite (IH Hi).
Qed.

Lemma lastIndexOf_from_absent (c : char) (s : jsstring) :
  forall i found, ~ In c s -> lastIndexOf_from c s i found = found.
Proof.
  induction s as [|d s IH]; intros i found Hn; simpl; [reflexivity|].
  destruct (N.eqb_spec d c) as [->|Hne].
  - exfalso. apply Hn. now left.
  - apply IH. intros Hin. apply Hn. now right.
Qed.

Lemma lastIndexOf_from_app (c : char) (a b : jsstring) :
  forall i found,
  lastIndexOf_from c (a ++ b) i found =
  lastIndexOf_from c b (i + Z.of_nat (List.length a))
    (lastIndexOf_from c a i found).
Proof.
  induction a as [|d a IH]; intros i found; simpl.
  - now rewrite Z.add_0_r.
  - rewrite IH. f_equal. lia.
Qed.

(** [lastIndexOf] is [-1] on a string without [c], and the position of
    the last [c] otherwise. *)
Lemma lastIndexOf_absent (c : char) (s : jsstring) :
  ~ In c s -> lastIndexOf c s = (-1)%Z.
Proof. apply lastIndexOf_from_absent. Qed.

Lemma lastIndexOf_last (c : char) (a b : jsstring) :
  ~ In c b -> lastIndexOf c (a ++ c :: b) = Z.of_nat (List.length a).
Proof.
  intros Hn. unfold lastIndexOf. rewrite lastIndexOf_from_app. simpl.
  rewrite N.eqb_refl. now rewrite lastIndexOf_from_absent.
Qed.

Lemma countChar_app (c : char) (a b : jsstring) :
  countChar c (a ++ b) = (countChar c a + countChar c b)%Z.
Proof.
  unfold countChar. now rewrite filter_app, length_app, Nat2Z.inj_add.
Qed.

Lemma countChar_absent (c : char) (s : jsstring) :
  ~ In c s -> countChar c s = 0%Z.
Proof.
  unfold countChar. induction s as [|d s IH]; intros Hn; simpl; [reflexivity|].
  destruct (N.eqb_spec c d) as [->|Hne].
  - exfalso. apply Hn. now left.
  - apply IH. intros Hin. apply Hn. now right.
Qed.

Lemma lastIndexOf_from_bound (c : char) (s : jsstring) :
  forall i found,
  (found < i)%Z ->
  (lastIndexOf_from c s i found < i + Z.of_nat (List.length s))%Z.
Proof.
  induction s as [|d s IH]; intros i found H; simpl List.length; simpl.
  - lia.
  - specialize (IH (i + 1)%Z (if (d =? c)%N then i else found)).
    destruct (d =? c)%N; lia.
Qed.

Lemma lastIndexOf_bound (c : char) (s : jsstring) :
  (lastIndexOf c s < Z.of_nat (List.length s))%Z.
Proof.
  unfold lastIndexOf.
  pose proof (lastIndexOf_from_bound c s 0 (-1)%Z). lia.
Qed.

Lemma lastIndexOf_app_absent (c : char) (a b : jsstring) :
  ~ In c b -> lastIndexOf c (a ++ b) = lastIndexOf c a.
Proof.
  intros Hn. unfold lastIndexOf.
  now rewrite lastIndexOf_from_app, lastIndexOf_from_absent.
Qed.

Lemma endsWith_app (c : char) (a b : jsstring) :
  b <> [] -> endsWith c (a ++ b) = endsWith c b.
Proof.
  intros Hb. unfold endsWith. rewrite rev_app_distr.
  destruct (rev b) as [|d r] eqn:Hr; [|reflexivity].
  apply (f_equal (@rev char)) in Hr. rewrite rev_involutive in Hr.
  simpl in Hr. congruence.
Qed.

Lemma endsWith_in (c : char) (s : jsstring) :
  endsWith c s = true -> In c s.
Proof.
  unfold endsWith. intros H. apply in_rev.
  destruct (rev s) as [|d r]; [discriminate|].
  apply N.eqb_eq in H. subst. now left.
Qed.

(** No unit of [s] is [c]. *)
Definition lacks (c : char) (s : jsstring) : bool :=
  negb (List.existsb (N.eqb c) s).

Lemma lacks_not_in (c : char) (s : jsstring) :
  lacks c s = true -> ~ In c s.
Proof.
  unfold lacks. intros H Hin. apply negb_true_iff in H.
  assert (List.existsb (N.eqb c) s = true).
  { apply existsb_exists. exists c. split; [exact Hin|apply N.eqb_refl]. }
  congruence.
Qed.

Lemma lacks_app (c : char) (a b : jsstring) :
  lacks c (a ++ b) = lacks c a && lacks c b.
Proof. unfold lacks. now rewrite existsb_app, negb_orb. Qed.

Lemma lacks_cons (c d : char) (s : jsstring) :
  lacks c (d :: s) = negb (c =? d)%N && lacks c s.
Proof. unfold lacks. cbn [List.existsb]. now rewrite negb_orb. Qed.

End JSString.

Import JSString.

(** How a call ends: it returns [r], or it throws [e]. *)
Inductive result (E R : Type) : Type :=
| Ok (r : R)
| Err (e : E).
Arguments Ok {E R} r.
Arguments Err {E R} e.

(* ===================================================================== *)
(** * The model fallback engine: [generateWithFallback]                   *)
(* ===================================================================== *)

Module Fallback.

(** The constant [MODELS]. *)
Definition MODELS : list jsstring :=
  [ js "gemini-1.5-flash-latest";
    js "gemini-flash-lite-latest";
    js "gemini-flash-latest";
    js "gemini-2.0-flash-exp";
    js "gemini-2.0-flash-lite";
    js "gemini-1.5-pro-latest";
    js "gemini-2.0-pro-exp" ].

(** What the engine reads of a thrown error: [error.message] and, when
    [error.response] is set, [error.response.status]. *)
Record jserror := mkError {
  message : jsstring;
  response_status : option Z
}.

Definition isQuotaError (e : jserror) : bool :=
  includes (js "429") (message e) ||
  match response_status e with
  | Some st => Z.eqb st 429
  | None => false
  end.

Definition isOverloaded (e : jserror) : bool :=
  includes (js "503") (message e) || includes (js "overloaded") (message e).

Definition isTransient (e : jserror) : bool :=
  isQuotaError e || isOverloaded e.

Section Engine.

(** [R] is what [model.generateContent] resolves to. *)
Variable R : Type.

Inductive outcome : Type :=
| Success (r : R)
| Failure (e : jserror).

(** The provider: the outcome of the [k]-th call to
    [model.generateContent] made by this invocation, [k] from 0. *)
Variable outcomes : nat -> outcome.

(** How the inner [for] loop ends. *)
Inductive inner : Type :=
| Returned (r : R)
| Rethrown (e : jserror)
| FellThrough.

(** The loop [for (let attempt = 1; attempt <= 3; attempt++)]; [left]
    counts the iterations the loop condition still allows, [k] is the
    number of provider calls made so far.  The result lists the attempt
    numbers of the calls made.  The waits ([sleep(waitTime)]) do not change
    the control flow and are left out. *)
Fixpoint attemptLoop (left attempt k : nat) : list nat * inner :=
  match left with
  | O => ([], FellThrough)
  | S left' =>
      match outcomes k with
      | Success r => ([attempt], Returned r)
      | Failure e =>
          if isTransient e && (attempt <? 3)
          then let '(atts, o) := attemptLoop left' (S attempt) (S k) in
               (attempt :: atts, o)
          else ([attempt], Rethrown e)
      end
  end.

Definition allFailed (lastError : option jserror) : jsstring :=
  js "All models failed. Last error: " ++
  match lastError with
  | Some e => message e
  | None => js "Unknown error"
  end.

(** The loop [for (const modelName of MODELS)].  The trace lists the calls
    made, in order, as (model name, attempt number).  Building the model
    handle ([genAI.getGenerativeModel]) makes no request and is taken not
    to throw. *)
Fixpoint modelLoop (models : list jsstring) (lastError : option jserror)
    (k : nat) : list (jsstring * nat) * result jsstring R :=
  match models with
  | [] => ([], Err (allFailed lastError))
  | modelName :: rest =>
      let '(atts, o) := attemptLoop 3 1 k in
      let calls := List.map (pair modelName) atts in
      match o with
      | Returned r => (calls, Ok r)
      | Rethrown e =>
          let '(t, res) := modelLoop rest (Some e) (k + List.length atts) in
          (calls ++ t, res)
      | FellThrough =>
          let '(t, res) := modelLoop rest lastError (k + List.length atts) in
          (calls ++ t, res)
      end
  end.

Definition generateWithFallback : list (jsstring * nat) * result jsstring R :=
  modelLoop MODELS None 0.

(** The calls made to one candidate: attempts 1 to [n]. *)
Definition attemptsOf (m : jsstring) (n : nat) : list (jsstring * nat) :=
  List.map (pair m) (List.seq 1 n).

Fixpoint blocks (models : list jsstring) (ns : list nat) : list (jsstring * nat) :=
  match models, ns with
  | m :: models', n :: ns' => attemptsOf m n ++ blocks models' ns'
  | _, _ => []
  end.

(** The retry decision after a failed call: every call of the trace that
    is followed by another call failed, and the next call is the next
    attempt on the same candidate exactly when the error is transient and
    the attempt is not the third. *)
Fixpoint chain (k : nat) (t : list (jsstring * nat)) : Prop :=
  match t with
  | (m, a) :: (((m', a') :: _) as t') =>
      (exists e, outcomes k = Failure e /\
         if isTransient e && (a <? 3)
         then m' = m /\ a' = S a
         else m' <> m /\ a' = 1) /\
      chain (S k) t'
  | _ => True
  end.

Lemma attemptLoop_spec (left attempt k : nat) (atts : list nat) (o : inner) :
  attemptLoop left attempt k = (atts, o) ->
  attempt + left = 4 -> 1 <= left ->
  atts = List.seq attempt (List.length atts) /\
  1 <= List.length atts <= left /\
  (forall j, S j < List.length atts ->
     exists e, outcomes (k + j) = Failure e /\
               isTransient e && (attempt + j <? 3) = true) /\
  match o with
  | Returned r => outcomes (k + List.length atts - 1) = Success r
  | Rethrown e => outcomes (k + List.length atts - 1) = Failure e /\
                  isTransient e && (attempt + List.length atts - 1 <? 3) = false
  | FellThrough => False
  end.
Proof.
  revert attempt k atts o.
  induction left as [|left IH]; intros attempt k atts o Hrun Hsum Hpos; [lia|].
  simpl in Hrun.
  destruct (outcomes k) as [r|e] eqn:Hk.
  - inversion Hrun; subst; simpl.
    split; [reflexivity|]. split; [lia|]. split.
    + intros j Hj; lia.
    + now replace (k + 1 - 1) with k by lia.
  - destruct (isTransient e && (attempt <? 3)) eqn:Hretry.
    + destruct (attemptLoop left (S attempt) (S k)) as [atts' o'] eqn:Hrec.
      inversion Hrun; subst; clear Hrun.
      assert (Hleft : 1 <= left).
      { apply andb_true_iff in Hretry as [_ Hlt].
        apply Nat.ltb_lt in Hlt. lia. }
      destruct (IH _ _ _ _ Hrec ltac:(lia) Hleft) as (Hseq & Hlen & Hmid & Hend).
      simpl. split; [now rewrite <- Hseq|]. split; [lia|]. split.
      * intros [|j] Hj.
        -- exists e. rewrite !Nat.add_0_r. auto.
        -- destruct (Hmid j ltac:(lia)) as (e' & He' & Ht').
           exists e'.
           replace (k + S j) with (S k + j) by lia.
           replace (attempt + S j) with (S attempt + j) by lia. auto.
      * destruct o as [r|e'|]; auto.
        -- replace (k + S (List.length atts') - 1)
             with (S k + List.length atts' - 1) by lia. exact Hend.
        -- replace (k + S (List.length atts') - 1)
             with (S k + List.length atts' - 1) by lia.
           replace (attempt + S (List.length atts') - 1)
             with (S attempt + List.length atts' - 1) by lia. exact Hend.
    + inversion Hrun; subst; simpl.
      split; [reflexivity|]. split; [lia|]. split; [|split].
      * intros j Hj; lia.
      * now replace (k + 1 - 1) with k by lia.
      * now replace (attempt + 1 - 1) with attempt by lia.
Qed.

Lemma blocks_fst_in (models : list jsstring) (ns : list nat) (x : jsstring * nat) :
  In x (blocks models ns) -> In (fst x) models.
Proof.
  revert ns; induction models as [|m models IH]; intros [|n ns] Hin;
    simpl in *; try contradiction.
  apply in_app_or in Hin as [Hin|Hin].
  - unfold attemptsOf in Hin. apply in_map_iff in Hin as (a & <- & _).
    now left.
  - right. eauto.
Qed.

Lemma blocks_head (models : list jsstring) (ns : list nat) (x : jsstring * nat)
    (t : list (jsstring * nat)) :
  Forall (fun n => 1 <= n <= 3) ns ->
  blocks models ns = x :: t -> In (fst x) models /\ snd x = 1.
Proof.
  intros Hns Hb. split.
  - apply blocks_fst_in with (ns := ns). rewrite Hb. now left.
  - destruct models as [|m models]; destruct ns as [|n ns]; simpl in Hb;
      try discriminate.
    inversion Hns as [|? ? Hn _]; subst.
    destruct n as [|n]; [lia|].
    unfold attemptsOf in Hb. simpl in Hb. now inversion Hb.
Qed.

(** The calls of one candidate form a chain, whatever follows them. *)
Lemma chain_block (m : jsstring) (n a k : nat) (t : list (jsstring * nat)) :
  (forall j, S j < n ->
     exists e, outcomes (k + j) = Failure e /\
               isTransient e && (a + j <? 3) = true) ->
  (match t with
   | [] => True
   | (m', a') :: _ =>
       1 <= n /\
       exists e, outcomes (k + n - 1) = Failure e /\
                 isTransient e && (a + n - 1 <? 3) = false /\
                 m' <> m /\ a' = 1
   end) ->
  chain (k + n) t ->
  chain k (List.map (pair m) (List.seq a n) ++ t).
Proof.
  revert a k. induction n as [|n IH]; intros a k Hmid Hlast Ht.
  - simpl. now rewrite Nat.add_0_r in Ht.
  - simpl. destruct n as [|n].
    + simpl. destruct t as [|[m' a'] t]; [exact I|].
      destruct Hlast as (_ & e & He & Hno & Hm & Ha).
      replace (k + 1 - 1) with k in He by lia.
      replace (a + 1 - 1) with a in Hno by lia.
      split.
      * exists e. rewrite Hno. auto.
      * now replace (S k) with (k + 1) by lia.
    + simpl. split.
      * destruct (Hmid 0 ltac:(lia)) as (e & He & Hyes).
        rewrite !Nat.add_0_r in *. exists e. rewrite Hyes. auto.
      * apply (IH (S a) (S k)).
        -- intros j Hj. destruct (Hmid (S j) ltac:(lia)) as (e & He & Hyes).
           exists e.
           replace (S k + j) with (k + S j) by lia.
           replace (S a + j) with (a + S j) by lia. auto.
        -- destruct t as [|[m' a'] t]; [exact I|].
           destruct Hlast as (_ & e & He & Hno & Hm & Ha).
           split; [lia|]. exists e.
           replace (S k + S n - 1) with (k + S (S n) - 1) by lia.
           replace (S a + S n - 1) with (a + S (S n) - 1) by lia. auto.
        -- now replace (S k + S n) with (k + S (S n)) by lia.
Qed.

Lemma modelLoop_cons (m : jsstring) (rest : list jsstring)
    (lastError : option jserror) (k : nat) :
  modelLoop (m :: rest) lastError k =
  let '(atts, o) := attemptLoop 3 1 k in
  let calls := List.map (pair m) atts in
  match o with
  | Returned r => (calls, Ok r)
  | Rethrown e =>
      let '(t, res) := modelLoop rest (Some e) (k + List.length atts) in
      (calls ++ t, res)
  | FellThrough =>
      let '(t, res) := modelLoop rest lastError (k + List.length atts) in
      (calls ++ t, res)
  end.
Proof. reflexivity. Qed.

Lemma modelLoop_spec (models : list jsstring) :
  NoDup models ->
  forall (lastError : option jserror) (k : nat)
         (trace : list (jsstring * nat)) (res : result jsstring R),
  modelLoop models lastError k = (trace, res) ->
  exists ns,
    List.length ns <= List.length models /\
    Forall (fun n => 1 <= n <= 3) ns /\
    trace = blocks models ns /\
    chain k trace /\
    match res with
    | Ok r => exists n, List.length trace = S n /\ outcomes (k + n) = Success r
    | Err msg =>
        List.length ns = List.length models /\
        ((trace = [] /\ msg = allFailed lastError) \/
         (exists n e, List.length trace = S n /\
                      outcomes (k + n) = Failure e /\
                      msg = allFailed (Some e)))
    end.
Proof.
  induction models as [|m models IH]; intros Hnd lastError k trace res Hrun.
  - simpl in Hrun. inversion Hrun; subst.
    exists []. simpl. repeat split; auto.
  - rewrite modelLoop_cons in Hrun.
    destruct (attemptLoop 3 1 k) as [atts o] eqn:Hatt.
    destruct (attemptLoop_spec _ _ _ _ _ Hatt eq_refl ltac:(lia))
      as (Hseq & Hlen & Hmid & Hend).
    inversion Hnd as [|? ? Hnotin Hnd']; subst.
    destruct o as [r|e|]; [| |contradiction].
    + inversion Hrun; subst; clear Hrun.
      exists [List.length atts]. simpl.
      repeat split; try lia.
      * constructor; [lia|constructor].
      * unfold attemptsOf. rewrite <- Hseq.
        destruct models; now rewrite app_nil_r.
      * rewrite <- (app_nil_r (List.map (pair m) atts)), Hseq.
        apply chain_block; simpl; auto.
      * exists (List.length atts - 1). rewrite length_map.
        split; [lia|].
        now replace (k + (List.length atts - 1))
          with (k + List.length atts - 1) by lia.
    + destruct (modelLoop models (Some e) (k + List.length atts))
        as [t res'] eqn:Hrec.
      inversion Hrun; subst; clear Hrun.
      destruct (IH Hnd' _ _ _ _ Hrec) as (ns & Hns & Hall & Ht & Hch & Hres).
      destruct Hend as (Hlast & Hno).
      exists (List.length atts :: ns). simpl.
      repeat split; try lia.
      * constructor; [lia|assumption].
      * unfold attemptsOf. now rewrite <- Hseq, Ht.
      * rewrite Hseq at 1. apply chain_block; auto.
        destruct t as [|[m' a'] t']; [exact I|].
        split; [lia|]. exists e.
        symmetry in Ht.
        destruct (blocks_head _ _ _ _ Hall Ht) as (Hin & Hone). simpl in *.
        repeat split; auto.
        intros ->. contradiction.
      * destruct res as [r|msg].
        -- destruct Hres as (n & Hn & Hok).
           exists (List.length atts + n).
           rewrite length_app, length_map.
           split; [lia|]. now rewrite Nat.add_assoc.
        -- destruct Hres as (Hfull & [(Hnil & Hmsg)|(n & e' & Hn & Hf & Hmsg)]).
           ++ split; [lia|]. right.
              exists (List.length atts - 1), e.
              rewrite Hnil, app_nil_r, length_map.
              repeat split; auto; try lia.
              now replace (k + (List.length atts - 1))
                with (k + List.length atts - 1) by lia.
           ++ split; [lia|]. right.
              exists (List.length atts + n), e'.
              rewrite length_app, length_map.
              repeat split; auto; try lia.
              now rewrite Nat.add_assoc.
Qed.

Lemma chain_nth (t : list (jsstring * nat)) :
  forall (k i : nat) (m m' : jsstring) (a a' : nat),
  chain k t ->
  nth_error t i = Some (m, a) ->
  nth_error t (S i) = Some (m', a') ->
  exists e, outcomes (k + i) = Failure e /\
    if isTransient e && (a <? 3)
    then m' = m /\ a' = S a
    else m' <> m /\ a' = 1.
Proof.
  induction t as [|[m0 a0] t IH]; intros k i m m' a a' Hch Hi Hsi.
  - destruct i; discriminate.
  - destruct t as [|[m1 a1] t]; [destruct i as [|[|i]]; discriminate|].
    destruct Hch as (Hhd & Htl).
    destruct i as [|i].
    + simpl in Hi, Hsi. inversion Hi; inversion Hsi; subst.
      now rewrite Nat.add_0_r.
    + replace (k + S i) with (S k + i) by lia.
      apply (IH (S k) i m m' a a'); auto.
Qed.

(** When the loop over the candidates ends with the throw, the last call
    made was on the last candidate and its failure allowed no retry: the
    error was not transient, or the attempt was the third. *)
Lemma modelLoop_err_last (models : list jsstring) :
  forall (lastError : option jserror) (k : nat)
         (trace : list (jsstring * nat)) (msg : jsstring),
  modelLoop models lastError k = (trace, Err msg) ->
  models <> [] ->
  exists n e a,
    List.length trace = S n /\
    nth_error trace n = Some (List.last models [], a) /\
    outcomes (k + n) = Failure e /\
    isTransient e && (a <? 3) = false /\
    msg = allFailed (Some e).
Proof.
  induction models as [|m models IH]; intros lastError k trace msg Hrun Hne;
    [congruence|].
  rewrite modelLoop_cons in Hrun.
  destruct (attemptLoop 3 1 k) as [atts o] eqn:Hatt.
  destruct (attemptLoop_spec _ _ _ _ _ Hatt eq_refl ltac:(lia))
    as (Hseq & Hlen & _ & Hend).
  destruct o as [r|e|]; [discriminate Hrun| |contradiction].
  destruct Hend as (Hlast & Hno).
  destruct (modelLoop models (Some e) (k + List.length atts))
    as [t res] eqn:Hrec.
  inversion Hrun; subst trace res; clear Hrun.
  destruct models as [|m' models'].
  - simpl in Hrec. inversion Hrec; subst t msg; clear Hrec.
    exists (List.length atts - 1), e, (List.length atts).
    rewrite app_nil_r, length_map.
    split; [lia|]. split.
    + rewrite nth_error_map, Hseq, length_seq.
      rewrite (nth_error_nth' _ 0) by (rewrite length_seq; lia).
      rewrite seq_nth by lia. cbn [List.last option_map].
      do 2 f_equal. lia.
    + split; [now replace (k + (List.length atts - 1))
                with (k + List.length atts - 1) by lia|].
      split; [|reflexivity].
      now replace (List.length atts) with (1 + List.length atts - 1) at 1 by lia.
  - destruct (IH _ _ _ _ Hrec ltac:(discriminate))
      as (n & e' & a & Hn & Hnth & Hf & Hno' & Hmsg).
    exists (List.length atts + n), e', a.
    rewrite length_app, length_map.
    split; [lia|]. split.
    + rewrite nth_error_app2 by (rewrite length_map; lia).
      rewrite length_map.
      replace (List.length atts + n - List.length atts) with n by lia.
      exact Hnth.
    + split; [now rewrite Nat.add_assoc|]. split; [exact Hno'|exact Hmsg].
Qed.

End Engine.

Arguments Success {R} r.
Arguments Failure {R} e.

Lemma MODELS_NoDup : NoDup MODELS.
Proof.
  unfold MODELS.
  repeat (constructor; [simpl; intros H;
    repeat (destruct H as [H|H]; [discriminate H|]); exact H|]).
  constructor.
Qed.

(** The run of the specification: the first candidate fails twice with a
    transient error and then answers; it is called three times, the second
    candidate never, and its answer is returned. *)
Example two_transient_failures_then_success :
  generateWithFallback nat
    (fun k => match k with
              | 0 => Failure (mkError (js "[429 Too Many Requests]") None)
              | 1 => Failure (mkError (js "The model is overloaded") None)
              | _ => Success 7
              end)
  = ([(js "gemini-1.5-flash-latest", 1);
      (js "gemini-1.5-flash-latest", 2);
      (js "gemini-1.5-flash-latest", 3)], Ok 7).
Proof. reflexivity. Qed.

(** A failure that is not transient moves to the next candidate at once;
    when every candidate fails the last message is wrapped. *)
Example every_candidate_fails :
  generateWithFallback nat
    (fun k => Failure (mkError (js "API key not valid") (Some 400%Z)))
  = (List.map (fun m => (m, 1)) MODELS,
     Err (js "All models failed. Last error: API key not valid")).
Proof. reflexivity. Qed.

(** C1.  Whatever the provider answers, [generateWithFallback] calls the
    candidates in the order of [MODELS], each between one and three times
    with attempts numbered from 1; a call that is followed by another call
    failed, and the following call is the next attempt on the same
    candidate exactly when the failure is transient (message containing
    429, 503 or overloaded, or response status 429) and the attempt was
    not the third, the first attempt on the next candidate otherwise; the
    function returns the result of the last call made as soon as a call
    succeeds, and throws only after every candidate of the list has been
    tried and the last call, on the last candidate, has failed with an
    error that allows no retry (not transient, or on the third attempt),
    with the message of that failure wrapped. *)
Theorem generateWithFallback_spec :
  forall (R : Type) (outcomes : nat -> outcome R),
  let trace := fst (generateWithFallback R outcomes) in
  let res := snd (generateWithFallback R outcomes) in
  (exists ns,
      List.length ns <= List.length MODELS /\
      Forall (fun n => 1 <= n <= 3) ns /\
      trace = blocks MODELS ns /\
      (forall msg, res = Err msg -> List.length ns = List.length MODELS)) /\
  (forall i m a m' a',
      nth_error trace i = Some (m, a) ->
      nth_error trace (S i) = Some (m', a') ->
      exists e, outcomes i = Failure e /\
        if isTransient e && (a <? 3)
        then m' = m /\ a' = S a
        else m' <> m /\ a' = 1) /\
  match res with
  | Ok r =>
      exists n, List.length trace = S n /\ outcomes n = Success r
  | Err msg =>
      exists n e a,
        List.length trace = S n /\
        nth_error trace n = Some (js "gemini-2.0-pro-exp", a) /\
        outcomes n = Failure e /\
        isTransient e && (a <? 3) = false /\
        msg = js "All models failed. Last error: " ++ message e
  end.
Proof.
  intros R outcomes trace res.
  destruct (generateWithFallback R outcomes) as [t r] eqn:Hrun.
  subst trace res. simpl.
  unfold generateWithFallback in Hrun.
  destruct (modelLoop_spec R outcomes MODELS MODELS_NoDup _ _ _ _ Hrun)
    as (ns & Hlen & Hall & Ht & Hch & Hres).
  split; [|split].
  - exists ns. repeat split; auto.
    intros msg ->. tauto.
  - intros i m a m' a' Hi Hsi.
    exact (chain_nth R outcomes t 0 i m m' a a' Hch Hi Hsi).
  - destruct r as [r|msg].
    + exact Hres.
    + destruct (modelLoop_err_last R outcomes MODELS _ _ _ _ Hrun
                  ltac:(discriminate))
        as (n & e & a & Hn & Hnth & Hf & Hno & Hmsg).
      exists n, e, a. auto.
Qed.

End Fallback.

(* ===================================================================== *)
(** * The batch and stream scheduler: the [/generate-mcq] handler         *)
(* ===================================================================== *)

Module Scheduler.

Import Fallback.

(** The object pushed on [batches], later passed to [generateMCQs] as
    [difficultyCounts]. *)
Record batch := mkBatch {
  easyCount : Z;
  mediumCount : Z;
  hardCount : Z
}.

Definition BATCH_SIZE : Z := 2.

Definition pending (remainingEasy remainingMedium remainingHard : Z) : bool :=
  ((0 <? remainingEasy) || (0 <? remainingMedium) || (0 <? remainingHard))%Z.

Lemma batch_decreases (remainingEasy remainingMedium remainingHard : Z) :
  pending remainingEasy remainingMedium remainingHard = true ->
  let batchEasy := Z.min remainingEasy BATCH_SIZE in
  let batchMedium :=
    Z.min remainingMedium (Z.max 0 (BATCH_SIZE - batchEasy)%Z) in
  let batchHard :=
    Z.min remainingHard (Z.max 0 (BATCH_SIZE - (batchEasy + batchMedium))%Z) in
  Z.to_nat (Z.max (remainingEasy - batchEasy) 0
            + Z.max (remainingMedium - batchMedium) 0
            + Z.max (remainingHard - batchHard) 0)%Z
  < Z.to_nat (Z.max remainingEasy 0 + Z.max remainingMedium 0
              + Z.max remainingHard 0)%Z.
Proof.
  unfold pending, BATCH_SIZE. intros e.
  apply orb_true_iff in e as [e|e]; [apply orb_true_iff in e as [e|e]|];
    apply Z.ltb_lt in e; lia.
Qed.

(** The loop
    [while (remainingEasy > 0 || remainingMedium > 0 || remainingHard > 0)].
    Every iteration takes at least one item from the first tier that has
    some left, which is why the loop ends. *)
Equations? buildBatches (remainingEasy remainingMedium remainingHard : Z)
  : list batch
  by wf (Z.to_nat (Z.max remainingEasy 0 + Z.max remainingMedium 0
                   + Z.max remainingHard 0)%Z) lt :=
buildBatches remainingEasy remainingMedium remainingHard
  with Sumbool.sumbool_of_bool
         (pending remainingEasy remainingMedium remainingHard) => {
  | left _ =>
      let batchEasy := Z.min remainingEasy BATCH_SIZE in
      let remainingEasy' := (remainingEasy - batchEasy)%Z in
      let batchMedium :=
        Z.min remainingMedium (Z.max 0 (BATCH_SIZE - batchEasy)%Z) in
      let remainingMedium' := (remainingMedium - batchMedium)%Z in
      let batchHard :=
        Z.min remainingHard
          (Z.max 0 (BATCH_SIZE - (batchEasy + batchMedium))%Z) in
      let remainingHard' := (remainingHard - batchHard)%Z in
      let rest := buildBatches remainingEasy' remainingMedium' remainingHard' in
      if (0 <? batchEasy + batchMedium + batchHard)%Z
      then mkBatch batchEasy batchMedium batchHard :: rest
      else rest
  | right _ => []
  }.
Proof.
  exact (batch_decreases remainingEasy remainingMedium remainingHard e).
Qed.

(** What the handler needs of the request once validated. *)
Record validated := mkValidated {
  v_easyCount : Z;
  v_mediumCount : Z;
  v_hardCount : Z
}.

Section Handler.

(** [Mcq] is the type of the records [generateMCQs] resolves to, [St] the
    state its calls read and change (the provider, the cache). *)
Variables (Mcq E St : Type).

(** [generateMCQs(validatedData.studyMaterial, batch,
    validatedData.includeExplanation, req.file)]; only [batch] varies from
    one call to the next.  [E] is the type of what it throws. *)
Variable generateMCQs : batch -> St -> result E (list Mcq) * St.

(** What [res.write] receives: [{mcqs, completed: false, total, current}]
    or [{completed: true}]. *)
Inductive chunk : Type :=
| Chunk (mcqs : list Mcq) (total current : Z)
| Completed.

Record stream := mkStream {
  written : list chunk;               (* the arguments of [res.write], in order *)
  logged : list E;                    (* the errors given to [console.error] *)
  called : list (batch * result E (list Mcq))  (* the [generateMCQs] calls and how they ended *)
}.

(** The loop [for (let i = 0; i < batches.length; i++)].  The one-second
    pause between two batches is left out. *)
Fixpoint processBatches (batches : list batch) (totalCount completedInRequest : Z)
    (st : St) : stream * St :=
  match batches with
  | [] => (mkStream [] [] [], st)
  | b :: rest =>
      match generateMCQs b st with
      | (Ok mcqs, st1) =>
          let completedInRequest' :=
            (completedInRequest + Z.of_nat (List.length mcqs))%Z in
          let '(s, st2) := processBatches rest totalCount completedInRequest' st1 in
          (mkStream (Chunk mcqs totalCount completedInRequest' :: written s)
                    (logged s)
                    ((b, Ok mcqs) :: called s), st2)
      | (Err err, st1) =>
          let '(s, st2) := processBatches rest totalCount completedInRequest st1 in
          (mkStream (written s) (err :: logged s) ((b, Err err) :: called s), st2)
      end
  end.

(** The handler from [validatedData] on. *)
Definition handler (validatedData : validated) (st : St) : stream * St :=
  let totalCount := (v_easyCount validatedData + v_mediumCount validatedData
                     + v_hardCount validatedData)%Z in
  let batches := buildBatches (v_easyCount validatedData)
                   (v_mediumCount validatedData) (v_hardCount validatedData) in
  let '(s, st') := processBatches batches totalCount 0 st in
  (mkStream (written s ++ [Completed]) (logged s) (called s), st').

Definition isTerminal (c : chunk) : bool :=
  match c with
  | Completed => true
  | Chunk _ _ _ => false
  end.

(** The chunks and the log lines the calls of a run account for. *)
Fixpoint chunksOf (calls : list (batch * result E (list Mcq)))
    (totalCount completedInRequest : Z) : list chunk :=
  match calls with
  | [] => []
  | (_, Ok mcqs) :: rest =>
      let c := (completedInRequest + Z.of_nat (List.length mcqs))%Z in
      Chunk mcqs totalCount c :: chunksOf rest totalCount c
  | (_, Err _) :: rest => chunksOf rest totalCount completedInRequest
  end.

Fixpoint errorsOf (calls : list (batch * result E (list Mcq))) : list E :=
  match calls with
  | [] => []
  | (_, Ok _) :: rest => errorsOf rest
  | (_, Err err) :: rest => err :: errorsOf rest
  end.

Definition succeeded (call : batch * result E (list Mcq)) : bool :=
  match snd call with
  | Ok _ => true
  | Err _ => false
  end.

End Handler.

Arguments Chunk {Mcq} mcqs total current.
Arguments Completed {Mcq}.
Arguments mkStream {Mcq E} written logged called.
Arguments written {Mcq E} s.
Arguments logged {Mcq E} s.
Arguments called {Mcq E} s.
Arguments processBatches {Mcq E St} generateMCQs batches totalCount
  completedInRequest st.
Arguments handler {Mcq E St} generateMCQs validatedData st.
Arguments isTerminal {Mcq} c.
Arguments chunksOf {Mcq E} calls totalCount completedInRequest.
Arguments errorsOf {Mcq E} calls.
Arguments succeeded {Mcq E} call.

(** The first batches of the request of the spec, (easy 3, medium 1,
    hard 0). *)
Lemma buildBatches_3_1_0 :
  buildBatches 3 1 0 = [mkBatch 2 0 0; mkBatch 1 1 0]%Z.
Proof. reflexivity. Qed.

(** The batches share out the counts: every tier keeps its total, and a
    batch holds between one and [BATCH_SIZE] items, taking from the medium
    tier only when the easy tier did not fill it. *)
Definition sumBy (f : batch -> Z) (bs : list batch) : Z :=
  List.fold_right (fun b acc => (f b + acc)%Z) 0%Z bs.

Lemma buildBatches_total (e m h : Z) :
  (0 <= e)%Z -> (0 <= m)%Z -> (0 <= h)%Z ->
  sumBy easyCount (buildBatches e m h) = e /\
  sumBy mediumCount (buildBatches e m h) = m /\
  sumBy hardCount (buildBatches e m h) = h /\
  Forall (fun b => (0 <= easyCount b /\ 0 <= mediumCount b /\ 0 <= hardCount b /\
                    0 < easyCount b + mediumCount b + hardCount b <= BATCH_SIZE)%Z /\
                   ((0 < mediumCount b)%Z -> (easyCount b < BATCH_SIZE)%Z))
    (buildBatches e m h).
Proof.
  funelim (buildBatches e m h); intros He Hm Hh.
  - set (bE := Z.min remainingEasy BATCH_SIZE) in *.
    set (bM := Z.min remainingMedium (Z.max 0 (BATCH_SIZE - bE))) in *.
    set (bH := Z.min remainingHard (Z.max 0 (BATCH_SIZE - (bE + bM)))) in *.
    assert (HB : BATCH_SIZE = 2%Z) by reflexivity.
    destruct H as (H1 & H2 & H3 & H4); try (subst bE bM bH; lia).
    assert (Hsome : (0 < remainingEasy \/ 0 < remainingMedium
                     \/ 0 < remainingHard)%Z).
    { match goal with
      | Hp : pending _ _ _ = true |- _ => pose proof Hp as Hq; clear - Hq
      end.
      revert Hq. unfold pending.
      destruct (Z.ltb_spec 0 remainingEasy); [lia|].
      destruct (Z.ltb_spec 0 remainingMedium); [lia|].
      destruct (Z.ltb_spec 0 remainingHard); [lia|discriminate]. }
    assert (Hpos : (0 <? bE + bM + bH)%Z = true).
    { apply Z.ltb_lt. subst bE bM bH. lia. }
    rewrite Hpos. simpl. rewrite H1, H2, H3.
    repeat split; try (subst bE bM bH; lia).
    constructor; [|exact H4]. simpl.
    subst bE bM bH; lia.
  - assert (Hnone : (remainingEasy <= 0 /\ remainingMedium <= 0
                     /\ remainingHard <= 0)%Z).
    { match goal with
      | Hp : pending _ _ _ = false |- _ => pose proof Hp as Hq; clear - Hq
      end.
      revert Hq. unfold pending.
      destruct (Z.ltb_spec 0 remainingEasy); [discriminate|].
      destruct (Z.ltb_spec 0 remainingMedium); [discriminate|].
      destruct (Z.ltb_spec 0 remainingHard); [discriminate|lia]. }
    simpl. repeat split; try lia. constructor.
Qed.

Section HandlerFacts.

Variables (Mcq E St : Type).
Variable generateMCQs : batch -> St -> result E (list Mcq) * St.

Lemma processBatches_spec (batches : list batch) :
  forall (totalCount completedInRequest : Z) (st : St),
  let s := fst (processBatches generateMCQs batches totalCount
                  completedInRequest st) in
  List.map fst (called s) = batches /\
  written s = chunksOf (called s) totalCount completedInRequest /\
  logged s = errorsOf (called s).
Proof.
  induction batches as [|b rest IH]; intros totalCount completed st; simpl.
  - auto.
  - destruct (generateMCQs b st) as [[mcqs|err] st1].
    + specialize (IH totalCount
                     (completed + Z.of_nat (List.length mcqs))%Z st1).
      destruct (processBatches generateMCQs rest totalCount
                  (completed + Z.of_nat (List.length mcqs))%Z st1) as [s st2].
      simpl in *. destruct IH as (Hc & Hw & Hl).
      now rewrite Hc, Hw, Hl.
    + specialize (IH totalCount completed st1).
      destruct (processBatches generateMCQs rest totalCount
                  completed st1) as [s st2].
      simpl in *. destruct IH as (Hc & Hw & Hl).
      now rewrite Hc, Hw, Hl.
Qed.

Lemma chunksOf_nonterminal (calls : list (batch * result E (list Mcq))) :
  forall (totalCount completedInRequest : Z),
  List.forallb (fun c => negb (isTerminal c))
    (chunksOf calls totalCount completedInRequest) = true /\
  List.length (chunksOf calls totalCount completedInRequest)
  = List.length (List.filter succeeded calls).
Proof.
  induction calls as [|[b [mcqs|err]] rest IH]; intros totalCount completed;
    simpl; auto.
  destruct (IH totalCount (completed + Z.of_nat (List.length mcqs))%Z)
    as (Hall & Hlen).
  split; [exact Hall|]. unfold succeeded at 1. simpl. now rewrite Hlen.
Qed.

Lemma handler_written (validatedData : validated) (st : St) :
  let s := fst (handler generateMCQs validatedData st) in
  let totalCount := (v_easyCount validatedData + v_mediumCount validatedData
                     + v_hardCount validatedData)%Z in
  List.map fst (called s)
  = buildBatches (v_easyCount validatedData) (v_mediumCount validatedData)
      (v_hardCount validatedData) /\
  written s = chunksOf (called s) totalCount 0 ++ [Completed] /\
  logged s = errorsOf (called s).
Proof.
  unfold handler.
  pose proof (processBatches_spec
    (buildBatches (v_easyCount validatedData) (v_mediumCount validatedData)
       (v_hardCount validatedData))
    (v_easyCount validatedData + v_mediumCount validatedData
     + v_hardCount validatedData)%Z 0%Z st) as H.
  simpl in H.
  destruct (processBatches generateMCQs _ _ 0%Z st) as [s st'].
  simpl in *. destruct H as (Hc & Hw & Hl).
  now rewrite Hc, Hw, Hl.
Qed.

(** The records a chunk carries; none for the terminal chunk. *)
Definition recordsOf (c : chunk Mcq) : option (list Mcq) :=
  match c with
  | Chunk mcqs _ _ => Some mcqs
  | Completed => None
  end.

Lemma last_cons (A : Type) (a d : A) (l : list A) :
  List.last (a :: l) d = List.last l a.
Proof.
  revert a d. induction l as [|b l IH]; intros a d; [reflexivity|].
  change (List.last (b :: l) d = List.last (b :: l) a).
  now rewrite (IH b d), (IH b a).
Qed.

(** The calls of the loop are the real ones: the call on the batch of
    index [i] is made in the state the call before it left, the first in
    the state the loop starts in, and its outcome is what [called]
    records. *)
Lemma processBatches_states (batches : list batch) :
  forall (totalCount completedInRequest : Z) (st : St),
  let r := processBatches generateMCQs batches totalCount
             completedInRequest st in
  exists states : list St,
    List.length states = List.length batches /\
    snd r = List.last states st /\
    forall i b,
      nth_error batches i = Some b ->
      exists sti,
        nth_error (st :: states) i = Some sti /\
        nth_error (called (fst r)) i = Some (b, fst (generateMCQs b sti)) /\
        nth_error states i = Some (snd (generateMCQs b sti)).
Proof.
  induction batches as [|b rest IH]; intros totalCount completed st.
  - exists []. split; [reflexivity|]. split; [reflexivity|].
    intros [|i] b' H; discriminate H.
  - cbn [processBatches].
    destruct (generateMCQs b st) as [[mcqs|err] st1] eqn:Hg.
    + specialize (IH totalCount
                     (completed + Z.of_nat (List.length mcqs))%Z st1).
      destruct (processBatches generateMCQs rest totalCount
                  (completed + Z.of_nat (List.length mcqs))%Z st1) as [s st2].
      cbn [fst snd] in *. destruct IH as (states & Hlen & Hlast & Hcalls).
      exists (st1 :: states). cbn [called List.length].
      split; [now rewrite Hlen|]. split; [now rewrite last_cons|].
      intros [|i] b' Hb.
      * inversion Hb; subst b'. exists st. rewrite Hg. now repeat split.
      * exact (Hcalls i b' Hb).
    + specialize (IH totalCount completed st1).
      destruct (processBatches generateMCQs rest totalCount completed st1)
        as [s st2].
      cbn [fst snd] in *. destruct IH as (states & Hlen & Hlast & Hcalls).
      exists (st1 :: states). cbn [called List.length].
      split; [now rewrite Hlen|]. split; [now rewrite last_cons|].
      intros [|i] b' Hb.
      * inversion Hb; subst b'. exists st. rewrite Hg. now repeat split.
      * exact (Hcalls i b' Hb).
Qed.

Lemma errorsOf_flat_map (calls : list (batch * result E (list Mcq))) :
  errorsOf calls
  = List.flat_map (fun call => match snd call with
                               | Err err => [err]
                               | Ok _ => []
                               end) calls.
Proof.
  induction calls as [|[b [mcqs|err]] rest IH]; cbn [errorsOf List.flat_map snd app];
    [reflexivity|exact IH|now rewrite IH].
Qed.

Lemma chunksOf_records (calls : list (batch * result E (list Mcq))) :
  forall totalCount completedInRequest : Z,
  List.map recordsOf (chunksOf calls totalCount completedInRequest)
  = List.flat_map (fun call => match snd call with
                               | Ok mcqs => [Some mcqs]
                               | Err _ => []
                               end) calls.
Proof.
  induction calls as [|[b [mcqs|err]] rest IH]; intros totalCount completed;
    cbn [chunksOf List.flat_map List.map recordsOf snd app];
    [reflexivity|now rewrite IH|apply IH].
Qed.

Lemma handler_states (validatedData : validated) (st : St) :
  let r := handler generateMCQs validatedData st in
  let batches := buildBatches (v_easyCount validatedData)
                   (v_mediumCount validatedData) (v_hardCount validatedData) in
  exists states : list St,
    List.length states = List.length batches /\
    snd r = List.last states st /\
    forall i b,
      nth_error batches i = Some b ->
      exists sti,
        nth_error (st :: states) i = Some sti /\
        nth_error (called (fst r)) i = Some (b, fst (generateMCQs b sti)) /\
        nth_error states i = Some (snd (generateMCQs b sti)).
Proof.
  unfold handler.
  pose proof (processBatches_states
    (buildBatches (v_easyCount validatedData) (v_mediumCount validatedData)
       (v_hardCount validatedData))
    (v_easyCount validatedData + v_mediumCount validatedData
     + v_hardCount validatedData)%Z 0%Z st) as H.
  cbv zeta in H.
  destruct (processBatches generateMCQs _ _ 0%Z st) as [s st'].
  exact H.
Qed.

End HandlerFacts.

Arguments recordsOf {Mcq} c.

(** C2.  The request with tier counts easy 3, medium 1, hard 0 is split,
    with [BATCH_SIZE] 2, into the batches (easy 2), (easy 1, medium 1) in
    that order; when every [generateMCQs] call resolves, the handler calls
    it on these two batches and writes two chunks with [completed: false]
    followed by the one chunk [{completed: true}]. *)
Theorem generate_3_1_0_batches_and_chunks :
  forall (Mcq E St : Type)
         (generateMCQs : batch -> St -> result E (list Mcq) * St) (st : St),
  (forall b st0, exists mcqs st1, generateMCQs b st0 = (Ok mcqs, st1)) ->
  BATCH_SIZE = 2%Z /\
  buildBatches 3 1 0 = [mkBatch 2 0 0; mkBatch 1 1 0] /\
  let s := fst (handler generateMCQs (mkValidated 3 1 0) st) in
  List.map fst (called s) = [mkBatch 2 0 0; mkBatch 1 1 0] /\
  exists mcqs1 mcqs2,
    written s =
      [ Chunk mcqs1 4 (Z.of_nat (List.length mcqs1));
        Chunk mcqs2 4 (Z.of_nat (List.length mcqs1)
                       + Z.of_nat (List.length mcqs2));
        Completed ].
Proof.
  intros Mcq E St generateMCQs st Hok.
  split; [reflexivity|]. split; [exact buildBatches_3_1_0|].
  unfold handler. simpl v_easyCount. simpl v_mediumCount. simpl v_hardCount.
  rewrite buildBatches_3_1_0.
  cbn [processBatches].
  destruct (Hok (mkBatch 2 0 0) st) as (mcqs1 & st1 & H1). rewrite H1.
  destruct (Hok (mkBatch 1 1 0) st1) as (mcqs2 & st2 & H2). rewrite H2.
  simpl. split; [reflexivity|].
  exists mcqs1, mcqs2. reflexivity.
Qed.

(** A provider that serves every batch; the stream of C2 on it. *)
Lemma generate_3_1_0_witness :
  (forall (b : batch) (st0 : unit),
      exists mcqs st1,
        (fun (_ : batch) (st : unit) => (@Ok unit (list unit) [], st)) b st0
        = (Ok mcqs, st1)) /\
  List.length
    (written
       (fst (handler (fun (_ : batch) (st : unit) => (@Ok unit (list unit) [], st))
               (mkValidated 3 1 0) tt)))
  = 3.
Proof.
  assert (Hok : forall (b : batch) (st0 : unit),
             exists mcqs st1,
               (fun (_ : batch) (st : unit) => (@Ok unit (list unit) [], st)) b st0
               = (Ok mcqs, st1)).
  { intros b st0. exists [], st0. reflexivity. }
  split; [exact Hok|].
  destruct (generate_3_1_0_batches_and_chunks unit unit unit
              (fun _ st => (Ok [], st)) tt Hok) as (_ & _ & _ & m1 & m2 & Hw).
  rewrite Hw. reflexivity.
Defined.

(** C9.  Whatever the [generateMCQs] calls do, the handler calls it once
    for every batch, in order, each call in the state the call before it
    left, also after a call that threw.  What a call throws is logged and
    nothing is written for it, neither records nor an error: the log is
    the list of what the calls threw, the chunks with [completed: false]
    carry the lists of the calls that resolved, one chunk each and in
    order, and the chunk [{completed: true}] is always written, last. *)
Theorem batch_failure_is_swallowed :
  forall (Mcq E St : Type)
         (generateMCQs : batch -> St -> result E (list Mcq) * St)
         (validatedData : validated) (st : St),
  let s := fst (handler generateMCQs validatedData st) in
  let totalCount := (v_easyCount validatedData + v_mediumCount validatedData
                     + v_hardCount validatedData)%Z in
  let batches := buildBatches (v_easyCount validatedData)
                   (v_mediumCount validatedData) (v_hardCount validatedData) in
  List.map fst (called s) = batches /\
  (exists states : list St,
     List.length states = List.length batches /\
     snd (handler generateMCQs validatedData st) = List.last states st /\
     forall i b,
       nth_error batches i = Some b ->
       exists sti,
         nth_error (st :: states) i = Some sti /\
         nth_error (called s) i = Some (b, fst (generateMCQs b sti)) /\
         nth_error states i = Some (snd (generateMCQs b sti))) /\
  logged s
  = List.flat_map (fun call => match snd call with
                               | Err err => [err]
                               | Ok _ => []
                               end) (called s) /\
  List.map recordsOf (written s)
  = List.flat_map (fun call => match snd call with
                               | Ok mcqs => [Some mcqs]
                               | Err _ => []
                               end) (called s) ++ [None] /\
  logged s = errorsOf (called s) /\
  exists chunks,
    written s = chunks ++ [Completed] /\
    chunks = chunksOf (called s) totalCount 0 /\
    List.forallb (fun c => negb (isTerminal c)) chunks = true /\
    List.length chunks
    = List.length (List.filter succeeded (called s)).
Proof.
  intros Mcq E St generateMCQs validatedData st s totalCount batches.
  destruct (handler_written Mcq E St generateMCQs validatedData st)
    as (Hc & Hw & Hl).
  fold s in Hc, Hw, Hl. fold totalCount in Hw. fold batches in Hc.
  split; [exact Hc|].
  split; [exact (handler_states Mcq E St generateMCQs validatedData st)|].
  split; [rewrite Hl; apply errorsOf_flat_map|].
  split.
  { rewrite Hw, map_app, chunksOf_records. reflexivity. }
  split; [exact Hl|].
  exists (chunksOf (called s) totalCount 0).
  split; [exact Hw|]. split; [reflexivity|].
  apply chunksOf_nonterminal.
Qed.

(** One batch fails between two that resolve: the error is logged, two
    data chunks and the terminal chunk are written. *)
Example one_failure_among_three :
  let generateMCQs := fun (b : batch) (st : nat) =>
    (if st =? 1 then @Err nat (list nat) st else Ok [st; st], S st) in
  handler generateMCQs (mkValidated 2 2 1) 0
  = (mkStream [Chunk [0; 0] 5 2; Chunk [2; 2] 5 4; Completed]
              [1]
              [(mkBatch 2 0 0, Ok [0; 0]); (mkBatch 0 2 0, Err 1);
               (mkBatch 0 0 1, Ok [2; 2])],
     3).
Proof. reflexivity. Qed.

End Scheduler.

(* ===================================================================== *)
(** * JSON values and [JSON.parse]                                        *)
(* ===================================================================== *)

Module JSON.

(** A number literal, kept exact: the value is
    [(-1)^num_neg * num_mant * 10^num_exp].  The Number that [JSON.parse]
    returns is this value rounded to a double; two literals that are equal
    here therefore parse to the same Number. *)
Record jsnum := mkNum {
  num_neg : bool;
  num_mant : N;
  num_exp : Z
}.

(** The values [JSON.parse] returns.  An object keeps its members in the
    order of the text; reading a property takes the last member of that
    name, as the later of two equal keys overwrites the earlier. *)
#[warnings="-register-all"]
Inductive json : Type :=
| JNull
| JBool (b : bool)
| JNum (n : jsnum)
| JStr (s : jsstring)
| JArr (elems : list json)
| JObj (members : list (jsstring * json)).

Inductive token : Type :=
| TLBrace | TRBrace | TLBracket | TRBracket | TColon | TComma
| TStr (s : jsstring)
| TNum (n : jsnum)
| TTrue | TFalse | TNull.

(** ** The lexical grammar, as an automaton over code units *)

Inductive numstate : Type :=
| NMinus      (* after the sign *)
| NZero       (* after a leading 0 *)
| NInt        (* in the integer part *)
| NDot        (* after the decimal point *)
| NFrac       (* in the fraction *)
| NExpMark    (* after e or E *)
| NExpSign    (* after the sign of the exponent *)
| NExp.       (* in the exponent *)

Record numacc := mkAcc {
  a_neg : bool;     (* a leading minus was read *)
  a_mant : N;       (* the digits read so far, point removed *)
  a_scale : N;      (* how many of them follow the point *)
  a_eneg : bool;    (* the exponent is negative *)
  a_expo : N        (* the digits of the exponent *)
}.

Inductive lstate : Type :=
| LIdle                                     (* between two tokens *)
| LStr (acc : jsstring)                     (* in a string; [acc] is reversed *)
| LEsc (acc : jsstring)                     (* after a backslash *)
| LHex (acc : jsstring) (todo : nat) (v : N) (* in the digits of \u *)
| LNum (ns : numstate) (a : numacc)         (* in a number *)
| LLit (rest : jsstring) (t : token).       (* in true, false or null *)

Definition isJSONSpace (c : char) : bool :=
  ((c =? 32) || (c =? 9) || (c =? 10) || (c =? 13))%N.

Definition isDigit (c : char) : bool := ((48 <=? c) && (c <=? 57))%N.

Definition digitValue (c : char) : N := (c - 48)%N.

Definition hexValue (c : char) : option N :=
  if isDigit c then Some (c - 48)%N
  else if ((97 <=? c) && (c <=? 102))%N then Some (c - 87)%N
  else if ((65 <=? c) && (c <=? 70))%N then Some (c - 55)%N
  else None.

Definition numberOf (a : numacc) : jsnum :=
  mkNum (a_neg a) (a_mant a)
        ((if a_eneg a then - Z.of_N (a_expo a) else Z.of_N (a_expo a))
         - Z.of_N (a_scale a))%Z.

Definition pushDigit (a : numacc) (c : char) : numacc :=
  mkAcc (a_neg a) (a_mant a * 10 + digitValue c)%N (a_scale a) (a_eneg a)
        (a_expo a).

Definition pushFraction (a : numacc) (c : char) : numacc :=
  mkAcc (a_neg a) (a_mant a * 10 + digitValue c)%N (a_scale a + 1)%N
        (a_eneg a) (a_expo a).

Definition pushExponent (a : numacc) (c : char) : numacc :=
  mkAcc (a_neg a) (a_mant a) (a_scale a) (a_eneg a)
        (a_expo a * 10 + digitValue c)%N.

Definition negativeExponent (a : numacc) : numacc :=
  mkAcc (a_neg a) (a_mant a) (a_scale a) true (a_expo a).

(** The first code unit of a token. *)
Definition lidle (c : char) : option (lstate * list token) :=
  if isJSONSpace c then Some (LIdle, [])
  else if (c =? ch "{")%N then Some (LIdle, [TLBrace])
  else if (c =? ch "}")%N then Some (LIdle, [TRBrace])
  else if (c =? ch "[")%N then Some (LIdle, [TLBracket])
  else if (c =? ch "]")%N then Some (LIdle, [TRBracket])
  else if (c =? ch ":")%N then Some (LIdle, [TColon])
  else if (c =? ch ",")%N then Some (LIdle, [TComma])
  else if (c =? QUOTE)%N then Some (LStr [], [])
  else if (c =? ch "-")%N then Some (LNum NMinus (mkAcc true 0 0 false 0), [])
  else if (c =? ch "0")%N then Some (LNum NZero (mkAcc false 0 0 false 0), [])
  else if isDigit c
       then Some (LNum NInt (mkAcc false (digitValue c) 0 false 0), [])
  else if (c =? ch "t")%N then Some (LLit (js "rue") TTrue, [])
  else if (c =? ch "f")%N then Some (LLit (js "alse") TFalse, [])
  else if (c =? ch "n")%N then Some (LLit (js "ull") TNull, [])
  else None.

(** The number ends before [c], which starts the next token. *)
Definition endNumber (a : numacc) (c : char) : option (lstate * list token) :=
  match lidle c with
  | Some (st, ts) => Some (st, TNum (numberOf a) :: ts)
  | None => None
  end.

Definition isExpMark (c : char) : bool := ((c =? ch "e") || (c =? ch "E"))%N.

Definition lnum (ns : numstate) (a : numacc) (c : char)
  : option (lstate * list token) :=
  match ns with
  | NMinus =>
      if (c =? ch "0")%N then Some (LNum NZero a, [])
      else if isDigit c then Some (LNum NInt (pushDigit a c), [])
      else None
  | NZero =>
      if (c =? ch ".")%N then Some (LNum NDot a, [])
      else if isExpMark c then Some (LNum NExpMark a, [])
      else endNumber a c
  | NInt =>
      if isDigit c then Some (LNum NInt (pushDigit a c), [])
      else if (c =? ch ".")%N then Some (LNum NDot a, [])
      else if isExpMark c then Some (LNum NExpMark a, [])
      else endNumber a c
  | NDot =>
      if isDigit c then Some (LNum NFrac (pushFraction a c), []) else None
  | NFrac =>
      if isDigit c then Some (LNum NFrac (pushFraction a c), [])
      else if isExpMark c then Some (LNum NExpMark a, [])
      else endNumber a c
  | NExpMark =>
      if (c =? ch "+")%N then Some (LNum NExpSign a, [])
      else if (c =? ch "-")%N then Some (LNum NExpSign (negativeExponent a), [])
      else if isDigit c then Some (LNum NExp (pushExponent a c), [])
      else None
  | NExpSign =>
      if isDigit c then Some (LNum NExp (pushExponent a c), []) else None
  | NExp =>
      if isDigit c then Some (LNum NExp (pushExponent a c), [])
      else endNumber a c
  end.

(** The character an escape stands for. *)
Definition escapeValue (c : char) : option char :=
  if (c =? QUOTE)%N then Some QUOTE
  else if (c =? BACKSLASH)%N then Some BACKSLASH
  else if (c =? ch "/")%N then Some (ch "/")
  else if (c =? ch "b")%N then Some 8%N
  else if (c =? ch "f")%N then Some 12%N
  else if (c =? ch "n")%N then Some 10%N
  else if (c =? ch "r")%N then Some 13%N
  else if (c =? ch "t")%N then Some 9%N
  else None.

Definition lstep (st : lstate) (c : char) : option (lstate * list token) :=
  match st with
  | LIdle => lidle c
  | LStr acc =>
      if (c =? QUOTE)%N then Some (LIdle, [TStr (rev acc)])
      else if (c =? BACKSLASH)%N then Some (LEsc acc, [])
      else if (c <? 32)%N then None
      else Some (LStr (c :: acc), [])
  | LEsc acc =>
      if (c =? ch "u")%N then Some (LHex acc 4 0%N, [])
      else match escapeValue c with
           | Some d => Some (LStr (d :: acc), [])
           | None => None
           end
  | LHex acc todo v =>
      match hexValue c with
      | Some d =>
          match todo with
          | S (S todo') => Some (LHex acc (S todo') (v * 16 + d)%N, [])
          | _ => Some (LStr ((v * 16 + d)%N :: acc), [])
          end
      | None => None
      end
  | LNum ns a => lnum ns a c
  | LLit rest t =>
      match rest with
      | d :: rest' =>
          if (c =? d)%N
          then match rest' with
               | [] => Some (LIdle, [t])
               | _ :: _ => Some (LLit rest' t, [])
               end
          else None
      | [] => None
      end
  end.

(** At the end of the text. *)
Definition lfinish (st : lstate) : option (list token) :=
  match st with
  | LIdle => Some []
  | LNum (NZero | NInt | NFrac | NExp) a => Some [TNum (numberOf a)]
  | _ => None
  end.

Fixpoint lex (st : lstate) (s : jsstring) : option (list token) :=
  match s with
  | [] => lfinish st
  | c :: s' =>
      match lstep st c with
      | Some (st', ts) =>
          match lex st' s' with
          | Some r => Some (ts ++ r)
          | None => None
          end
      | None => None
      end
  end.

(** ** The syntactic grammar, as a pushdown automaton over tokens *)

(** A container being read: an array with the elements read so far, or an
    object with the members read so far and the key whose value is being
    read.  Both lists are reversed. *)
Inductive frame : Type :=
| FArr (elems : list json)
| FObj (members : list (jsstring * json)) (key : jsstring).

Inductive pstate : Type :=
| PValue (st : list frame)                       (* a value is expected *)
| PArrFirst (st : list frame)                    (* after [ *)
| PArrNext (elems : list json) (st : list frame) (* after an element *)
| PObjFirst (st : list frame)                    (* after { *)
| PObjKey (members : list (jsstring * json)) (st : list frame) (* after , *)
| PColon (members : list (jsstring * json)) (key : jsstring) (st : list frame)
| PObjNext (members : list (jsstring * json)) (st : list frame) (* after a member *)
| PDone (v : json).                              (* the value is complete *)

(** A value is complete inside the containers [st]. *)
Definition complete (v : json) (st : list frame) : pstate :=
  match st with
  | [] => PDone v
  | FArr elems :: st' => PArrNext (v :: elems) st'
  | FObj members key :: st' => PObjNext ((key, v) :: members) st'
  end.

Definition pvalue (st : list frame) (t : token) : option pstate :=
  match t with
  | TLBrace => Some (PObjFirst st)
  | TLBracket => Some (PArrFirst st)
  | TStr s => Some (complete (JStr s) st)
  | TNum n => Some (complete (JNum n) st)
  | TTrue => Some (complete (JBool true) st)
  | TFalse => Some (complete (JBool false) st)
  | TNull => Some (complete JNull st)
  | TRBrace | TRBracket | TColon | TComma => None
  end.

Definition pstep (p : pstate) (t : token) : option pstate :=
  match p with
  | PValue st => pvalue st t
  | PArrFirst st =>
      match t with
      | TRBracket => Some (complete (JArr []) st)
      | _ => pvalue (FArr [] :: st) t
      end
  | PArrNext elems st =>
      match t with
      | TComma => Some (PValue (FArr elems :: st))
      | TRBracket => Some (complete (JArr (rev elems)) st)
      | _ => None
      end
  | PObjFirst st =>
      match t with
      | TStr key => Some (PColon [] key st)
      | TRBrace => Some (complete (JObj []) st)
      | _ => None
      end
  | PObjKey members st =>
      match t with
      | TStr key => Some (PColon members key st)
      | _ => None
      end
  | PColon members key st =>
      match t with
      | TColon => Some (PValue (FObj members key :: st))
      | _ => None
      end
  | PObjNext members st =>
      match t with
      | TComma => Some (PObjKey members st)
      | TRBrace => Some (complete (JObj (rev members)) st)
      | _ => None
      end
  | PDone _ => None
  end.

Fixpoint prun (p : pstate) (ts : list token) : option json :=
  match ts with
  | [] => match p with
          | PDone v => Some v
          | _ => None
          end
  | t :: ts' =>
      match pstep p t with
      | Some p' => prun p' ts'
      | None => None
      end
  end.

(** [JSON.parse(text)] without reviver: [None] stands for the SyntaxError
    it throws. *)
Definition JSON_parse (text : jsstring) : option json :=
  match lex LIdle text with
  | Some ts => prun (PValue []) ts
  | None => None
  end.

(** ** The lexer as a run followed by a final check *)

Fixpoint lrun (st : lstate) (s : jsstring) : option (lstate * list token) :=
  match s with
  | [] => Some (st, [])
  | c :: s' =>
      match lstep st c with
      | Some (st', ts) =>
          match lrun st' s' with
          | Some (st'', r) => Some (st'', ts ++ r)
          | None => None
          end
      | None => None
      end
  end.

Lemma lex_lrun (s : jsstring) :
  forall st,
  lex st s =
  match lrun st s with
  | Some (st', ts) =>
      match lfinish st' with
      | Some f => Some (ts ++ f)
      | None => None
      end
  | None => None
  end.
Proof.
  induction s as [|c s IH]; intros st; simpl.
  - now destruct (lfinish st).
  - destruct (lstep st c) as [[st' ts]|]; [|reflexivity].
    rewrite IH. destruct (lrun st' s) as [[st'' r]|]; [|reflexivity].
    destruct (lfinish st''); [|reflexivity].
    now rewrite app_assoc.
Qed.

Lemma lrun_app (s t : jsstring) :
  forall st,
  lrun st (s ++ t) =
  match lrun st s with
  | Some (st', ts) =>
      match lrun st' t with
      | Some (st'', r) => Some (st'', ts ++ r)
      | None => None
      end
  | None => None
  end.
Proof.
  induction s as [|c s IH]; intros st; simpl.
  - now destruct (lrun st t) as [[st'' r]|].
  - destruct (lstep st c) as [[st' ts]|]; [|reflexivity].
    rewrite IH. destruct (lrun st' s) as [[st1 r1]|]; [|reflexivity].
    destruct (lrun st1 t) as [[st2 r2]|]; [|reflexivity].
    now rewrite app_assoc.
Qed.

(** ** The parser as a run followed by a final check *)

Fixpoint pafter (p : pstate) (ts : list token) : option pstate :=
  match ts with
  | [] => Some p
  | t :: ts' =>
      match pstep p t with
      | Some p' => pafter p' ts'
      | None => None
      end
  end.

Lemma prun_app (ts rest : list token) :
  forall p,
  prun p (ts ++ rest) =
  match pafter p ts with
  | Some p' => prun p' rest
  | None => None
  end.
Proof.
  induction ts as [|t ts IH]; intros p; simpl; [reflexivity|].
  destruct (pstep p t); [apply IH|reflexivity].
Qed.

(** The text [pre] stops where the value of member [key] of a record is
    expected, the record being an element of the top-level array: [elems]
    are the elements already complete and [members] the members of the
    record already complete, both latest first. *)
Definition stopsAtValue (pre : jsstring) (elems : list json)
    (members : list (jsstring * json)) (key : jsstring) : Prop :=
  exists ts,
    lrun LIdle pre = Some (LIdle, ts) /\
    pafter (PValue []) ts = Some (PValue [FObj members key; FArr elems]).

(** A unit a string literal holds as it is: not a control character, not
    the quote, not the backslash. *)
Definition isStringUnit (c : char) : bool :=
  negb (c <? 32)%N && negb (c =? QUOTE)%N && negb (c =? BACKSLASH)%N.

Lemma lrun_string (s : jsstring) :
  forall acc,
  List.forallb isStringUnit s = true ->
  lrun (LStr acc) s = Some (LStr (rev s ++ acc), []).
Proof.
  induction s as [|c s IH]; intros acc H; simpl in *; [reflexivity|].
  apply andb_true_iff in H as [Hc Hs].
  unfold isStringUnit in Hc.
  apply andb_true_iff in Hc as [Hc Hb]. apply andb_true_iff in Hc as [Hc Hq].
  apply negb_true_iff in Hc, Hq, Hb. rewrite Hq, Hb, Hc.
  rewrite (IH (c :: acc) Hs). now rewrite <- app_assoc.
Qed.

(** ** White space around a JSON text *)

Ltac norm_ch :=
  repeat match goal with
         | |- context [ch ?s] =>
             let v := eval vm_compute in (ch s) in change (ch s) with v
         | H : context [ch ?s] |- _ =>
             let v := eval vm_compute in (ch s) in change (ch s) with v in H
         end.

Ltac bool_to_prop H :=
  repeat first
    [ rewrite orb_true_iff in H | rewrite andb_true_iff in H
    | rewrite orb_false_iff in H | rewrite andb_false_iff in H
    | rewrite N.eqb_eq in H | rewrite N.eqb_neq in H
    | rewrite N.leb_le in H | rewrite N.leb_gt in H
    | rewrite N.ltb_lt in H | rewrite N.ltb_ge in H ].

(** Decide a test on a code unit from what is known of it. *)
Ltac char_test :=
  match goal with
  | |- context [N.eqb ?c ?k] =>
      destruct (N.eqb_spec c k); [exfalso; lia|]
  | |- context [N.leb ?a ?b] =>
      destruct (N.leb_spec a b)
  | |- context [N.ltb ?a ?b] =>
      destruct (N.ltb_spec a b)
  end.

Lemma whitespace_cases (c : char) :
  isWhiteSpace c = true ->
  (9 <= c <= 13 \/ c = 32 \/ 160 <= c)%N.
Proof.
  unfold isWhiteSpace. intros H. bool_to_prop H. lia.
Qed.

Lemma lidle_whitespace (c : char) :
  isWhiteSpace c = true ->
  lidle c = if isJSONSpace c then Some (LIdle, []) else None.
Proof.
  intros H. apply whitespace_cases in H.
  unfold lidle. destruct (isJSONSpace c); [reflexivity|].
  unfold isDigit, QUOTE. norm_ch.
  repeat char_test; simpl; try reflexivity; exfalso; lia.
Qed.

Lemma lex_trimStart (x : jsstring) (ts : list token) :
  lex LIdle x = Some ts -> lex LIdle (trimStart x) = Some ts.
Proof.
  induction x as [|c x IH]; intros H; simpl; [exact H|].
  destruct (isWhiteSpace c) eqn:Hws; [|exact H].
  apply IH. simpl in H. rewrite (lidle_whitespace c Hws) in H.
  destruct (isJSONSpace c); [|discriminate].
  now destruct (lex LIdle x).
Qed.

(** The part of a literal still to read holds no white space. *)
Definition lstate_ok (st : lstate) : Prop :=
  match st with
  | LLit rest _ => Forall (fun d => isWhiteSpace d = false) rest
  | _ => True
  end.

Lemma lidle_ok (c : char) (st : lstate) (ts : list token) :
  lidle c = Some (st, ts) -> lstate_ok st.
Proof.
  unfold lidle.
  repeat match goal with
         | |- context [if ?b then _ else _] => destruct b
         end;
    intros H; inversion H; subst; simpl; auto;
    repeat constructor.
Qed.

Lemma lstep_ok (st st' : lstate) (c : char) (ts : list token) :
  lstate_ok st -> lstep st c = Some (st', ts) -> lstate_ok st'.
Proof.
  intros Hok H. destruct st as [|acc|acc|acc todo v|ns a|rest t]; simpl in H.
  - eapply lidle_ok; eauto.
  - repeat match type of H with
           | context [if ?b then _ else _] => destruct b
           end; inversion H; subst; exact I.
  - destruct (c =? ch "u")%N; [inversion H; subst; exact I|].
    destruct (escapeValue c); inversion H; subst; exact I.
  - destruct (hexValue c); [|discriminate].
    destruct todo as [|[|todo]]; inversion H; subst; exact I.
  - unfold lnum, endNumber in H.
    destruct ns;
      repeat match type of H with
             | context [if ?b then _ else _] => destruct b
             end;
      try (inversion H; subst; exact I);
      destruct (lidle c) as [[st1 ts1]|] eqn:Hi; try discriminate;
      inversion H; subst; eapply lidle_ok; eauto.
  - destruct rest as [|d rest]; [discriminate|].
    destruct (c =? d)%N; [|discriminate].
    destruct rest; inversion H; subst; simpl; auto.
    simpl in Hok. now inversion Hok.
Qed.

Lemma lrun_ok (s : jsstring) :
  forall st st' ts,
  lstate_ok st -> lrun st s = Some (st', ts) -> lstate_ok st'.
Proof.
  induction s as [|c s IH]; intros st st' ts Hok H; simpl in H.
  - now inversion H; subst.
  - destruct (lstep st c) as [[st1 ts1]|] eqn:Hs; [|discriminate].
    destruct (lrun st1 s) as [[st2 r]|] eqn:Hr; [|discriminate].
    inversion H; subst. eapply IH; [|eauto]. eapply lstep_ok; eauto.
Qed.

(** A white space unit read at the end of a text that lexes can be dropped. *)
Lemma lstep_whitespace_finish (st st' : lstate) (c : char)
    (ts f : list token) :
  lstate_ok st ->
  isWhiteSpace c = true ->
  lstep st c = Some (st', ts) ->
  lfinish st' = Some f ->
  lfinish st = Some (ts ++ f).
Proof.
  intros Hok Hws H Hf.
  pose proof (whitespace_cases c Hws) as Hc.
  destruct st as [|acc|acc|acc todo v|ns a|rest t]; simpl in H.
  - rewrite (lidle_whitespace c Hws) in H.
    destruct (isJSONSpace c); inversion H; subst. exact Hf.
  - destruct (N.eqb_spec c QUOTE) as [Hq|_];
      [exfalso; unfold QUOTE in Hq; lia|].
    repeat match type of H with
           | context [if ?b then _ else _] => destruct b
           end; inversion H; subst; discriminate.
  - destruct (c =? ch "u")%N; [inversion H; subst; discriminate|].
    destruct (escapeValue c); inversion H; subst; discriminate.
  - destruct (hexValue c); [|discriminate].
    destruct todo as [|[|todo]]; inversion H; subst; discriminate.
  - assert (Hd : isDigit c = false).
    { unfold isDigit. apply andb_false_iff.
      destruct (N.leb_spec 48 c); [right; apply N.leb_gt; lia|now left]. }
    assert (He : isExpMark c = false).
    { unfold isExpMark. norm_ch. apply orb_false_iff.
      split; apply N.eqb_neq; lia. }
    assert (H0 : (c =? ch "0")%N = false) by (norm_ch; apply N.eqb_neq; lia).
    assert (Hdot : (c =? ch ".")%N = false) by (norm_ch; apply N.eqb_neq; lia).
    assert (Hp : (c =? ch "+")%N = false) by (norm_ch; apply N.eqb_neq; lia).
    assert (Hm : (c =? ch "-")%N = false) by (norm_ch; apply N.eqb_neq; lia).
    unfold lnum, endNumber in H.
    rewrite ?Hd, ?He, ?H0, ?Hdot, ?Hp, ?Hm in H.
    rewrite (lidle_whitespace c Hws) in H.
    destruct ns; try discriminate;
      destruct (isJSONSpace c); inversion H; subst;
      simpl in Hf; inversion Hf; subst; reflexivity.
  - destruct rest as [|d rest]; [discriminate|].
    simpl in Hok. inversion Hok as [|? ? Hd _]; subst.
    destruct (N.eqb_spec c d) as [->|Hne]; [congruence|discriminate].
Qed.

Lemma lex_snoc_whitespace (x : jsstring) (c : char) (ts : list token) :
  isWhiteSpace c = true ->
  lex LIdle (x ++ [c]) = Some ts -> lex LIdle x = Some ts.
Proof.
  intros Hws H. rewrite lex_lrun in *. rewrite lrun_app in H.
  destruct (lrun LIdle x) as [[st1 ts1]|] eqn:Hx; [|discriminate].
  simpl in H.
  destruct (lstep st1 c) as [[st2 ts2]|] eqn:Hs; [|discriminate].
  destruct (lfinish st2) as [f|] eqn:Hf; [|discriminate].
  assert (Hok : lstate_ok st1) by (exact (lrun_ok x LIdle st1 ts1 I Hx)).
  rewrite (lstep_whitespace_finish st1 st2 c ts2 f Hok Hws Hs Hf).
  rewrite app_nil_r in H. now rewrite app_assoc.
Qed.

Lemma lex_trimEnd (x : jsstring) (ts : list token) :
  lex LIdle x = Some ts -> lex LIdle (trimEnd x) = Some ts.
Proof.
  unfold trimEnd. rewrite <- (rev_involutive x) at 1.
  generalize (rev x) as y. clear x.
  induction y as [|c y IH]; intros H; simpl in *; [exact H|].
  destruct (isWhiteSpace c) eqn:Hws; [|exact H].
  apply IH. eapply lex_snoc_whitespace; eauto.
Qed.

(** [JSON.parse] ignores the white space that [trim] removes. *)
Lemma JSON_parse_trim (x : jsstring) (v : json) :
  JSON_parse x = Some v -> JSON_parse (trim x) = Some v.
Proof.
  unfold JSON_parse, trim. intros H.
  destruct (lex LIdle x) as [ts|] eqn:Hx; [|discriminate].
  now rewrite (lex_trimEnd _ ts (lex_trimStart _ ts Hx)).
Qed.

End JSON.

(* ===================================================================== *)
(** * The sanitizer: [cleanJSONResponse]                                  *)
(* ===================================================================== *)

Module Sanitizer.

Import JSON.

(** The character class of the lookahead: b, f, n, r, t, u, the double
    quote and the slash. *)
Definition inEscapeClass (c : char) : bool :=
  ((c =? ch "b") || (c =? ch "f") || (c =? ch "n") || (c =? ch "r")
   || (c =? ch "t") || (c =? ch "u") || (c =? QUOTE) || (c =? ch "/"))%N.

(** The class [[0-9a-fA-F]]. *)
Definition isHexDigit (c : char) : bool :=
  match hexValue c with
  | Some _ => true
  | None => false
  end.

(** Whether the lookahead pattern, a unit of the class or [u[0-9a-fA-F]{4}],
    matches at the start of [rest], the text that follows a backslash. *)
Definition lookahead (rest : jsstring) : bool :=
  match rest with
  | c :: rest' =>
      inEscapeClass c ||
      ((c =? ch "u")%N &&
       match rest' with
       | h1 :: h2 :: h3 :: h4 :: _ =>
           isHexDigit h1 && isHexDigit h2 && isHexDigit h3 && isHexDigit h4
       | _ => false
       end)
  | [] => false
  end.

(** The global replace of step 2: every backslash at which the negative
    lookahead succeeds is replaced by two backslashes.  The match is the
    backslash alone, so the scan resumes at the next unit. *)
Fixpoint escapeBackslashes (text : jsstring) : jsstring :=
  match text with
  | [] => []
  | c :: rest =>
      if (c =? BACKSLASH)%N && negb (lookahead rest)
      then BACKSLASH :: BACKSLASH :: escapeBackslashes rest
      else c :: escapeBackslashes rest
  end.

(** Step 1: [text.replace(/```json\n?/g, '').replace(/```\n?/g, '').trim()] *)
Definition stripFences (text : jsstring) : jsstring :=
  trim (removeFence (js "```") (removeFence (js "```json") text)).

(** Step 3, on a text that ends neither with ] nor with }. *)
Definition closeTruncated (text : jsstring) : jsstring :=
  let lastQuote := lastIndexOf QUOTE text in
  let lastColon := lastIndexOf (ch ":") text in
  let text := if (lastColon <? lastQuote)%Z then text ++ [QUOTE] else text in
  let openBraces := (countChar (ch "{") text - countChar (ch "}") text)%Z in
  let openBrackets := (countChar (ch "[") text - countChar (ch "]") text)%Z in
  text ++ List.repeat (ch "}") (Z.to_nat openBraces)
       ++ List.repeat (ch "]") (Z.to_nat openBrackets).

Definition cleanJSONResponse (text : jsstring) : jsstring :=
  match text with
  | [] => []
  | _ :: _ =>
      let text := stripFences text in
      match JSON_parse text with
      | Some _ => text
      | None =>
          let text := escapeBackslashes text in
          if negb (endsWith (ch "]") text) && negb (endsWith (ch "}") text)
          then closeTruncated text
          else text
      end
  end.

(** The rule of the specification for step 2, to be compared with
    [escapeBackslashes]: a backslash is doubled exactly when it is not
    immediately followed by one of the JSON escape characters (the double
    quote, the backslash, the slash, b, f, n, r, t) or by u and four
    hexadecimal digits. *)
Definition isJSONEscapeChar (c : char) : bool :=
  match escapeValue c with
  | Some _ => true
  | None => false
  end.

Definition recognizedEscape (rest : jsstring) : bool :=
  match rest with
  | c :: rest' =>
      isJSONEscapeChar c ||
      ((c =? ch "u")%N &&
       match rest' with
       | h1 :: h2 :: h3 :: h4 :: _ =>
           isHexDigit h1 && isHexDigit h2 && isHexDigit h3 && isHexDigit h4
       | _ => false
       end)
  | [] => false
  end.

Fixpoint escapeBackslashes_spec (text : jsstring) : jsstring :=
  match text with
  | [] => []
  | c :: rest =>
      if (c =? BACKSLASH)%N && negb (recognizedEscape rest)
      then BACKSLASH :: BACKSLASH :: escapeBackslashes_spec rest
      else c :: escapeBackslashes_spec rest
  end.

Lemma stripFences_no_fence (x : jsstring) :
  includes (js "```") x = false -> stripFences x = trim x.
Proof.
  intros H. unfold stripFences.
  rewrite (removeFence_absent (js "```json") x).
  - now rewrite removeFence_absent.
  - exact (includes_app_false (js "```") (js "json") x H).
Qed.

(** Step 2 returns the stripped text as it is when it parses. *)
Lemma cleanJSONResponse_parses (x : jsstring) (v : json) :
  JSON_parse (stripFences x) = Some v ->
  cleanJSONResponse x = stripFences x.
Proof.
  intros H. destruct x as [|c x].
  - discriminate H.
  - unfold cleanJSONResponse. cbv zeta. now rewrite H.
Qed.

(** C3, as the code has it.  For every input that is valid JSON and holds
    no code fence marker (three backquotes), [cleanJSONResponse] returns
    the input trimmed, without any repair, and the result parses to the
    value the input parses to. *)
Theorem cleanJSONResponse_valid_without_fence :
  forall (x : jsstring) (v : json),
  JSON_parse x = Some v ->
  includes (js "```") x = false ->
  cleanJSONResponse x = trim x /\
  JSON_parse (cleanJSONResponse x) = Some v.
Proof.
  intros x v Hv Hf.
  pose proof (JSON_parse_trim x v Hv) as Ht.
  rewrite <- (stripFences_no_fence x Hf) in Ht.
  rewrite (cleanJSONResponse_parses x v Ht).
  split; [apply stripFences_no_fence, Hf|exact Ht].
Qed.

Lemma cleanJSONResponse_valid_witness :
  JSON_parse (js " [{'question':'q','correctAnswer':'B'}] ")
  = Some (JArr [JObj [(js "question", JStr (js "q"));
                      (js "correctAnswer", JStr (js "B"))]]) /\
  cleanJSONResponse (js " [{'question':'q','correctAnswer':'B'}] ")
  = js "[{'question':'q','correctAnswer':'B'}]".
Proof.
  split; [reflexivity|].
  destruct (cleanJSONResponse_valid_without_fence
              (js " [{'question':'q','correctAnswer':'B'}] ")
              (JArr [JObj [(js "question", JStr (js "q"));
                           (js "correctAnswer", JStr (js "B"))]])
              eq_refl eq_refl) as [H _].
  rewrite H. reflexivity.
Defined.

(** C3 as stated fails: a valid JSON text with a fence marker inside a
    string literal loses the marker before the strict parse. *)
Lemma cleanJSONResponse_changes_valid_json :
  JSON_parse (js "['```']") = Some (JArr [JStr (js "```")]) /\
  cleanJSONResponse (js "['```']") = js "['']" /\
  JSON_parse (cleanJSONResponse (js "['```']")) = Some (JArr [JStr []]) /\
  JSON_parse (cleanJSONResponse (js "['```']")) <> JSON_parse (js "['```']").
Proof.
  repeat split; try reflexivity. vm_compute. discriminate.
Qed.

(** The example of the specification for step 2: the backslash of
    [\alpha] is doubled and the text parses to the original characters. *)
Example cleanJSONResponse_alpha :
  cleanJSONResponse (js "[{'explanation': 'This uses \alpha for math.'}]")
  = js "[{'explanation': 'This uses \\alpha for math.'}]" /\
  JSON_parse
    (cleanJSONResponse (js "[{'explanation': 'This uses \alpha for math.'}]"))
  = Some (JArr [JObj [(js "explanation",
                       JStr (js "This uses \alpha for math."))]]).
Proof. split; reflexivity. Qed.

(** C4, the code at the failing input.  The text holds an escaped
    backslash and one stray backslash before q.  The backslash class of
    the lookahead lacks the backslash itself, so the first backslash of
    the escaped pair is doubled too and the result no longer parses; the
    rule of the specification doubles the stray backslash only and gives a
    text that parses. *)
Theorem escapeBackslashes_doubles_escaped_backslash :
  JSON_parse (stripFences (js "['\\','\q']")) = None /\
  escapeBackslashes (js "['\\','\q']") = js "['\\\','\\q']" /\
  cleanJSONResponse (js "['\\','\q']") = js "['\\\','\\q']" /\
  JSON_parse (cleanJSONResponse (js "['\\','\q']")) = None /\
  escapeBackslashes_spec (js "['\\','\q']") = js "['\\','\\q']" /\
  JSON_parse (escapeBackslashes_spec (js "['\\','\q']"))
  = Some (JArr [JStr (js "\"); JStr (js "\q")]).
Proof. repeat split; reflexivity. Qed.

(** The second alternative of the lookahead is dead: u is in the class, so
    a backslash before u is never doubled, four hexadecimal digits or
    not. *)
Lemma escapeBackslashes_keeps_backslash_u :
  escapeBackslashes (js "['\uZZ']") = js "['\uZZ']" /\
  escapeBackslashes_spec (js "['\uZZ']") = js "['\\uZZ']" /\
  JSON_parse (cleanJSONResponse (js "['\uZZ']")) = None.
Proof. repeat split; reflexivity. Qed.

(** Step 3 on the text that reaches it. *)
Lemma cleanJSONResponse_repairs (text : jsstring) :
  let stripped := stripFences text in
  let escaped := escapeBackslashes stripped in
  JSON_parse stripped = None ->
  endsWith (ch "]") escaped = false ->
  endsWith (ch "}") escaped = false ->
  cleanJSONResponse text =
    let closed :=
      escaped ++ (if (lastIndexOf (ch ":") escaped
                      <? lastIndexOf QUOTE escaped)%Z
                  then [QUOTE] else []) in
    closed
    ++ List.repeat (ch "}")
         (Z.to_nat (countChar (ch "{") escaped - countChar (ch "}") escaped))
    ++ List.repeat (ch "]")
         (Z.to_nat (countChar (ch "[") escaped - countChar (ch "]") escaped)).
Proof.
  intros stripped escaped Hp Hb Hc. cbv zeta.
  destruct text as [|c text].
  - vm_compute in Hb. subst stripped escaped.
    reflexivity.
  - unfold cleanJSONResponse. cbv zeta.
    fold stripped. rewrite Hp. fold escaped. rewrite Hb, Hc. simpl negb.
    cbv [andb]. unfold closeTruncated. cbv zeta.
    destruct (lastIndexOf (ch ":") escaped <? lastIndexOf QUOTE escaped)%Z.
    + rewrite !countChar_app.
      replace (countChar (ch "{") [QUOTE]) with 0%Z by reflexivity.
      replace (countChar (ch "}") [QUOTE]) with 0%Z by reflexivity.
      replace (countChar (ch "[") [QUOTE]) with 0%Z by reflexivity.
      replace (countChar (ch "]") [QUOTE]) with 0%Z by reflexivity.
      now rewrite !Z.add_0_r.
    + now rewrite app_nil_r.
Qed.

(** ** Truncation inside a string value *)

(** A unit of the truncated value that the repair can cope with: a unit a
    string literal holds as it is, and none of the delimiters the repair
    counts or searches. *)
Definition plainUnit (c : char) : bool :=
  isStringUnit c && negb (c =? ch ":")%N
  && negb (c =? ch "{")%N && negb (c =? ch "}")%N
  && negb (c =? ch "[")%N && negb (c =? ch "]")%N.

Lemma escapeBackslashes_none (s : jsstring) :
  lacks BACKSLASH s = true -> escapeBackslashes s = s.
Proof.
  induction s as [|c s IH]; intros H; [reflexivity|].
  unfold lacks in H. cbn [List.existsb] in H.
  apply negb_true_iff in H. apply orb_false_iff in H as [Hc Hs].
  cbn [escapeBackslashes]. rewrite N.eqb_sym in Hc. rewrite Hc. cbn [andb].
  rewrite IH; [reflexivity|]. unfold lacks. now apply negb_true_iff.
Qed.

Lemma plainUnit_facts (p : jsstring) :
  List.forallb plainUnit p = true ->
  List.forallb isStringUnit p = true /\
  lacks BACKSLASH p = true /\
  ~ In QUOTE p /\ ~ In (ch ":") p /\
  ~ In (ch "{") p /\ ~ In (ch "}") p /\ ~ In (ch "[") p /\ ~ In (ch "]") p.
Proof.
  induction p as [|c p IH]; intros H.
  - repeat split; auto.
  - simpl in H. apply andb_true_iff in H as [Hc Hp].
    destruct (IH Hp) as (H1 & H2 & H3 & H4 & H5 & H6 & H7 & H8).
    unfold plainUnit in Hc.
    repeat match type of Hc with
           | (_ && _ = true) => apply andb_true_iff in Hc as [Hc ?]
           end.
    assert (Hs := Hc). unfold isStringUnit in Hc.
    repeat match type of Hc with
           | (_ && _ = true) => apply andb_true_iff in Hc as [Hc ?]
           end.
    repeat match goal with
           | H : negb _ = true |- _ => apply negb_true_iff in H
           end.
    repeat match goal with
           | H : (_ =? _)%N = false |- _ => apply N.eqb_neq in H
           end.
    split; [simpl; now rewrite Hs|].
    split.
    { unfold lacks in *. cbn [List.existsb].
      apply negb_true_iff. apply orb_false_iff.
      split; [apply N.eqb_neq; congruence|now apply negb_true_iff]. }
    repeat split; intros [Heq|Hin]; auto; congruence.
Qed.

(** C5, as the code has it.  On a text that fails the strict parse and,
    after the backslash step, ends neither with ] nor with }, the repair
    appends a quote exactly when the last quote comes after the last
    colon, then as many closing braces as there are more opening than
    closing ones, then the closing brackets likewise (none when the
    difference is negative).  The repaired text need not parse.  It does
    when the text stops inside the string value of a member of a record of
    the top-level array, provided the text holds no code fence, no
    backslash and no white space at either end, the part of the value read
    so far holds no quote, colon, brace, bracket or control character, and
    the text before it has one opening brace and one opening bracket more
    than closing ones: the result is then the text followed by a quote, a
    brace and a bracket, and it parses to the complete leading records,
    unchanged, followed by the record cut short. *)
Theorem truncated_text_repair :
  (forall text : jsstring,
      let stripped := stripFences text in
      let escaped := escapeBackslashes stripped in
      JSON_parse stripped = None ->
      endsWith (ch "]") escaped = false ->
      endsWith (ch "}") escaped = false ->
      cleanJSONResponse text =
        (escaped ++ (if (lastIndexOf (ch ":") escaped
                         <? lastIndexOf QUOTE escaped)%Z
                     then [QUOTE] else []))
        ++ List.repeat (ch "}")
             (Z.to_nat (countChar (ch "{") escaped - countChar (ch "}") escaped))
        ++ List.repeat (ch "]")
             (Z.to_nat (countChar (ch "[") escaped - countChar (ch "]") escaped)))
  /\
  (forall (pre p : jsstring) (elems : list json)
          (members : list (jsstring * json)) (key : jsstring),
      let text := pre ++ QUOTE :: p in
      stopsAtValue pre elems members key ->
      List.forallb plainUnit p = true ->
      lacks BACKSLASH pre = true ->
      includes (js "```") text = false ->
      trim text = text ->
      (countChar (ch "{") pre - countChar (ch "}") pre = 1)%Z ->
      (countChar (ch "[") pre - countChar (ch "]") pre = 1)%Z ->
      cleanJSONResponse text = text ++ js "'}]" /\
      JSON_parse (cleanJSONResponse text)
      = Some (JArr (rev elems ++ [JObj (rev members ++ [(key, JStr p)])]))).
Proof.
  split; [exact cleanJSONResponse_repairs|].
  intros pre p elems members key text (ts & Hlex & Hpar) Hp Hpre Hfence Htrim
    Hbraces Hbrackets.
  destruct (plainUnit_facts p Hp)
    as (Hstr & Hback & Hq & Hcolon & Hlb & Hrb & Hlk & Hrk).
  (* step 1 leaves the text as it is *)
  assert (Hstrip : stripFences text = text).
  { rewrite (stripFences_no_fence text Hfence). exact Htrim. }
  (* the text does not parse: it ends inside a string *)
  assert (Hrun : lrun LIdle text = Some (LStr (rev p), ts)).
  { unfold text. rewrite lrun_app, Hlex.
    change (lrun LIdle (QUOTE :: p)) with
      (match lrun (LStr []) p with
       | Some (st'', r) => Some (st'', [] ++ r)
       | None => None
       end).
    rewrite (lrun_string p [] Hstr). simpl. now rewrite !app_nil_r. }
  assert (Hnone : JSON_parse text = None).
  { unfold JSON_parse. rewrite lex_lrun, Hrun. reflexivity. }
  (* step 2 leaves the text as it is *)
  assert (Hesc : escapeBackslashes text = text).
  { apply escapeBackslashes_none. unfold text.
    rewrite lacks_app, lacks_cons, Hpre, Hback. reflexivity. }
  assert (Hends : forall c, c <> QUOTE -> ~ In c p -> endsWith c text = false).
  { intros c Hc Hin. unfold text.
    rewrite endsWith_app by discriminate.
    destruct (endsWith c (QUOTE :: p)) eqn:E; [|reflexivity].
    apply endsWith_in in E. destruct E as [E|E]; [congruence|contradiction]. }
  pose proof (cleanJSONResponse_repairs text) as Hrep. cbv zeta in Hrep.
  rewrite Hstrip, Hesc in Hrep.
  specialize (Hrep Hnone (Hends (ch "]") ltac:(discriminate) Hrk)
                         (Hends (ch "}") ltac:(discriminate) Hrb)).
  (* the last quote opens the value, the last colon comes before it *)
  assert (Hlq : lastIndexOf QUOTE text = Z.of_nat (List.length pre)).
  { unfold text. now apply lastIndexOf_last. }
  assert (Hlc : (lastIndexOf (ch ":") text < Z.of_nat (List.length pre))%Z).
  { unfold text. rewrite lastIndexOf_app_absent.
    - apply lastIndexOf_bound.
    - intros [E|E]; [discriminate E|contradiction]. }
  assert (Hlt : (lastIndexOf (ch ":") text <? lastIndexOf QUOTE text)%Z = true).
  { apply Z.ltb_lt. lia. }
  rewrite Hlt in Hrep.
  (* one brace and one bracket are open *)
  assert (Hcount : forall c, c <> QUOTE -> ~ In c p ->
             countChar c text = countChar c pre).
  { intros c Hc Hin. unfold text. rewrite countChar_app.
    rewrite (countChar_absent c (QUOTE :: p)); [lia|].
    intros [E|E]; [congruence|contradiction]. }
  rewrite (Hcount (ch "{") ltac:(discriminate) Hlb),
          (Hcount (ch "}") ltac:(discriminate) Hrb),
          (Hcount (ch "[") ltac:(discriminate) Hlk),
          (Hcount (ch "]") ltac:(discriminate) Hrk),
          Hbraces, Hbrackets in Hrep.
  assert (Hclean : cleanJSONResponse text = text ++ js "'}]").
  { rewrite Hrep. rewrite <- app_assoc. reflexivity. }
  split; [exact Hclean|].
  (* the repaired text parses *)
  rewrite Hclean. unfold JSON_parse. rewrite lex_lrun, lrun_app, Hrun.
  change (js "'}]") with [QUOTE; ch "}"; ch "]"].
  simpl. rewrite rev_involutive, app_nil_r.
  rewrite prun_app, Hpar. reflexivity.
Qed.

(** A text cut inside the value of the second record, after one complete
    record. *)
Lemma truncated_text_repair_witness :
  JSON_parse (stripFences (js "[{'q':'a'}, {'q':'b c")) = None /\
  stopsAtValue (js "[{'q':'a'}, {'q':")
    [JObj [(js "q", JStr (js "a"))]] [] (js "q") /\
  cleanJSONResponse (js "[{'q':'a'}, {'q':'b c")
  = js "[{'q':'a'}, {'q':'b c'}]" /\
  JSON_parse (cleanJSONResponse (js "[{'q':'a'}, {'q':'b c"))
  = Some (JArr [JObj [(js "q", JStr (js "a"))];
                JObj [(js "q", JStr (js "b c"))]]).
Proof.
  assert (Hstop : stopsAtValue (js "[{'q':'a'}, {'q':")
                    [JObj [(js "q", JStr (js "a"))]] [] (js "q")).
  { eexists. split; reflexivity. }
  split; [reflexivity|]. split; [exact Hstop|].
  destruct truncated_text_repair as (Hfirst & Hsecond).
  pose proof (Hfirst (js "[{'q':'a'}, {'q':'b c") eq_refl eq_refl eq_refl)
    as H1.
  destruct (Hsecond (js "[{'q':'a'}, {'q':") (js "b c")
              [JObj [(js "q", JStr (js "a"))]] [] (js "q")
              Hstop eq_refl eq_refl eq_refl eq_refl eq_refl eq_refl)
    as (H2 & H3).
  split; [exact H2|exact H3].
Defined.

(** C5 as stated fails: these texts are cut in the array after one
    complete record, and their repair does not parse.  Cut after a colon,
    no quote is added and the member has no value; cut after a comma, a
    quote is added where none is open; cut after the record, the text ends
    with a brace and is not repaired at all; cut in a value that holds a
    colon, the value is not closed. *)
Lemma truncated_text_not_repaired :
  (cleanJSONResponse (js "[{'a':'b'},{'c':") = js "[{'a':'b'},{'c':}]" /\
   JSON_parse (cleanJSONResponse (js "[{'a':'b'},{'c':")) = None) /\
  (cleanJSONResponse (js "[{'a':'b'},") = js "[{'a':'b'},']" /\
   JSON_parse (cleanJSONResponse (js "[{'a':'b'},")) = None) /\
  (cleanJSONResponse (js "[{'a':'b'}") = js "[{'a':'b'}" /\
   JSON_parse (cleanJSONResponse (js "[{'a':'b'}")) = None) /\
  (cleanJSONResponse (js "[{'a':'b'},{'c':'at 3:0")
   = js "[{'a':'b'},{'c':'at 3:0}]" /\
   JSON_parse (cleanJSONResponse (js "[{'a':'b'},{'c':'at 3:0")) = None).
Proof. repeat split; reflexivity. Qed.

End Sanitizer.

(* ===================================================================== *)
(** * Field normalization: [normalizeOptions] and [normalizeMCQ]          *)
(* ===================================================================== *)

Module Normalizer.

Import JSON.

(** The errors the engine itself raises.  Their message is the wording of
    the engine and is not modelled. *)
Inductive engine_error : Type :=
| NotAFunction (expr : jsstring)    (* TypeError: [expr] is not a function *)
| NullReceiver (expr : jsstring)    (* TypeError: property read on null *)
| JSONSyntax.                       (* the SyntaxError of [JSON.parse] *)

(** ** The values of the language the two functions meet

    A parsed value, or [undefined] ([None]). *)

(** Whether the double nearest to the literal is zero: the mantissa is 0,
    or the value is at most 2^-1075, half the least positive double. *)
Definition roundsToZero (n : jsnum) : bool :=
  (num_mant n =? 0)%N ||
  ((num_exp n <? 0)%Z &&
   (Z.of_N (num_mant n) * 2 ^ 1075 <=? 10 ^ (- num_exp n))%Z).

(** ToBoolean. *)
Definition truthy (v : json) : bool :=
  match v with
  | JNull => false
  | JBool b => b
  | JNum n => negb (roundsToZero n)
  | JStr s => match s with [] => false | _ :: _ => true end
  | JArr _ | JObj _ => true
  end.

Definition truthyOpt (v : option json) : bool :=
  match v with
  | Some x => truthy x
  | None => false
  end.

(** [a || b] *)
Definition or (a b : option json) : option json :=
  if truthyOpt a then a else b.

(** [a || d] where [d] is a string literal. *)
Definition orString (a : option json) (d : jsstring) : json :=
  match or a (Some (JStr d)) with
  | Some v => v
  | None => JStr d
  end.

(** The last member named [name]. *)
Fixpoint lookup (name : jsstring) (members : list (jsstring * json))
  : option json :=
  match members with
  | [] => None
  | (k, v) :: rest =>
      match lookup name rest with
      | Some x => Some x
      | None => if JSString.eqb k name then Some v else None
      end
  end.

(** [v.name] for the property names the code reads (A, a, correctAnswer,
    options, questions, ...): none of them is a property of a prototype,
    so the read is [undefined] on arrays and primitives. *)
Definition getProp (v : json) (name : jsstring) : option json :=
  match v with
  | JObj members => lookup name members
  | _ => None
  end.

(** [v[i]] on an array. *)
Definition getIndex (v : json) (i : nat) : option json :=
  match v with
  | JArr elems => nth_error elems i
  | _ => None
  end.

Definition isArray (v : json) : bool :=
  match v with
  | JArr _ => true
  | _ => false
  end.

(** [v && typeof v === 'object'] *)
Definition isObjectLike (v : json) : bool :=
  match v with
  | JArr _ | JObj _ => true
  | _ => false
  end.

Definition isDefined (v : option json) : bool :=
  match v with
  | Some _ => true
  | None => false
  end.

Section WithNumberFormat.

(** [Number.prototype.toString] on the double nearest to a literal.  The
    shortest decimal that reads back as a double is a matter of floating
    point; the function is a parameter of the model. *)
Variable Number_toString : jsnum -> jsstring.

(** [v.toString()].  An object parsed from JSON has no callable property
    of its own, so a member named toString hides [Object.prototype.toString]
    and the call throws; an array joins the strings of its elements, null
    giving the empty string. *)
Fixpoint toString (v : json) : result engine_error jsstring :=
  match v with
  | JNull => Err (NullReceiver (js "toString"))
  | JBool true => Ok (js "true")
  | JBool false => Ok (js "false")
  | JNum n => Ok (Number_toString n)
  | JStr s => Ok s
  | JArr elems =>
      (fix join (l : list json) : result engine_error jsstring :=
         match l with
         | [] => Ok []
         | x :: rest =>
             match (match x with JNull => Ok [] | _ => toString x end) with
             | Err e => Err e
             | Ok s =>
                 match rest with
                 | [] => Ok s
                 | _ :: _ =>
                     match join rest with
                     | Err e => Err e
                     | Ok r => Ok (s ++ ch "," :: r)
                     end
                 end
             end
         end) elems
  | JObj members =>
      match lookup (js "toString") members with
      | Some _ => Err (NotAFunction (js "toString"))
      | None => Ok (js "[object Object]")
      end
  end.

(** The canonical option set and record. *)
Record options4 := mkOptions {
  opt_A : json;
  opt_B : json;
  opt_C : json;
  opt_D : json
}.

Record canonical := mkMCQ {
  question : json;
  options : options4;
  correctAnswer : jsstring;
  explanation : json
}.

Definition emptyOptions : options4 :=
  mkOptions (JStr []) (JStr []) (JStr []) (JStr []).

Definition normalizeOptions (options : option json) : options4 :=
  match options with
  | None => emptyOptions
  | Some o =>
      if negb (truthy o) then emptyOptions
      else if isDefined (getProp o (js "A")) && isDefined (getProp o (js "B"))
      then mkOptions
             (orString (or (getProp o (js "A")) (getProp o (js "a"))) [])
             (orString (or (getProp o (js "B")) (getProp o (js "b"))) [])
             (orString (or (getProp o (js "C")) (getProp o (js "c"))) [])
             (orString (or (getProp o (js "D")) (getProp o (js "d"))) [])
      else if isArray o
      then mkOptions
             (orString (getIndex o 0) [])
             (orString (getIndex o 1) [])
             (orString (getIndex o 2) [])
             (orString (getIndex o 3) [])
      else if isDefined (getProp o (js "a")) || isDefined (getProp o (js "b"))
      then mkOptions
             (orString (getProp o (js "a")) [])
             (orString (getProp o (js "b")) [])
             (orString (getProp o (js "c")) [])
             (orString (getProp o (js "d")) [])
      else emptyOptions
  end.

(** The class [[A-DA-d]] of the answer pattern: the ranges A to D and A to
    d, that is the code units 65 to 100. *)
Definition inAnswerClass (c : char) : bool := ((65 <=? c) && (c <=? 100))%N.

(** [toUpperCase] on a unit of the Basic Latin block. *)
Definition toUpperCase (c : char) : char :=
  if ((97 <=? c) && (c <=? 122))%N then (c - 32)%N else c.

(** [answer.match(/^[A-DA-d]/) ? answer[0].toUpperCase() : 'A'] *)
Definition answerLetter (answer : jsstring) : jsstring :=
  match answer with
  | c :: _ => if inAnswerClass c then [toUpperCase c] else js "A"
  | [] => js "A"
  end.

Definition normalizeMCQ (mcq : json) : result engine_error (option canonical) :=
  if negb (isObjectLike mcq) then Ok None
  else
    let answerValue :=
      orString
        (or (or (or (or (or (getProp mcq (js "correctAnswer"))
                            (getProp mcq (js "correct_answer")))
                        (getProp mcq (js "answer")))
                    (getProp mcq (js "Answer")))
                (getProp mcq (js "correct_option")))
            (getProp mcq (js "selected_option")))
        (js "A") in
    match toString answerValue with
    | Err e => Err e
    | Ok str =>
        let answer := trim str in
        Ok (Some (mkMCQ
          (orString (or (or (getProp mcq (js "question"))
                            (getProp mcq (js "Question")))
                        (getProp mcq (js "text")))
                    (js "No question provided"))
          (normalizeOptions
             (or (or (getProp mcq (js "options")) (getProp mcq (js "Options")))
                 (getProp mcq (js "choices"))))
          (answerLetter answer)
          (orString (or (or (getProp mcq (js "explanation"))
                            (getProp mcq (js "Explanation")))
                        (getProp mcq (js "reasoning")))
                    [])))
    end.

(** The four labels. *)
Definition isLabel (s : jsstring) : bool :=
  JSString.eqb s (js "A") || JSString.eqb s (js "B")
  || JSString.eqb s (js "C") || JSString.eqb s (js "D").

(** Every result of [normalizeOptions] is one of the object literals of
    the function, with the four slots; a slot holds the value read when it
    is truthy and the empty string otherwise.  The three shapes of four
    options give the same record. *)
Lemma normalizeOptions_shapes (w x y z : json) :
  let slots := mkOptions (orString (Some w) []) (orString (Some x) [])
                         (orString (Some y) []) (orString (Some z) []) in
  normalizeOptions (Some (JArr [w; x; y; z])) = slots /\
  normalizeOptions
    (Some (JObj [(js "A", w); (js "B", x); (js "C", y); (js "D", z)])) = slots /\
  normalizeOptions
    (Some (JObj [(js "a", w); (js "b", x); (js "c", y); (js "d", z)])) = slots.
Proof.
  assert (E : forall v, orString (or (Some v) None) [] = orString (Some v) []).
  { intros v. unfold orString, or, truthyOpt.
    destruct (truthy v) eqn:T; simpl; rewrite ?T; reflexivity. }
  cbv zeta. split; [reflexivity|]. split.
  - rewrite <- !E. reflexivity.
  - reflexivity.
Qed.

(** What [answerLetter] returns is one unit between A (65) and the
    backquote (96): the class of the pattern runs from A to d, and only
    a to d are changed by [toUpperCase]. *)
Lemma answerLetter_range (answer : jsstring) :
  exists c, answerLetter answer = [c] /\ (65 <= c <= 96)%N.
Proof.
  unfold answerLetter. destruct answer as [|c rest].
  - exists 65%N. split; [reflexivity|lia].
  - destruct (inAnswerClass c) eqn:Hc.
    + exists (toUpperCase c). split; [reflexivity|].
      unfold inAnswerClass in Hc. apply andb_true_iff in Hc as [Hlo Hhi].
      apply N.leb_le in Hlo, Hhi. unfold toUpperCase.
      destruct (N.leb_spec 97 c); simpl.
      * destruct (N.leb_spec c 122); simpl; lia.
      * lia.
    + exists 65%N. split; [reflexivity|lia].
Qed.

(** The default: no unit, or a first unit outside the class. *)
Lemma answerLetter_default (answer : jsstring) :
  match answer with
  | [] => True
  | c :: _ => (c < 65 \/ 100 < c)%N
  end ->
  answerLetter answer = js "A".
Proof.
  destruct answer as [|c rest]; intros H; [reflexivity|].
  unfold answerLetter, inAnswerClass.
  destruct (N.leb_spec 65 c); simpl; [|reflexivity].
  destruct (N.leb_spec c 100); simpl; [lia|reflexivity].
Qed.

End WithNumberFormat.

(** C6, the code at the failing input.  The answer text starts with O,
    which the class of the pattern (A to D, then A to d instead of a to d)
    accepts: the record is accepted and its [correctAnswer] is O, not one
    of the four labels. *)
Theorem normalizeMCQ_answer_outside_labels :
  forall (Number_toString : jsnum -> jsstring),
  exists m r,
    JSON_parse
      (js "{'question':'Q','options':{'A':'1','B':'2','C':'3','D':'4'},'correctAnswer':'Option B'}")
    = Some m /\
    normalizeMCQ Number_toString m = Ok (Some r) /\
    options r = mkOptions (JStr (js "1")) (JStr (js "2"))
                          (JStr (js "3")) (JStr (js "4")) /\
    correctAnswer r = js "O" /\
    isLabel (correctAnswer r) = false.
Proof.
  intros Number_toString.
  eexists. eexists. split; [reflexivity|].
  split; [reflexivity|]. repeat split.
Qed.

End Normalizer.

(* ===================================================================== *)
(** * The service: the result cache, [generateMCQs] and [solveMCQs]       *)
(* ===================================================================== *)

Module Service.

Import JSON Sanitizer Normalizer Scheduler.

(** ** [resultCache], a [Map]

    A [Map] iterates its entries in the order of their first insertion;
    it is modelled as the list of its entries in that order, keys
    distinct. *)
Definition cache := list (jsstring * list json).

Definition CACHE_LIMIT : nat := 500.

(** [resultCache.get(key)], [undefined] ([None]) when absent. *)
Fixpoint Map_get (key : jsstring) (c : cache) : option (list json) :=
  match c with
  | [] => None
  | (k, v) :: rest => if JSString.eqb k key then Some v else Map_get key rest
  end.

(** [resultCache.has(key)] *)
Definition Map_has (key : jsstring) (c : cache) : bool :=
  match Map_get key c with
  | Some _ => true
  | None => false
  end.

(** [resultCache.size] *)
Definition Map_size (c : cache) : nat := List.length c.

(** [resultCache.keys().next().value] *)
Definition Map_firstKey (c : cache) : option jsstring :=
  match c with
  | [] => None
  | (k, _) :: _ => Some k
  end.

(** [resultCache.delete(key)] *)
Fixpoint Map_delete (key : jsstring) (c : cache) : cache :=
  match c with
  | [] => []
  | (k, v) :: rest =>
      if JSString.eqb k key then rest else (k, v) :: Map_delete key rest
  end.

(** [resultCache.set(key, value)]: the value of an existing key is
    replaced in place, a new key goes last. *)
Fixpoint Map_set (key : jsstring) (value : list json) (c : cache) : cache :=
  match c with
  | [] => [(key, value)]
  | (k, v) :: rest =>
      if JSString.eqb k key then (k, value) :: rest
      else (k, v) :: Map_set key value rest
  end.

(** The block under the comment Save to cache. *)
Definition saveToCache (cacheKey : option jsstring) (validMcqs : list json)
    (c : cache) : cache :=
  match cacheKey with
  | Some key =>
      if 0 <? List.length validMcqs
      then
        let c1 :=
          if CACHE_LIMIT <=? Map_size c
          then match Map_firstKey c with
               | Some firstKey => Map_delete firstKey c
               | None => c
               end
          else c in
        Map_set key validMcqs c1
      else c
  | None => c
  end.

(** ** Errors

    [error.message] of a thrown error: [msg_text], followed by the wording
    of the engine for [msg_engine] when the error comes from the engine. *)
Record thrown := mkThrown {
  msg_text : jsstring;
  msg_engine : option engine_error
}.

Definition Error (message : jsstring) : thrown := mkThrown message None.

Definition fromEngine (e : engine_error) : thrown := mkThrown [] (Some e).

(** [new Error(`prefix${error.message}`)] *)
Definition wrap (prefix : jsstring) (error : thrown) : thrown :=
  mkThrown (prefix ++ msg_text error) (msg_engine error).

(** The uploaded file, as far as the two functions look at it: whether its
    type is the presentation type, and what [extractTextFromPPT] resolves
    to ([None] when the extractor fails). *)
Record upload := mkUpload {
  isPresentation : bool;
  extractedText : option jsstring
}.

(** What the provider does when asked: how [generateWithFallback] ends and,
    when it returns, how [response.text()] ends. *)
Definition provider := result jsstring (result jsstring jsstring).

(** The steps shared by the two functions up to the raw text: the
    extraction for a presentation, the call, [response.text()]. *)
Definition rawText (file : option upload) (p : provider)
  : result thrown jsstring :=
  match
    (match file with
     | Some f =>
         if isPresentation f
         then match extractedText f with
              | Some _ => Ok tt
              | None => Err (Error (js "Failed to extract text from PPT file"))
              end
         else Ok tt
     | None => Ok tt
     end)
  with
  | Err e => Err e
  | Ok _ =>
      match p with
      | Err message => Err (Error message)
      | Ok (Err message) => Err (Error message)
      | Ok (Ok text) => Ok text
      end
  end.

(** The decimal form of an integer, for the counts in the cache key. *)
Definition decimal (z : Z) : jsstring :=
  js (DecimalString.NilZero.string_of_int (Z.to_int z)).

Definition booleanString (b : bool) : jsstring :=
  if b then js "true" else js "false".

Section WithRuntime.

(** [crypto.createHash('sha256').update(s).digest('hex')] *)
Variable sha256hex : jsstring -> jsstring.

Variable Number_toString : jsnum -> jsstring.

(** [cacheKey], as far as the code tells its values apart: it is only
    tested for truth and used under that test, so [null] and an empty
    digest are both [None]. *)
Definition cacheKeyOf (studyMaterial : jsstring) (difficultyCounts : batch)
    (includeExplanation : bool) (file : option upload) : option jsstring :=
  match file with
  | None =>
      match sha256hex
              (studyMaterial ++ js "|" ++ decimal (easyCount difficultyCounts)
               ++ js "|" ++ decimal (mediumCount difficultyCounts)
               ++ js "|" ++ decimal (hardCount difficultyCounts)
               ++ js "|" ++ booleanString includeExplanation) with
      | [] => None
      | c :: digest => Some (c :: digest)
      end
  | Some _ => None
  end.

(** The body of the [try] of [generateMCQs] after the cache check. *)
Definition generateFresh (cacheKey : option jsstring) (file : option upload)
    (p : provider) (c : cache) : result thrown (list json) * cache :=
  match rawText file p with
  | Err e => (Err e, c)
  | Ok text =>
      let text := cleanJSONResponse text in
      match JSON_parse text with
      | None => (Err (fromEngine JSONSyntax), c)
      | Some (JArr mcqs) =>
          let validMcqs := List.filter isObjectLike mcqs in
          if (List.length validMcqs =? 0) && (0 <? List.length mcqs)
          then (Err (Error (js "All generated MCQs were malformed. Please try again or refine your material.")), c)
          else (Ok validMcqs, saveToCache cacheKey validMcqs c)
      | Some JNull => (Err (fromEngine (NullReceiver (js "filter"))), c)
      | Some _ => (Err (fromEngine (NotAFunction (js "mcqs.filter"))), c)
      end
  end.

Definition generateMCQs (p : provider) (studyMaterial : jsstring)
    (difficultyCounts : batch) (includeExplanation : bool)
    (file : option upload) (c : cache) : result thrown (list json) * cache :=
  let cacheKey :=
    cacheKeyOf studyMaterial difficultyCounts includeExplanation file in
  match
    (match cacheKey with
     | Some key => if Map_has key c then Map_get key c else None
     | None => None
     end)
  with
  | Some cached => (Ok cached, c)
  | None =>
      match generateFresh cacheKey file p c with
      | (Err error, c') => (Err (wrap (js "Failed to generate MCQs: ") error), c')
      | (Ok validMcqs, c') => (Ok validMcqs, c')
      end
  end.

(** The wrapper keys probed by [solveMCQs], in order. *)
Definition possibleArrays : list jsstring :=
  [js "mcqs"; js "questions"; js "answers"; js "results"].

(** The loop [for (const key of possibleArrays)] on an object. *)
Fixpoint probe (keys : list jsstring) (mcqs : json) : json :=
  match keys with
  | [] => mcqs
  | key :: rest =>
      match getProp mcqs key with
      | Some (JArr elems) => JArr elems
      | _ => probe rest mcqs
      end
  end.

(** [mcqs.map(normalizeMCQ).filter(mcq => mcq !== null)] *)
Fixpoint normalizeAll (mcqs : list json) : result engine_error (list canonical) :=
  match mcqs with
  | [] => Ok []
  | mcq :: rest =>
      match normalizeMCQ Number_toString mcq with
      | Err e => Err e
      | Ok normalized =>
          match normalizeAll rest with
          | Err e => Err e
          | Ok others =>
              match normalized with
              | Some m => Ok (m :: others)
              | None => Ok others
              end
          end
      end
  end.

(** The body of the [try] of [solveMCQs]. *)
Definition solveBody (file : option upload) (p : provider)
  : result thrown (list canonical) :=
  match rawText file p with
  | Err e => Err e
  | Ok text =>
      let text := cleanJSONResponse text in
      match JSON_parse text with
      | None => Err (Error (js "Failed to parse AI response as JSON. The AI may have returned an invalid format."))
      | Some mcqs =>
          let mcqs :=
            if isArray mcqs then mcqs
            else if isObjectLike mcqs then probe possibleArrays mcqs
            else mcqs in
          match mcqs with
          | JArr elems =>
              match normalizeAll elems with
              | Err e => Err (fromEngine e)
              | Ok validMcqs =>
                  if List.length validMcqs =? 0
                  then Err (Error (js "No valid MCQs could be extracted from the AI response"))
                  else Ok validMcqs
              end
          | _ => Err (Error (js "Invalid response format: expected array of MCQs"))
          end
      end
  end.

Definition solveMCQs (p : provider) (file : option upload)
  : result thrown (list canonical) :=
  match solveBody file p with
  | Err error => Err (wrap (js "Failed to solve MCQs: ") error)
  | Ok validMcqs => Ok validMcqs
  end.

End WithRuntime.

(** ** The cache stays bounded and first-in first-out *)

Definition keysOf (c : cache) : list jsstring := List.map fst c.

(** At most [CACHE_LIMIT] entries, distinct keys, no empty result. *)
Definition cache_ok (c : cache) : Prop :=
  Map_size c <= CACHE_LIMIT /\
  NoDup (keysOf c) /\
  Forall (fun entry => snd entry <> []) c.

Lemma Map_get_none (key : jsstring) (c : cache) :
  Map_get key c = None <-> ~ In key (keysOf c).
Proof.
  induction c as [|[k v] rest IH]; simpl.
  - tauto.
  - destruct (JSString.eqb_spec k key) as [->|Hne].
    + split; [discriminate|]. intros H. exfalso. apply H. now left.
    + rewrite IH. split.
      * intros H [Hk|Hin]; [congruence|contradiction].
      * intros H Hin. apply H. now right.
Qed.

Lemma Map_set_new (key : jsstring) (value : list json) (c : cache) :
  ~ In key (keysOf c) -> Map_set key value c = c ++ [(key, value)].
Proof.
  induction c as [|[k v] rest IH]; simpl; intros Hn; [reflexivity|].
  destruct (JSString.eqb_spec k key) as [->|Hne].
  - exfalso. apply Hn. now left.
  - rewrite IH; [reflexivity|]. intros Hin. apply Hn. now right.
Qed.

Lemma Map_set_existing (key : jsstring) (value : list json) (c : cache) :
  In key (keysOf c) ->
  keysOf (Map_set key value c) = keysOf c /\
  (Forall (fun entry => snd entry <> []) c -> value <> [] ->
   Forall (fun entry => snd entry <> []) (Map_set key value c)).
Proof.
  induction c as [|[k v] rest IH]; simpl; intros Hin; [contradiction|].
  destruct (JSString.eqb_spec k key) as [->|Hne].
  - split; [reflexivity|]. intros Hall Hv.
    inversion Hall; subst. constructor; auto.
  - destruct Hin as [Hk|Hin]; [congruence|].
    destruct (IH Hin) as (Hkeys & Hvals).
    split; [simpl; now rewrite Hkeys|].
    intros Hall Hv. inversion Hall; subst. constructor; auto.
Qed.

Lemma Map_set_ok (key : jsstring) (value : list json) (c : cache) :
  value <> [] ->
  NoDup (keysOf c) ->
  Forall (fun entry => snd entry <> []) c ->
  NoDup (keysOf (Map_set key value c)) /\
  Forall (fun entry => snd entry <> []) (Map_set key value c) /\
  Map_size (Map_set key value c) <= S (Map_size c) /\
  (In key (keysOf c) -> Map_size (Map_set key value c) = Map_size c).
Proof.
  intros Hv Hnd Hall.
  destruct (in_dec (list_eq_dec N.eq_dec) key (keysOf c)) as [Hin|Hnin].
  - destruct (Map_set_existing key value c Hin) as (Hkeys & Hvals).
    assert (Hsize : Map_size (Map_set key value c) = Map_size c).
    { unfold Map_size.
      rewrite <- (length_map fst (Map_set key value c)).
      fold (keysOf (Map_set key value c)). rewrite Hkeys.
      unfold keysOf. now rewrite length_map. }
    rewrite Hkeys. repeat split; auto. lia.
  - rewrite (Map_set_new key value c Hnin).
    unfold keysOf, Map_size. rewrite map_app, length_app. simpl.
    repeat split.
    + apply NoDup_app; [exact Hnd|repeat constructor; auto|].
      intros x Hx [<-|[]]. contradiction.
    + apply Forall_app. split; [exact Hall|]. now repeat constructor.
    + lia.
    + intros Hin. contradiction.
Qed.

(** The oldest entry is the head of the list; deleting its key removes it
    and nothing else. *)
Lemma Map_delete_firstKey (k : jsstring) (v : list json) (rest : cache) :
  Map_firstKey ((k, v) :: rest) = Some k /\
  Map_delete k ((k, v) :: rest) = rest.
Proof.
  split; [reflexivity|]. simpl. now rewrite JSString.eqb_refl.
Qed.

(** The block that saves to the cache keeps the invariant, for any key and
    any cache: no interleaving of requests can break it, this block being
    the only place where the cache is written. *)
Lemma saveToCache_ok (cacheKey : option jsstring) (validMcqs : list json)
    (c : cache) :
  cache_ok c -> cache_ok (saveToCache cacheKey validMcqs c).
Proof.
  intros (Hsize & Hnd & Hall). unfold saveToCache.
  destruct cacheKey as [key|]; [|now repeat split].
  destruct validMcqs as [|m validMcqs]; [now repeat split|].
  cbn [List.length Nat.ltb Nat.leb].
  assert (Hv : m :: validMcqs <> []) by discriminate.
  destruct (Nat.leb_spec CACHE_LIMIT (Map_size c)) as [Hfull|Hroom].
  - destruct c as [|[k v] rest]; [unfold CACHE_LIMIT in Hfull; simpl in Hfull; lia|].
    destruct (Map_delete_firstKey k v rest) as (-> & ->).
    simpl in Hnd. inversion Hnd as [|? ? Hk Hnd']; subst.
    inversion Hall as [|? ? _ Hall']; subst.
    destruct (Map_set_ok key (m :: validMcqs) rest Hv Hnd' Hall')
      as (H1 & H2 & H3 & _).
    repeat split; auto. unfold Map_size in *. simpl in Hsize. lia.
  - destruct (Map_set_ok key (m :: validMcqs) c Hv Hnd Hall)
      as (H1 & H2 & H3 & _).
    repeat split; auto. lia.
Qed.

(** Saving a new key: the entry goes last, and when the cache is full the
    first entry, the oldest, is the one removed. *)
Lemma saveToCache_new (key : jsstring) (validMcqs : list json) (c : cache) :
  cache_ok c ->
  validMcqs <> [] ->
  Map_get key c = None ->
  saveToCache (Some key) validMcqs c =
  (if CACHE_LIMIT <=? Map_size c then List.tl c else c) ++ [(key, validMcqs)].
Proof.
  intros (Hsize & Hnd & Hall) Hv Hmiss. unfold saveToCache.
  destruct validMcqs as [|m validMcqs]; [congruence|].
  cbn [List.length Nat.ltb Nat.leb].
  apply Map_get_none in Hmiss.
  destruct (Nat.leb_spec CACHE_LIMIT (Map_size c)) as [Hfull|Hroom].
  - destruct c as [|[k v] rest]; [unfold CACHE_LIMIT in Hfull; simpl in Hfull; lia|].
    destruct (Map_delete_firstKey k v rest) as (-> & ->).
    apply Map_set_new. intros Hin. apply Hmiss. now right.
  - now apply Map_set_new.
Qed.

(** A boolean check of [cache_ok], for concrete caches. *)
Definition cache_okb (c : cache) : bool :=
  (Map_size c <=? CACHE_LIMIT) &&
  (fix distinct (l : list jsstring) : bool :=
     match l with
     | [] => true
     | k :: rest =>
         negb (List.existsb (JSString.eqb k) rest) && distinct rest
     end) (keysOf c) &&
  List.forallb (fun entry => match snd entry with [] => false | _ => true end) c.

Lemma cache_okb_ok (c : cache) : cache_okb c = true -> cache_ok c.
Proof.
  unfold cache_okb. intros H.
  apply andb_true_iff in H as [H Hvals].
  apply andb_true_iff in H as [Hsize Hkeys].
  split; [now apply Nat.leb_le|]. split.
  - induction (keysOf c) as [|k rest IH]; [constructor|].
    apply andb_true_iff in Hkeys as [Hk Hrest].
    constructor; auto.
    intros Hin. apply negb_true_iff in Hk.
    assert (List.existsb (JSString.eqb k) rest = true).
    { apply existsb_exists. exists k. split; [exact Hin|apply JSString.eqb_refl]. }
    congruence.
  - apply Forall_forall. intros entry Hin.
    rewrite forallb_forall in Hvals. specialize (Hvals entry Hin).
    destruct (snd entry); [discriminate|discriminate].
Qed.

(** ** What [generateMCQs] returns and stores *)

Lemma generateFresh_ok (cacheKey : option jsstring) (file : option upload)
    (p : provider) (c c' : cache) (validMcqs : list json) :
  generateFresh cacheKey file p c = (Ok validMcqs, c') ->
  exists text mcqs,
    rawText file p = Ok text /\
    JSON_parse (cleanJSONResponse text) = Some (JArr mcqs) /\
    validMcqs = List.filter isObjectLike mcqs /\
    c' = saveToCache cacheKey validMcqs c.
Proof.
  unfold generateFresh. intros H.
  destruct (rawText file p) as [text|e]; [|discriminate].
  destruct (JSON_parse (cleanJSONResponse text)) as [[| | | |mcqs|]|] eqn:Hp;
    try discriminate.
  destruct ((List.length (List.filter isObjectLike mcqs) =? 0)
            && (0 <? List.length mcqs)); [discriminate|].
  inversion H; subst. exists text, mcqs. auto.
Qed.

Lemma generateFresh_err (cacheKey : option jsstring) (file : option upload)
    (p : provider) (c c' : cache) (e : thrown) :
  generateFresh cacheKey file p c = (Err e, c') -> c' = c.
Proof.
  unfold generateFresh. intros H.
  destruct (rawText file p) as [text|e0]; [|now inversion H].
  destruct (JSON_parse (cleanJSONResponse text)) as [[| | | |mcqs|]|];
    try (now inversion H).
  destruct ((List.length (List.filter isObjectLike mcqs) =? 0)
            && (0 <? List.length mcqs)); now inversion H.
Qed.

Section GenerateFacts.

Variable sha256hex : jsstring -> jsstring.

(** A call is served from the cache, or runs the fresh path on a miss. *)
Lemma generateMCQs_cases (p : provider) (studyMaterial : jsstring)
    (difficultyCounts : batch) (includeExplanation : bool)
    (file : option upload) (c : cache) :
  let cacheKey :=
    cacheKeyOf sha256hex studyMaterial difficultyCounts includeExplanation file in
  let r := generateMCQs sha256hex p studyMaterial difficultyCounts
             includeExplanation file c in
  (exists key cached,
      cacheKey = Some key /\ Map_get key c = Some cached /\
      r = (Ok cached, c)) \/
  (match cacheKey with
   | Some key => Map_get key c = None
   | None => True
   end /\
   ((exists validMcqs c',
       generateFresh cacheKey file p c = (Ok validMcqs, c') /\
       r = (Ok validMcqs, c')) \/
    (exists e, generateFresh cacheKey file p c = (Err e, c) /\
       r = (Err (wrap (js "Failed to generate MCQs: ") e), c)))).
Proof.
  cbv zeta. unfold generateMCQs. cbv zeta.
  destruct (cacheKeyOf sha256hex studyMaterial difficultyCounts
              includeExplanation file) as [key|].
  - unfold Map_has. destruct (Map_get key c) as [cached|] eqn:Hget.
    + left. exists key, cached. auto.
    + right. split; [reflexivity|].
      destruct (generateFresh (Some key) file p c) as [[v|e] c'] eqn:Hf.
      * left. exists v, c'. auto.
      * right. exists e. rewrite (generateFresh_err _ _ _ _ _ _ Hf). auto.
  - right. split; [exact I|].
    destruct (generateFresh None file p c) as [[v|e] c'] eqn:Hf.
    + left. exists v, c'. auto.
    + right. exists e. rewrite (generateFresh_err _ _ _ _ _ _ Hf). auto.
Qed.

End GenerateFacts.

(** C8.  In every state with at most 500 entries, distinct keys and no
    empty result, a call of [generateMCQs] leaves such a state; a call that
    throws or is served from the cache leaves the cache as it was (reads
    do not reorder it), and so does a call that returns the empty list or
    comes with a file; a call that misses and returns a non-empty result
    stores it: the entry is appended last, and exactly the first entry is
    removed when the cache held 500 entries, nothing otherwise.  The block
    that writes the cache does the same whatever the key and the result,
    and keeps the bound. *)
Theorem cache_bounded_fifo :
  forall (sha256hex : jsstring -> jsstring) (p : provider)
         (studyMaterial : jsstring) (difficultyCounts : batch)
         (includeExplanation : bool) (file : option upload) (c : cache),
  cache_ok c ->
  let r := generateMCQs sha256hex p studyMaterial difficultyCounts
             includeExplanation file c in
  CACHE_LIMIT = 500 /\
  cache_ok (snd r) /\
  (forall e, fst r = Err e -> snd r = c) /\
  (forall key cached,
      cacheKeyOf sha256hex studyMaterial difficultyCounts includeExplanation
        file = Some key ->
      Map_get key c = Some cached -> r = (Ok cached, c)) /\
  (snd r = c \/
   exists key validMcqs,
     cacheKeyOf sha256hex studyMaterial difficultyCounts includeExplanation
       file = Some key /\
     fst r = Ok validMcqs /\ validMcqs <> [] /\
     Map_get key c = None /\
     snd r = (if CACHE_LIMIT <=? Map_size c then List.tl c else c)
             ++ [(key, validMcqs)]) /\
  (forall cacheKey validMcqs, cache_ok (saveToCache cacheKey validMcqs c)) /\
  (forall key validMcqs,
      cacheKeyOf sha256hex studyMaterial difficultyCounts includeExplanation
        file = Some key ->
      Map_get key c = None ->
      fst r = Ok validMcqs -> validMcqs <> [] ->
      snd r = (if CACHE_LIMIT <=? Map_size c then List.tl c else c)
              ++ [(key, validMcqs)]) /\
  (fst r = Ok [] -> snd r = c) /\
  (cacheKeyOf sha256hex studyMaterial difficultyCounts includeExplanation
     file = None -> snd r = c) /\
  (forall key validMcqs,
      validMcqs <> [] -> Map_get key c = None ->
      saveToCache (Some key) validMcqs c
      = (if CACHE_LIMIT <=? Map_size c then List.tl c else c)
        ++ [(key, validMcqs)]) /\
  (forall cacheKey, saveToCache cacheKey [] c = c) /\
  (forall validMcqs, saveToCache None validMcqs c = c).
Proof.
  intros sha256hex p studyMaterial difficultyCounts includeExplanation file c
    Hok r.
  pose proof (generateMCQs_cases sha256hex p studyMaterial difficultyCounts
                includeExplanation file c) as Hcases.
  cbv zeta in Hcases. fold r in Hcases.
  split; [reflexivity|].
  assert (Hsave : forall cacheKey validMcqs,
             cache_ok (saveToCache cacheKey validMcqs c))
    by (intros; now apply saveToCache_ok).
  assert (Hblock :
    (forall key validMcqs,
        validMcqs <> [] -> Map_get key c = None ->
        saveToCache (Some key) validMcqs c
        = (if CACHE_LIMIT <=? Map_size c then List.tl c else c)
          ++ [(key, validMcqs)]) /\
    (forall cacheKey, saveToCache cacheKey [] c = c) /\
    (forall validMcqs, saveToCache None validMcqs c = c)).
  { split; [|split].
    - intros key validMcqs Hne Hmiss. now apply saveToCache_new.
    - intros [key|]; reflexivity.
    - reflexivity. }
  destruct Hcases as [(key & cached & Hkey & Hget & Hr)
                     |(Hmiss & [(v & c' & Hf & Hr)|(e & Hf & Hr)])].
  - rewrite Hr. simpl.
    split; [exact Hok|]. split; [intros; reflexivity|].
    split; [intros key' cached' Hkey' Hget'; congruence|].
    split; [now left|]. split; [exact Hsave|].
    split; [intros key' v Hkey' Hmiss'; congruence|].
    split; [reflexivity|]. split; [reflexivity|exact Hblock].
  - destruct (generateFresh_ok _ _ _ _ _ _ Hf) as (text & mcqs & _ & _ & Hv & Hc').
    rewrite Hr. simpl. split; [rewrite Hc'; apply Hsave|].
    split; [discriminate|]. split.
    + intros key cached Hkey Hget. rewrite Hkey in Hmiss. congruence.
    + split; [|split; [exact Hsave|]].
      * destruct (cacheKeyOf sha256hex studyMaterial difficultyCounts
                    includeExplanation file) as [key|] eqn:Hkey.
        -- destruct v as [|m v'] eqn:Ev.
           ++ left. rewrite Hc'. reflexivity.
           ++ right. exists key, (m :: v'). repeat split; auto; try discriminate.
              rewrite Hc'. apply saveToCache_new; auto. discriminate.
        -- left. rewrite Hc'. reflexivity.
      * split; [|split; [|split; [|exact Hblock]]].
        -- intros key w Hkey Hmiss' Hw Hne.
           assert (Hw' : w = v) by congruence.
           rewrite Hc', Hkey, Hw'. apply saveToCache_new; congruence.
        -- intros Hw. assert (Hnil : v = []) by congruence.
           rewrite Hc', Hnil. apply (proj1 (proj2 Hblock)).
        -- intros Hkey. rewrite Hc', Hkey. reflexivity.
  - rewrite Hr. simpl.
    split; [exact Hok|]. split; [intros; reflexivity|].
    split; [intros key cached Hkey Hget; rewrite Hkey in Hmiss; congruence|].
    split; [now left|]. split; [exact Hsave|].
    split; [intros key v _ _ Hw; discriminate Hw|].
    split; [reflexivity|]. split; [reflexivity|exact Hblock].
Qed.

(** A full cache of 500 entries, keys 0 to 499; the call of the witness
    misses and stores one record: the entry of key 0 leaves, the new entry
    comes last. *)
Definition fullCache : cache :=
  List.map (fun i => (decimal (Z.of_nat i), [JObj []])) (List.seq 0 500).

Lemma cache_bounded_fifo_witness :
  let r := generateMCQs (fun s => s) (Ok (Ok (js "[{'question':'q'}]")))
             (js "material") (mkBatch 2 0 0) true None fullCache in
  cache_ok fullCache /\
  cache_ok (snd r) /\
  snd r = List.tl fullCache
          ++ [(js "material|2|0|0|true",
               [JObj [(js "question", JStr (js "q"))]])].
Proof.
  intros r.
  assert (Hok : cache_ok fullCache) by (apply cache_okb_ok; vm_compute; reflexivity).
  destruct (cache_bounded_fifo (fun s => s)
              (Ok (Ok (js "[{'question':'q'}]")))
              (js "material") (mkBatch 2 0 0) true None fullCache Hok)
    as (_ & Hbound & _ & _ & _ & _ & Hwrite & _).
  split; [exact Hok|]. split; [exact Hbound|].
  exact (Hwrite (js "material|2|0|0|true")
           [JObj [(js "question", JStr (js "q"))]]
           eq_refl ltac:(vm_compute; reflexivity)
           ltac:(vm_compute; reflexivity) ltac:(discriminate)).
Defined.

(** The 501st key on the full cache: key 0, the first inserted, is the one
    entry that leaves. *)
Example cache_evicts_first_key :
  let c' := snd (generateMCQs (fun s => s) (Ok (Ok (js "[{'question':'q'}]")))
                   (js "material") (mkBatch 2 0 0) true None fullCache) in
  c' = List.tl fullCache
       ++ [(js "material|2|0|0|true",
            [JObj [(js "question", JStr (js "q"))]])] /\
  Map_size c' = 500 /\
  Map_get (js "0") fullCache = Some [JObj []] /\
  Map_get (js "0") c' = None.
Proof. vm_compute. repeat split. Qed.

(** ** Wrapped arrays: the two paths *)

(** On the solving path a value that is not an array is probed for the
    wrapper keys, and the call fails with the format error when none of
    them holds an array. *)
Lemma probe_finds_array_or_keeps (keys : list jsstring) (mcqs : json) :
  isArray mcqs = false ->
  (isArray (probe keys mcqs) = true /\
   exists key elems, In key keys /\ getProp mcqs key = Some (JArr elems) /\
                     probe keys mcqs = JArr elems) \/
  (probe keys mcqs = mcqs /\
   forall key, In key keys -> forall elems, getProp mcqs key <> Some (JArr elems)).
Proof.
  intros Hna. induction keys as [|key rest IH]; simpl.
  - right. split; [reflexivity|]. intros key [].
  - destruct (getProp mcqs key) as [[| | | |elems|]|] eqn:Hk;
      try (destruct IH as [(Ha & k & el & Hin & Hg & Hp)|(Hp & Hnone)];
           [left; split; [exact Ha|]; exists k, el; auto
           |right; split; [exact Hp|];
            intros k [<-|Hin] el; [rewrite Hk; discriminate|now apply Hnone]]).
    left. split; [reflexivity|]. exists key, elems. auto.
Qed.

Lemma solveMCQs_rejects_unwrapped
    (Number_toString : jsnum -> jsstring) (p : provider)
    (file : option upload) (text : jsstring) (mcqs : json) :
  rawText file p = Ok text ->
  JSON_parse (cleanJSONResponse text) = Some mcqs ->
  isArray mcqs = false ->
  (forall key, In key possibleArrays ->
     forall elems, getProp mcqs key <> Some (JArr elems)) ->
  solveMCQs Number_toString p file =
  Err (Error (js "Failed to solve MCQs: Invalid response format: expected array of MCQs")).
Proof.
  intros Hraw Hparse Hna Hnone.
  unfold solveMCQs, solveBody. rewrite Hraw. cbv zeta. rewrite Hparse, Hna.
  assert (Hkeep : (if isObjectLike mcqs then probe possibleArrays mcqs else mcqs)
                  = mcqs).
  { destruct (isObjectLike mcqs); [|reflexivity].
    destruct (probe_finds_array_or_keeps possibleArrays mcqs Hna)
      as [(_ & key & elems & Hin & Hg & _)|(Hp & _)]; [|exact Hp].
    exfalso. exact (Hnone key Hin elems Hg). }
  rewrite Hkeep. destruct mcqs; try reflexivity. discriminate.
Qed.

(** On the generation path nothing is probed: a parsed value that is not
    an array makes [mcqs.filter] throw, and the call fails with the
    TypeError of the engine, wrapped. *)
Lemma generateMCQs_rejects_non_array
    (sha256hex : jsstring -> jsstring) (p : provider)
    (studyMaterial : jsstring) (difficultyCounts : batch)
    (includeExplanation : bool) (file : upload) (c : cache)
    (text : jsstring) (mcqs : json) :
  rawText (Some file) p = Ok text ->
  JSON_parse (cleanJSONResponse text) = Some mcqs ->
  isArray mcqs = false ->
  exists e,
    generateMCQs sha256hex p studyMaterial difficultyCounts includeExplanation
      (Some file) c
    = (Err (mkThrown (js "Failed to generate MCQs: ") (Some e)), c) /\
    (e = NullReceiver (js "filter") \/ e = NotAFunction (js "mcqs.filter")).
Proof.
  intros Hraw Hparse Hna.
  unfold generateMCQs, generateFresh. cbv zeta. simpl cacheKeyOf. cbv iota.
  rewrite Hraw, Hparse.
  destruct mcqs; try discriminate;
    eexists; (split; [reflexivity|]); auto.
Qed.

(** C7, the code at the failing input.  The provider returns the records
    wrapped under the key questions.  The solving path takes the array out
    of the wrapper and returns its record; the generation path does not
    look at the wrapper keys and fails, with the TypeError of
    [mcqs.filter] rather than a format error. *)
Theorem generateMCQs_does_not_probe_wrapper :
  forall (sha256hex : jsstring -> jsstring)
         (Number_toString : jsnum -> jsstring),
  let text :=
    js "{'questions':[{'question':'q','options':['1','2','3','4'],'answer':'B'}]}" in
  JSON_parse (cleanJSONResponse text)
  = Some (JObj [(js "questions",
                 JArr [JObj [(js "question", JStr (js "q"));
                             (js "options", JArr [JStr (js "1"); JStr (js "2");
                                                  JStr (js "3"); JStr (js "4")]);
                             (js "answer", JStr (js "B"))]])]) /\
  solveMCQs Number_toString (Ok (Ok text)) None
  = Ok [mkMCQ (JStr (js "q"))
              (mkOptions (JStr (js "1")) (JStr (js "2"))
                         (JStr (js "3")) (JStr (js "4")))
              (js "B") (JStr [])] /\
  generateMCQs sha256hex (Ok (Ok text)) (js "material") (mkBatch 1 0 0) true
    None []
  = (Err (mkThrown (js "Failed to generate MCQs: ")
                   (Some (NotAFunction (js "mcqs.filter")))), []).
Proof.
  intros sha256hex Number_toString text.
  split; [reflexivity|]. split; [reflexivity|].
  unfold generateMCQs, cacheKeyOf. cbv zeta.
  destruct (sha256hex _); reflexivity.
Qed.

(** ** The generation path does not normalize *)










Lemma solveMCQs_ok (Number_toString : jsnum -> jsstring) (p : provider)
    (file : option upload) (validMcqs : list canonical) :
  solveMCQs Number_toString p file = Ok validMcqs ->
  exists text parsed elems,
    rawText file p = Ok text /\
    JSON_parse (cleanJSONResponse text) = Some parsed /\
    (parsed = JArr elems \/
     (isArray parsed = false /\ probe possibleArrays parsed = JArr elems)) /\
    normalizeAll Number_toString elems = Ok validMcqs.
Proof.
  unfold solveMCQs, solveBody. intros H.
  destruct (rawText file p) as [text|e]; [|discriminate].
  cbv zeta in H.
  destruct (JSON_parse (cleanJSONResponse text)) as [parsed|] eqn:Hp;
    [|discriminate].
  exists text, parsed.
  destruct (isArray parsed) eqn:Ha.
  - destruct parsed as [| | | |elems|]; try discriminate.
    exists elems.
    destruct (normalizeAll Number_toString elems) as [v|e]; [|discriminate].
    destruct (List.length v =? 0); [discriminate|].
    inversion H; subst. auto.
  - destruct (isObjectLike parsed) eqn:Ho.
    + destruct (probe possibleArrays parsed) as [| | | |elems|] eqn:Hpr;
        try discriminate.
      exists elems.
      destruct (normalizeAll Number_toString elems) as [v|e]; [|discriminate].
      destruct (List.length v =? 0); [discriminate|].
      inversion H; subst. split; [reflexivity|]. split; [exact Hp|].
      split; [right; split; reflexivity|reflexivity].
    + destruct parsed; discriminate.
Qed.


(** The text of the witness and of the example below: a record with the
    synonym field names, two positional options and a free-form answer. *)
Definition synonymText : jsstring :=
  js "[{'Question':'Q','choices':['one','two'],'answer':'b) two'}, 7]".


(** The same text on the two paths: the generation path returns (and
    stores) the record as parsed, the solving path returns it in the
    canonical shape. *)
Example generate_raw_solve_normalized :
  forall (Number_toString : jsnum -> jsstring),
  generateMCQs (fun s => s) (Ok (Ok synonymText)) (js "material")
    (mkBatch 1 0 0) false None []
  = (Ok [JObj [(js "Question", JStr (js "Q"));
               (js "choices", JArr [JStr (js "one"); JStr (js "two")]);
               (js "answer", JStr (js "b) two"))]],
     [(js "material|1|0|0|false",
       [JObj [(js "Question", JStr (js "Q"));
              (js "choices", JArr [JStr (js "one"); JStr (js "two")]);
              (js "answer", JStr (js "b) two"))]])]) /\
  solveMCQs Number_toString (Ok (Ok synonymText)) None
  = Ok [mkMCQ (JStr (js "Q"))
              (mkOptions (JStr (js "one")) (JStr (js "two")) (JStr []) (JStr []))
              (js "B") (JStr [])].
Proof. intros Number_toString. split; reflexivity. Qed.

End Service.

(* ===================================================================== *)
(** * More on the fallback engine                                         *)
(* ===================================================================== *)

Module FallbackCost.

Import Fallback.

Section Cost.

Variable R : Type.
Variable outcomes : nat -> outcome R.

Lemma blocks_length (models : list jsstring) :
  forall ns,
  Forall (fun n => 1 <= n <= 3) ns ->
  List.length ns <= List.length models ->
  List.length ns <= List.length (blocks models ns) <= 3 * List.length ns.
Proof.
  induction models as [|m models IH]; intros [|n ns] Hall Hlen; simpl in *;
    try lia.
  inversion Hall as [|? ? Hn Hall']; subst.
  specialize (IH ns Hall' ltac:(lia)).
  unfold attemptsOf. rewrite length_app, length_map, length_seq. lia.
Qed.

Lemma blocks_calls (models : list jsstring) :
  forall ns,
  Forall (fun n => 1 <= n <= 3) ns ->
  Forall (fun call => In (fst call) models /\ 1 <= snd call <= 3)
    (blocks models ns).
Proof.
  induction models as [|m models IH]; intros [|n ns] Hall; simpl;
    try constructor.
  inversion Hall as [|? ? Hn Hall']; subst.
  apply Forall_app. split.
  - unfold attemptsOf. apply Forall_forall. intros [m' a] Hin.
    apply in_map_iff in Hin as (a0 & Heq & Hseq). inversion Heq; subst.
    apply in_seq in Hseq. simpl. split; [now left|lia].
  - eapply Forall_impl; [|apply IH; exact Hall'].
    intros call (Hin & Ha). split; [now right|exact Ha].
Qed.

(** When no failure is transient the inner loop makes one call. *)
Lemma attemptLoop_fatal (left attempt k : nat) :
  (forall j e, outcomes j = Failure e -> isTransient e = false) ->
  attemptLoop R outcomes (S left) attempt k =
  ([attempt],
   match outcomes k with
   | Success r => Returned R r
   | Failure e => Rethrown R e
   end).
Proof.
  intros Hfatal. simpl.
  destruct (outcomes k) as [r|e] eqn:Hk; [reflexivity|].
  now rewrite (Hfatal k e Hk).
Qed.

Lemma modelLoop_fatal (models : list jsstring) :
  (forall j e, outcomes j = Failure e -> isTransient e = false) ->
  forall lastError k,
  exists n,
    n <= List.length models /\
    fst (modelLoop R outcomes models lastError k)
    = List.map (fun m => (m, 1)) (List.firstn n models).
Proof.
  intros Hfatal. induction models as [|m models IH]; intros lastError k.
  - exists 0. split; [lia|reflexivity].
  - rewrite modelLoop_cons, (attemptLoop_fatal 2 1 k Hfatal).
    destruct (outcomes k) as [r|e].
    + exists 1. split; [simpl; lia|reflexivity].
    + destruct (IH (Some e) (k + List.length [1])) as (n & Hn & Ht).
      destruct (modelLoop R outcomes models (Some e) (k + List.length [1]))
        as [t res].
      exists (S n). split; [simpl; lia|]. simpl in *. now rewrite Ht.
Qed.

(** When every call fails with a transient error the inner loop makes its
    three calls and rethrows the third error. *)
Lemma attemptLoop_transient (k : nat) :
  (forall j, exists e, outcomes j = Failure e /\ isTransient e = true) ->
  exists e,
    outcomes (k + 2) = Failure e /\
    attemptLoop R outcomes 3 1 k = ([1; 2; 3], Rethrown R e).
Proof.
  intros Hall.
  destruct (Hall k) as (e0 & H0 & T0).
  destruct (Hall (S k)) as (e1 & H1 & T1).
  destruct (Hall (S (S k))) as (e2 & H2 & T2).
  exists e2. split; [now replace (k + 2) with (S (S k)) by lia|].
  simpl. rewrite H0, T0. simpl. rewrite H1, T1. simpl. rewrite H2, T2.
  reflexivity.
Qed.

Lemma modelLoop_transient (models : list jsstring) :
  (forall j, exists e, outcomes j = Failure e /\ isTransient e = true) ->
  forall lastError k,
  fst (modelLoop R outcomes models lastError k)
  = blocks models (List.repeat 3 (List.length models)) /\
  (models <> [] ->
   exists e,
     outcomes (k + 3 * List.length models - 1) = Failure e /\
     snd (modelLoop R outcomes models lastError k) = Err (allFailed (Some e))).
Proof.
  intros Hall. induction models as [|m models IH]; intros lastError k.
  - split; [reflexivity|]. intros H. congruence.
  - rewrite modelLoop_cons.
    destruct (attemptLoop_transient k Hall) as (e & He & ->).
    destruct (IH (Some e) (k + List.length [1; 2; 3])) as (Ht & Hres).
    destruct (modelLoop R outcomes models (Some e) (k + List.length [1; 2; 3]))
      as [t res] eqn:Hrun.
    simpl in Ht, Hres. cbn [fst snd]. split.
    + simpl. now rewrite Ht.
    + intros _. destruct models as [|m' models'].
      * simpl in Hrun. inversion Hrun; subst.
        exists e. split; [|reflexivity].
        simpl. now replace (k + 3 - 1) with (k + 2) by lia.
      * destruct (Hres ltac:(discriminate)) as (e' & He' & Hr).
        exists e'. split; [|exact Hr].
        simpl List.length in *.
        now replace (k + 3 * S (S (List.length models')) - 1)
          with (k + 3 + 3 * S (List.length models') - 1) by lia.
Qed.

End Cost.

(** X1.  One invocation makes at least one and at most 21 provider calls,
    each on a model of the list with an attempt number from 1 to 3; it
    throws only after at least seven calls. *)
Theorem generateWithFallback_call_bound :
  forall (R : Type) (outcomes : nat -> outcome R),
  let trace := fst (generateWithFallback R outcomes) in
  let res := snd (generateWithFallback R outcomes) in
  1 <= List.length trace <= 21 /\
  Forall (fun call => In (fst call) MODELS /\ 1 <= snd call <= 3) trace /\
  (forall msg, res = Err msg -> 7 <= List.length trace).
Proof.
  intros R outcomes trace res.
  destruct (generateWithFallback R outcomes) as [t r] eqn:Hrun.
  subst trace res. cbn [fst snd].
  destruct (modelLoop_spec R outcomes MODELS MODELS_NoDup _ _ _ _ Hrun)
    as (ns & Hlen & Hall & Ht & _ & Hres).
  pose proof (blocks_length MODELS ns Hall Hlen) as Hb.
  rewrite <- Ht in Hb. simpl in Hlen.
  split; [|split].
  - split; [|lia].
    destruct r as [r|msg].
    + destruct Hres as (n & Hn & _). lia.
    + destruct Hres as (Hfull & _). simpl in Hfull. lia.
  - rewrite Ht. exact (blocks_calls MODELS ns Hall).
  - intros msg ->. destruct Hres as (Hfull & _). simpl in Hfull. lia.
Qed.

(** X2.  When no failure is transient, no call is a retry: the calls are
    the first attempts on the first candidates of the list, one each, so
    at most seven. *)
Theorem fatal_errors_are_not_retried :
  forall (R : Type) (outcomes : nat -> outcome R),
  (forall j e, outcomes j = Failure e -> isTransient e = false) ->
  exists n,
    n <= 7 /\
    fst (generateWithFallback R outcomes)
    = List.map (fun m => (m, 1)) (List.firstn n MODELS).
Proof.
  intros R outcomes Hfatal.
  exact (modelLoop_fatal R outcomes MODELS Hfatal None 0).
Qed.

Lemma fatal_errors_witness :
  let outcomes := fun k : nat =>
    match k with
    | 0 | 1 => Failure (mkError (js "[400 Bad Request]") (Some 400%Z))
    | _ => @Success nat 5
    end in
  (forall j e, outcomes j = Failure e -> isTransient e = false) /\
  exists n,
    n <= 7 /\
    fst (generateWithFallback nat outcomes)
    = List.map (fun m => (m, 1)) (List.firstn n MODELS).
Proof.
  intros outcomes.
  assert (H : forall j e, outcomes j = Failure e -> isTransient e = false).
  { intros [|[|j]] e He; inversion He; reflexivity. }
  split; [exact H|].
  exact (fatal_errors_are_not_retried nat outcomes H).
Defined.

(** X3.  When every call fails with a transient error, every candidate is
    called three times, 21 calls in all, and the error thrown wraps the
    message of the 21st failure. *)
Theorem persistent_overload_costs_21_calls :
  forall (R : Type) (outcomes : nat -> outcome R),
  (forall j, exists e, outcomes j = Failure e /\ isTransient e = true) ->
  fst (generateWithFallback R outcomes) = blocks MODELS [3; 3; 3; 3; 3; 3; 3] /\
  List.length (fst (generateWithFallback R outcomes)) = 21 /\
  exists e,
    outcomes 20 = Failure e /\
    snd (generateWithFallback R outcomes)
    = Err (js "All models failed. Last error: " ++ message e).
Proof.
  intros R outcomes Hall.
  destruct (modelLoop_transient R outcomes MODELS Hall None 0) as (Ht & Hres).
  unfold generateWithFallback. rewrite Ht.
  split; [reflexivity|]. split; [reflexivity|].
  destruct (Hres ltac:(discriminate)) as (e & He & Hr).
  exists e. split; [exact He|exact Hr].
Qed.

Lemma persistent_overload_witness :
  (forall j : nat, exists e,
      (fun _ : nat => @Failure nat (mkError (js "503 Service Unavailable") None)) j
      = Failure e /\ isTransient e = true) /\
  snd (generateWithFallback nat
         (fun _ => Failure (mkError (js "503 Service Unavailable") None)))
  = Err (js "All models failed. Last error: 503 Service Unavailable").
Proof.
  assert (H : forall j : nat, exists e,
             (fun _ : nat => @Failure nat (mkError (js "503 Service Unavailable") None)) j
             = Failure e /\ isTransient e = true).
  { intros j. eexists. split; reflexivity. }
  split; [exact H|].
  destruct (persistent_overload_costs_21_calls nat _ H) as (_ & _ & e & He & Hr).
  rewrite Hr. inversion He. reflexivity.
Defined.

End FallbackCost.

(* ===================================================================== *)
(** * More on the batches                                                 *)
(* ===================================================================== *)

Module SchedulerMore.

Import Fallback Scheduler.

(** Every iteration takes [BATCH_SIZE] items, or all that is left. *)
Lemma buildBatches_length (e m h : Z) :
  (0 <= e)%Z -> (0 <= m)%Z -> (0 <= h)%Z ->
  Z.of_nat (List.length (buildBatches e m h)) = ((e + m + h + 1) / 2)%Z.
Proof.
  funelim (buildBatches e m h); intros He Hm Hh.
  - set (bE := Z.min remainingEasy BATCH_SIZE) in *.
    set (bM := Z.min remainingMedium (Z.max 0 (BATCH_SIZE - bE))) in *.
    set (bH := Z.min remainingHard (Z.max 0 (BATCH_SIZE - (bE + bM)))) in *.
    assert (HB : BATCH_SIZE = 2%Z) by reflexivity.
    assert (Hsome : (0 < remainingEasy \/ 0 < remainingMedium
                     \/ 0 < remainingHard)%Z).
    { match goal with
      | Hp : pending _ _ _ = true |- _ => pose proof Hp as Hq; clear - Hq
      end.
      revert Hq. unfold pending.
      destruct (Z.ltb_spec 0 remainingEasy); [lia|].
      destruct (Z.ltb_spec 0 remainingMedium); [lia|].
      destruct (Z.ltb_spec 0 remainingHard); [lia|discriminate]. }
    assert (Htake : (bE + bM + bH
                     = Z.min (remainingEasy + remainingMedium + remainingHard) 2)%Z)
      by (subst bE bM bH; lia).
    specialize (H ltac:(subst bE bM bH; lia) ltac:(subst bE bM bH; lia)
                  ltac:(subst bE bM bH; lia)).
    assert (Hpos : (0 <? bE + bM + bH)%Z = true) by (apply Z.ltb_lt; lia).
    rewrite Hpos. cbn [List.length]. rewrite Nat2Z.inj_succ, H.
    replace (remainingEasy - bE + (remainingMedium - bM) + (remainingHard - bH) + 1)%Z
      with ((remainingEasy + remainingMedium + remainingHard + 1)
            - Z.min (remainingEasy + remainingMedium + remainingHard) 2)%Z by lia.
    destruct (Z.le_gt_cases 2 (remainingEasy + remainingMedium + remainingHard)).
    + rewrite Z.min_r by lia.
      replace (remainingEasy + remainingMedium + remainingHard + 1)%Z
        with ((remainingEasy + remainingMedium + remainingHard + 1 - 2) + 1 * 2)%Z
        at 2 by lia.
      rewrite Z.div_add by lia. lia.
    + assert (Hone : (remainingEasy + remainingMedium + remainingHard = 1)%Z) by lia.
      rewrite Hone. reflexivity.
  - assert (Hnone : (remainingEasy <= 0 /\ remainingMedium <= 0
                     /\ remainingHard <= 0)%Z).
    { match goal with
      | Hp : pending _ _ _ = false |- _ => pose proof Hp as Hq; clear - Hq
      end.
      revert Hq. unfold pending.
      destruct (Z.ltb_spec 0 remainingEasy); [discriminate|].
      destruct (Z.ltb_spec 0 remainingMedium); [discriminate|].
      destruct (Z.ltb_spec 0 remainingHard); [discriminate|lia]. }
    assert (Hzero : (remainingEasy + remainingMedium + remainingHard = 0)%Z) by lia.
    rewrite Hzero. reflexivity.
Qed.

(** X4.  For counts that are not negative, the batches keep the total of
    every tier, each batch holds one or two items, none negative, and a
    batch takes from the medium tier only when the easy tier left room. *)
Theorem batches_share_out_the_counts :
  forall e m h : Z,
  (0 <= e)%Z -> (0 <= m)%Z -> (0 <= h)%Z ->
  sumBy easyCount (buildBatches e m h) = e /\
  sumBy mediumCount (buildBatches e m h) = m /\
  sumBy hardCount (buildBatches e m h) = h /\
  Forall (fun b => (0 <= easyCount b /\ 0 <= mediumCount b /\ 0 <= hardCount b /\
                    0 < easyCount b + mediumCount b + hardCount b <= BATCH_SIZE)%Z /\
                   ((0 < mediumCount b)%Z -> (easyCount b < BATCH_SIZE)%Z))
    (buildBatches e m h).
Proof. exact buildBatches_total. Qed.

Lemma batches_share_out_witness :
  (0 <= 5)%Z /\ sumBy easyCount (buildBatches 5 2 4) = 5%Z /\
  sumBy hardCount (buildBatches 5 2 4) = 4%Z.
Proof.
  destruct (batches_share_out_the_counts 5 2 4 ltac:(lia) ltac:(lia) ltac:(lia))
    as (He & _ & Hh & _).
  split; [lia|]. split; [exact He|exact Hh].
Defined.

(** X5.  For counts that are not negative the handler calls
    [generateMCQs] once per pair of requested items, rounded up, whatever
    the calls do: the number of calls is the total plus one, halved. *)
Theorem handler_calls_half_the_total :
  forall (Mcq E St : Type)
         (generateMCQs : batch -> St -> result E (list Mcq) * St)
         (validatedData : validated) (st : St),
  (0 <= v_easyCount validatedData)%Z ->
  (0 <= v_mediumCount validatedData)%Z ->
  (0 <= v_hardCount validatedData)%Z ->
  Z.of_nat (List.length (called (fst (handler generateMCQs validatedData st))))
  = ((v_easyCount validatedData + v_mediumCount validatedData
      + v_hardCount validatedData + 1) / 2)%Z.
Proof.
  intros Mcq E St generateMCQs validatedData st He Hm Hh.
  destruct (handler_written Mcq E St generateMCQs validatedData st)
    as (Hc & _ & _).
  rewrite <- (length_map fst), Hc.
  now apply buildBatches_length.
Qed.

Lemma handler_calls_witness :
  (0 <= 3)%Z /\
  List.length
    (called (fst (handler (fun (_ : batch) (st : unit) => (@Err unit (list unit) tt, st))
                    (mkValidated 3 1 1) tt))) = 3.
Proof.
  split; [lia|].
  pose proof (handler_calls_half_the_total unit unit unit
                (fun _ st => (Err tt, st)) (mkValidated 3 1 1) tt
                ltac:(simpl; lia) ltac:(simpl; lia) ltac:(simpl; lia)) as H.
  simpl v_easyCount in H. simpl v_mediumCount in H. simpl v_hardCount in H.
  apply Nat2Z.inj. rewrite H. reflexivity.
Defined.

End SchedulerMore.

(* ===================================================================== *)
(** * More on the cache and on the two service functions                  *)
(* ===================================================================== *)

Module ServiceMore.

Import JSON Sanitizer Normalizer Fallback Scheduler Service.

Lemma Map_get_set_same (key : jsstring) (value : list json) (c : cache) :
  Map_get key (Map_set key value c) = Some value.
Proof.
  induction c as [|[k v] rest IH]; simpl.
  - now rewrite JSString.eqb_refl.
  - destruct (JSString.eqb k key) eqn:E; simpl; rewrite E; auto.
Qed.

Lemma Map_get_set_other (key other : jsstring) (value : list json) (c : cache) :
  other <> key ->
  Map_get other (Map_set key value c) = Map_get other c.
Proof.
  intros Hne. induction c as [|[k v] rest IH]; simpl.
  - destruct (JSString.eqb_spec key other); congruence.
  - destruct (JSString.eqb_spec k key) as [->|Hk]; simpl.
    + destruct (JSString.eqb_spec key other); congruence.
    + now rewrite IH.
Qed.

Section Facts.

Variable sha256hex : jsstring -> jsstring.

(** X6.  A request without attachment that returned records is served
    from the cache when it is repeated: the second call returns the same
    records whatever the provider would answer, and leaves the cache as it
    is. *)
Theorem repeated_request_hits_the_cache :
  forall (p p' : provider) (studyMaterial : jsstring)
         (difficultyCounts : batch) (includeExplanation : bool)
         (c c' : cache) (records : list json) (key : jsstring),
  cacheKeyOf sha256hex studyMaterial difficultyCounts includeExplanation None
  = Some key ->
  generateMCQs sha256hex p studyMaterial difficultyCounts includeExplanation
    None c = (Ok records, c') ->
  records <> [] ->
  generateMCQs sha256hex p' studyMaterial difficultyCounts includeExplanation
    None c' = (Ok records, c').
Proof.
  intros p p' studyMaterial difficultyCounts includeExplanation c c' records
    key Hkey Hrun Hne.
  assert (Hget : Map_get key c' = Some records).
  { pose proof (generateMCQs_cases sha256hex p studyMaterial difficultyCounts
                  includeExplanation None c) as Hcases.
    cbv zeta in Hcases. rewrite Hrun, Hkey in Hcases.
    destruct Hcases as [(k & cached & Hk & Hg & Hr)
                       |(Hmiss & [(v & c1 & Hf & Hr)|(e & Hf & Hr)])].
    - assert (k = key) by congruence. assert (cached = records) by congruence.
      assert (c' = c) by congruence. subst. exact Hg.
    - destruct (generateFresh_ok _ _ _ _ _ _ Hf) as (_ & _ & _ & _ & _ & Hc1).
      assert (v = records) by congruence. assert (c' = c1) by congruence.
      subst. unfold saveToCache.
      destruct records as [|m records]; [congruence|].
      cbn [List.length Nat.ltb Nat.leb]. apply Map_get_set_same.
    - discriminate Hr. }
  unfold generateMCQs. cbv zeta. rewrite Hkey. unfold Map_has.
  now rewrite Hget.
Qed.

(** X7.  A request with an attachment neither reads nor writes the cache:
    the cache is unchanged and the result is the same from any cache. *)
Theorem attachment_bypasses_the_cache :
  forall (p : provider) (studyMaterial : jsstring) (difficultyCounts : batch)
         (includeExplanation : bool) (file : upload) (c1 c2 : cache),
  snd (generateMCQs sha256hex p studyMaterial difficultyCounts
         includeExplanation (Some file) c1) = c1 /\
  fst (generateMCQs sha256hex p studyMaterial difficultyCounts
         includeExplanation (Some file) c1)
  = fst (generateMCQs sha256hex p studyMaterial difficultyCounts
           includeExplanation (Some file) c2).
Proof.
  intros p studyMaterial difficultyCounts includeExplanation file c1 c2.
  unfold generateMCQs, generateFresh. cbv zeta. simpl cacheKeyOf. cbv iota.
  destruct (rawText (Some file) p) as [text|e]; [|split; reflexivity].
  destruct (JSON_parse (cleanJSONResponse text)) as [[| | | |mcqs|]|];
    try (split; reflexivity).
  destruct ((List.length (List.filter isObjectLike mcqs) =? 0)
            && (0 <? List.length mcqs)); split; reflexivity.
Qed.

(** X8.  The two empty outcomes are told apart.  On a miss, when the parsed
    array has entries and none is an object the call throws the malformed
    error and stores nothing; when the parsed array is empty the call
    returns the empty list and stores nothing. *)
Theorem empty_and_malformed_results :
  forall (p : provider) (studyMaterial : jsstring) (difficultyCounts : batch)
         (includeExplanation : bool) (file : option upload) (c : cache)
         (text : jsstring) (mcqs : list json),
  match cacheKeyOf sha256hex studyMaterial difficultyCounts includeExplanation
          file with
  | Some key => Map_get key c = None
  | None => True
  end ->
  rawText file p = Ok text ->
  JSON_parse (cleanJSONResponse text) = Some (JArr mcqs) ->
  List.filter isObjectLike mcqs = [] ->
  generateMCQs sha256hex p studyMaterial difficultyCounts includeExplanation
    file c
  = match mcqs with
    | [] => (Ok [], c)
    | _ :: _ =>
        (Err (Error (js "Failed to generate MCQs: All generated MCQs were malformed. Please try again or refine your material.")),
         c)
    end.
Proof.
  intros p studyMaterial difficultyCounts includeExplanation file c text mcqs
    Hmiss Hraw Hparse Hnone.
  unfold generateMCQs, generateFresh. cbv zeta.
  assert (Hcheck :
    match cacheKeyOf sha256hex studyMaterial difficultyCounts
            includeExplanation file with
    | Some key => if Map_has key c then Map_get key c else None
    | None => None
    end = None).
  { destruct (cacheKeyOf sha256hex studyMaterial difficultyCounts
                includeExplanation file) as [key|]; [|reflexivity].
    unfold Map_has. now rewrite Hmiss. }
  rewrite Hcheck, Hraw, Hparse, Hnone.
  destruct mcqs as [|m mcqs]; [|reflexivity].
  cbn. unfold saveToCache.
  now destruct (cacheKeyOf sha256hex studyMaterial difficultyCounts
                  includeExplanation file).
Qed.

End Facts.

Lemma repeated_request_witness :
  generateMCQs (fun s => s) (Ok (Ok (js "[{'question':'q'}]"))) (js "material")
    (mkBatch 2 0 0) true None []
  = (Ok [JObj [(js "question", JStr (js "q"))]],
     [(js "material|2|0|0|true", [JObj [(js "question", JStr (js "q"))]])]) /\
  generateMCQs (fun s => s) (Err (js "unreachable")) (js "material")
    (mkBatch 2 0 0) true None
    [(js "material|2|0|0|true", [JObj [(js "question", JStr (js "q"))]])]
  = (Ok [JObj [(js "question", JStr (js "q"))]],
     [(js "material|2|0|0|true", [JObj [(js "question", JStr (js "q"))]])]).
Proof.
  split; [reflexivity|].
  exact (repeated_request_hits_the_cache (fun s => s)
           (Ok (Ok (js "[{'question':'q'}]"))) (Err (js "unreachable"))
           (js "material") (mkBatch 2 0 0) true [] _ _
           (js "material|2|0|0|true") eq_refl eq_refl ltac:(discriminate)).
Defined.

Lemma empty_and_malformed_witness :
  generateMCQs (fun s => s) (Ok (Ok (js "[1, null, 'x']"))) (js "material")
    (mkBatch 2 0 0) true None []
  = (Err (Error (js "Failed to generate MCQs: All generated MCQs were malformed. Please try again or refine your material.")),
     []).
Proof.
  exact (empty_and_malformed_results (fun s => s)
           (Ok (Ok (js "[1, null, 'x']"))) (js "material") (mkBatch 2 0 0) true
           None [] (js "[1, null, 'x']") _ eq_refl eq_refl eq_refl eq_refl).
Defined.

(** X9.  Lookups after a save.  The saved key maps to the saved records;
    any other key maps to what it mapped to, except the first key of a
    full cache, which is gone. *)
Theorem lookups_after_save :
  forall (key : jsstring) (validMcqs : list json) (c : cache),
  cache_ok c ->
  validMcqs <> [] ->
  Map_get key c = None ->
  let c' := saveToCache (Some key) validMcqs c in
  Map_get key c' = Some validMcqs /\
  (forall other,
      other <> key ->
      (Map_size c < CACHE_LIMIT \/ Map_firstKey c <> Some other) ->
      Map_get other c' = Map_get other c) /\
  (forall first,
      CACHE_LIMIT <= Map_size c -> Map_firstKey c = Some first ->
      Map_get first c' = None).
Proof.
  intros key validMcqs c Hok Hne Hmiss c'. subst c'.
  rewrite (saveToCache_new key validMcqs c Hok Hne Hmiss).
  destruct Hok as (Hsize & Hnd & Hall).
  assert (Hsnoc : forall (l : cache) other,
             Map_get other (l ++ [(key, validMcqs)]) =
             match Map_get other l with
             | Some v => Some v
             | None => if JSString.eqb key other then Some validMcqs else None
             end).
  { induction l as [|[k v] l IH]; intros other; simpl; [reflexivity|].
    destruct (JSString.eqb k other); auto. }
  assert (Htl : Map_get key (List.tl c) = None).
  { destruct c as [|[k v] rest]; simpl in *; [reflexivity|].
    destruct (JSString.eqb k key); [discriminate|exact Hmiss]. }
  split; [|split].
  - rewrite Hsnoc.
    destruct (CACHE_LIMIT <=? Map_size c); [rewrite Htl|rewrite Hmiss];
      now rewrite JSString.eqb_refl.
  - intros other Hother Hcase. rewrite Hsnoc.
    assert (Hk : JSString.eqb key other = false).
    { destruct (JSString.eqb_spec key other); congruence. }
    rewrite Hk.
    destruct (Nat.leb_spec CACHE_LIMIT (Map_size c)) as [Hfull|Hroom].
    + destruct Hcase as [Hlt|Hfirst]; [lia|].
      destruct c as [|[k v] rest]; simpl in *; [reflexivity|].
      destruct (JSString.eqb_spec k other) as [->|_]; [congruence|].
      now destruct (Map_get other rest).
    + now destruct (Map_get other c).
  - intros first Hfull Hfirst. rewrite Hsnoc.
    apply Nat.leb_le in Hfull. rewrite Hfull.
    destruct c as [|[k v] rest]; [discriminate|].
    simpl in Hfirst. inversion Hfirst; subst first. simpl.
    simpl in Hnd. inversion Hnd as [|? ? Hk _]; subst.
    assert (Hrest : Map_get k rest = None) by (apply Map_get_none; exact Hk).
    rewrite Hrest.
    simpl in Hmiss. destruct (JSString.eqb_spec k key) as [->|Hkk];
      [discriminate|].
    destruct (JSString.eqb_spec key k); congruence.
Qed.

Lemma lookups_after_save_witness :
  cache_ok fullCache /\
  Map_get (js "0") (saveToCache (Some (js "new")) [JNull] fullCache) = None /\
  Map_get (js "1") (saveToCache (Some (js "new")) [JNull] fullCache)
  = Some [JObj []].
Proof.
  assert (Hok : cache_ok fullCache) by (apply cache_okb_ok; vm_compute; reflexivity).
  split; [exact Hok|].
  destruct (lookups_after_save (js "new") [JNull] fullCache Hok
              ltac:(discriminate) eq_refl) as (_ & Hothers & Hfirst).
  split.
  - apply Hfirst; [vm_compute; repeat constructor|reflexivity].
  - rewrite Hothers; [reflexivity|discriminate|right; discriminate].
Defined.

End ServiceMore.

(* ===================================================================== *)
(** * More on the canonical record                                        *)
(* ===================================================================== *)

Module NormalizerMore.

Import JSON Sanitizer Normalizer Service.

(** What a slot filled with [value || ''] holds: the empty string, or a
    value that is truthy. *)
Definition slotOk (v : json) : Prop := v = JStr [] \/ truthy v = true.

Lemma orString_slot (a : option json) : slotOk (orString a []).
Proof.
  unfold slotOk, orString, or.
  destruct a as [v|]; simpl; [|now left].
  destruct (truthy v) eqn:T; [now right|now left].
Qed.

Lemma orString_truthy (a : option json) (d : jsstring) :
  d <> [] -> truthy (orString a d) = true.
Proof.
  intros Hd. unfold orString, or.
  destruct a as [v|]; simpl.
  - destruct (truthy v) eqn:T; [exact T|]. now destruct d.
  - now destruct d.
Qed.

Definition optionsOk (o : options4) : Prop :=
  slotOk (opt_A o) /\ slotOk (opt_B o) /\ slotOk (opt_C o) /\ slotOk (opt_D o).

Lemma normalizeOptions_ok (options : option json) :
  optionsOk (normalizeOptions options).
Proof.
  assert (Hempty : optionsOk emptyOptions) by (repeat split; now left).
  unfold normalizeOptions.
  destruct options as [o|]; [|exact Hempty].
  destruct (negb (truthy o)); [exact Hempty|].
  destruct (isDefined (getProp o (js "A")) && isDefined (getProp o (js "B")));
    [repeat split; apply orString_slot|].
  destruct (isArray o); [repeat split; apply orString_slot|].
  destruct (isDefined (getProp o (js "a")) || isDefined (getProp o (js "b")));
    [repeat split; apply orString_slot|exact Hempty].
Qed.

(** X10.  Every record [normalizeMCQ] accepts has a truthy question (the
    text read, or the placeholder), four option slots and an explanation
    that each hold the empty string or a truthy value (never null, false,
    zero), and a [correctAnswer] of one code unit between A (65) and the
    backquote (96). *)
Theorem normalizeMCQ_record_invariant :
  forall (Number_toString : jsnum -> jsstring) (mcq : json) (r : canonical),
  normalizeMCQ Number_toString mcq = Ok (Some r) ->
  truthy (question r) = true /\
  optionsOk (options r) /\
  slotOk (explanation r) /\
  exists c, correctAnswer r = [c] /\ (65 <= c <= 96)%N.
Proof.
  intros Number_toString mcq r H. unfold normalizeMCQ in H.
  destruct (negb (isObjectLike mcq)); [discriminate|].
  cbv zeta in H.
  destruct (toString Number_toString _) as [str|e]; [|discriminate].
  inversion H; subst; clear H. simpl.
  split; [apply orString_truthy; discriminate|].
  split; [apply normalizeOptions_ok|].
  split; [apply orString_slot|].
  apply answerLetter_range.
Qed.

Lemma normalizeMCQ_record_witness :
  normalizeMCQ (fun _ => [])
    (JObj [(js "question", JNull); (js "options", JArr [JBool false; JStr (js "x")]);
           (js "answer", JStr (js "c"))])
  = Ok (Some (mkMCQ (JStr (js "No question provided"))
                    (mkOptions (JStr []) (JStr (js "x")) (JStr []) (JStr []))
                    (js "C") (JStr []))) /\
  truthy (JStr (js "No question provided")) = true.
Proof.
  split; [reflexivity|].
  exact (proj1 (normalizeMCQ_record_invariant (fun _ => [])
                  (JObj [(js "question", JNull);
                         (js "options", JArr [JBool false; JStr (js "x")]);
                         (js "answer", JStr (js "c"))])
                  (mkMCQ (JStr (js "No question provided"))
                         (mkOptions (JStr []) (JStr (js "x")) (JStr []) (JStr []))
                         (js "C") (JStr []))
                  eq_refl)).
Defined.

Lemma normalizeMCQ_null_iff (Number_toString : jsnum -> jsstring) (mcq : json) :
  normalizeMCQ Number_toString mcq = Ok None <-> isObjectLike mcq = false.
Proof.
  unfold normalizeMCQ. destruct (isObjectLike mcq); simpl.
  - split; [|discriminate]. cbv zeta.
    destruct (toString Number_toString _); discriminate.
  - split; reflexivity.
Qed.

(** X11.  [normalizeMCQ] returns null exactly on the values that are not
    objects (null, booleans, numbers, strings); an array is an object for
    it, and comes out as the default record, whatever it holds. *)
Theorem normalizeMCQ_rejects_exactly_non_objects :
  forall (Number_toString : jsnum -> jsstring) (mcq : json),
  (normalizeMCQ Number_toString mcq = Ok None <-> isObjectLike mcq = false) /\
  (forall elems,
      normalizeMCQ Number_toString (JArr elems)
      = Ok (Some (mkMCQ (JStr (js "No question provided")) emptyOptions
                        (js "A") (JStr [])))).
Proof.
  intros Number_toString mcq. split.
  - apply normalizeMCQ_null_iff.
  - intros elems. reflexivity.
Qed.

(** X12.  The answer letter is one of the four labels exactly when the
    trimmed answer is empty or starts outside the range E to backquote
    (69 to 96): the letters a to d and A to D give their capital, anything
    below A or above d gives the default A, and the units in between come
    out as they are. *)
Theorem answerLetter_is_label_iff :
  forall answer : jsstring,
  isLabel (answerLetter answer)
  = match answer with
    | [] => true
    | c :: _ => negb ((69 <=? c) && (c <=? 96))%N
    end.
Proof.
  intros [|c rest]; [reflexivity|].
  unfold answerLetter, inAnswerClass, toUpperCase, isLabel.
  destruct (N.leb_spec 65 c); [|destruct (N.leb_spec 69 c); [lia|reflexivity]].
  destruct (N.leb_spec c 100);
    [|destruct (N.leb_spec c 96); [lia|];
      destruct (N.leb_spec 69 c); reflexivity].
  cbn [andb].
  destruct (N.leb_spec 97 c).
  - destruct (N.leb_spec c 122); [|lia]. cbn [andb].
    destruct (N.leb_spec c 96); [lia|]. rewrite andb_false_r. cbn [negb].
    assert (Hc : c = 97%N \/ c = 98%N \/ c = 99%N \/ c = 100%N) by lia.
    destruct Hc as [->|[->|[->| ->]]]; reflexivity.
  - cbn [andb].
    destruct (N.leb_spec 69 c); destruct (N.leb_spec c 96); try lia;
      cbn [andb negb].
    + change (js "A") with [65%N]. change (js "B") with [66%N].
      change (js "C") with [67%N]. change (js "D") with [68%N].
      cbn [JSString.eqb].
      repeat match goal with
             | |- context [N.eqb c ?k] =>
                 destruct (N.eqb_spec c k); [lia|]
             end.
      reflexivity.
    + assert (Hc : c = 65%N \/ c = 66%N \/ c = 67%N \/ c = 68%N) by lia.
      destruct Hc as [->|[->|[->| ->]]]; reflexivity.
Qed.

(** X13.  Options given as an array of four, under the keys A to D, or
    under the keys a to d come out as the same four slots. *)
Theorem normalizeOptions_three_shapes :
  forall w x y z : json,
  let slots := mkOptions (orString (Some w) []) (orString (Some x) [])
                         (orString (Some y) []) (orString (Some z) []) in
  normalizeOptions (Some (JArr [w; x; y; z])) = slots /\
  normalizeOptions
    (Some (JObj [(js "A", w); (js "B", x); (js "C", y); (js "D", z)])) = slots /\
  normalizeOptions
    (Some (JObj [(js "a", w); (js "b", x); (js "c", y); (js "d", z)])) = slots.
Proof. exact normalizeOptions_shapes. Qed.

(** X14.  An options object is read under the capital keys only when both
    A and B are present: an object without B and without a and b loses
    all its options, also those under A, C and D. *)
Theorem normalizeOptions_needs_A_and_B :
  forall members : list (jsstring * json),
  lookup (js "B") members = None ->
  lookup (js "a") members = None ->
  lookup (js "b") members = None ->
  normalizeOptions (Some (JObj members)) = emptyOptions.
Proof.
  intros members HB Ha Hb. unfold normalizeOptions.
  cbn [truthy negb getProp isArray]. rewrite HB, Ha, Hb.
  cbn [isDefined]. rewrite andb_false_r. reflexivity.
Qed.

Lemma normalizeOptions_needs_witness :
  lookup (js "B") [(js "A", JStr (js "one")); (js "C", JStr (js "three"))] = None /\
  normalizeOptions
    (Some (JObj [(js "A", JStr (js "one")); (js "C", JStr (js "three"))]))
  = emptyOptions.
Proof.
  split; [reflexivity|].
  exact (normalizeOptions_needs_A_and_B
           [(js "A", JStr (js "one")); (js "C", JStr (js "three"))]
           eq_refl eq_refl eq_refl).
Defined.

(** ** The solving path *)

Lemma normalizeAll_length (Number_toString : jsnum -> jsstring)
    (elems : list json) :
  forall validMcqs,
  normalizeAll Number_toString elems = Ok validMcqs ->
  List.length validMcqs = List.length (List.filter isObjectLike elems) /\
  Forall (fun r => exists mcq, In mcq elems /\
                     normalizeMCQ Number_toString mcq = Ok (Some r))
    validMcqs.
Proof.
  induction elems as [|mcq rest IH]; intros validMcqs H; simpl in H.
  - inversion H; subst. split; [reflexivity|constructor].
  - destruct (normalizeMCQ Number_toString mcq) as [normalized|e] eqn:Hn;
      [|discriminate].
    destruct (normalizeAll Number_toString rest) as [others|e]; [|discriminate].
    destruct (IH others eq_refl) as (Hlen & Hall).
    assert (Hall' : Forall (fun r => exists mcq0, In mcq0 (mcq :: rest) /\
                       normalizeMCQ Number_toString mcq0 = Ok (Some r)) others).
    { eapply Forall_impl; [|exact Hall].
      intros r (m & Hin & Hm). exists m. split; [now right|exact Hm]. }
    pose proof (normalizeMCQ_null_iff Number_toString mcq) as Hnull.
    destruct normalized as [m|]; inversion H; subst; simpl.
    + destruct (isObjectLike mcq) eqn:Ho.
      * split; [simpl; now rewrite Hlen|].
        constructor; [|exact Hall']. exists mcq. split; [now left|exact Hn].
      * pose proof (proj2 Hnull eq_refl). congruence.
    + apply (proj1 Hnull) in Hn. rewrite Hn. split; [exact Hlen|exact Hall'].
Qed.

(** The records are those of the objects of the list, one each, in
    order. *)
Lemma normalizeAll_records (Number_toString : jsnum -> jsstring)
    (elems : list json) :
  forall validMcqs,
  normalizeAll Number_toString elems = Ok validMcqs ->
  Forall2 (fun mcq r => normalizeMCQ Number_toString mcq = Ok (Some r))
    (List.filter isObjectLike elems) validMcqs.
Proof.
  induction elems as [|mcq rest IH]; intros validMcqs H; simpl in H.
  - inversion H; subst. constructor.
  - destruct (normalizeMCQ Number_toString mcq) as [normalized|e] eqn:Hn;
      [|discriminate].
    destruct (normalizeAll Number_toString rest) as [others|e]; [|discriminate].
    specialize (IH others eq_refl).
    pose proof (normalizeMCQ_null_iff Number_toString mcq) as Hnull.
    cbn [List.filter].
    destruct normalized as [m|]; inversion H; subst.
    + destruct (isObjectLike mcq) eqn:Ho.
      * constructor; [exact Hn|exact IH].
      * pose proof (proj2 Hnull eq_refl). congruence.
    + apply (proj1 Hnull) in Hn. rewrite Hn. exact IH.
Qed.

(** X15.  [solveMCQs] never returns an empty list.  When it returns, the
    text it got from the provider, once sanitized, parses to an array, or
    to a value that [probe] unwraps to an array; the records returned are
    those [normalizeMCQ] gives for the objects (and arrays) among the
    entries of that array, one record each, in order, and there is at
    least one. *)
Theorem solveMCQs_never_empty :
  forall (Number_toString : jsnum -> jsstring) (p : provider)
         (file : option upload) (validMcqs : list canonical),
  solveMCQs Number_toString p file = Ok validMcqs ->
  validMcqs <> [] /\
  exists text parsed elems,
    rawText file p = Ok text /\
    JSON_parse (cleanJSONResponse text) = Some parsed /\
    (parsed = JArr elems \/
     (isArray parsed = false /\ probe possibleArrays parsed = JArr elems)) /\
    Forall2 (fun mcq r => normalizeMCQ Number_toString mcq = Ok (Some r))
      (List.filter isObjectLike elems) validMcqs /\
    normalizeAll Number_toString elems = Ok validMcqs /\
    List.length validMcqs = List.length (List.filter isObjectLike elems).
Proof.
  intros Number_toString p file validMcqs H.
  destruct (solveMCQs_ok Number_toString p file validMcqs H)
    as (text & parsed & elems & Hraw & Hparse & Harr & Hn).
  split.
  - unfold solveMCQs, solveBody in H.
    destruct (rawText file p); [|discriminate]. cbv zeta in H.
    destruct (JSON_parse _) as [v|]; [|discriminate].
    destruct (if isArray v then v
              else if isObjectLike v then probe possibleArrays v else v);
      try discriminate.
    destruct (normalizeAll Number_toString elems0) as [w|]; [|discriminate].
    destruct w; [discriminate|]. inversion H. discriminate.
  - exists text, parsed, elems.
    split; [exact Hraw|]. split; [exact Hparse|]. split; [exact Harr|].
    split; [exact (normalizeAll_records Number_toString elems validMcqs Hn)|].
    split; [exact Hn|].
    exact (proj1 (normalizeAll_length Number_toString elems validMcqs Hn)).
Qed.

Lemma solveMCQs_never_empty_witness :
  solveMCQs (fun _ => []) (Ok (Ok synonymText)) None
  = Ok [mkMCQ (JStr (js "Q"))
              (mkOptions (JStr (js "one")) (JStr (js "two")) (JStr []) (JStr []))
              (js "B") (JStr [])] /\
  [mkMCQ (JStr (js "Q"))
         (mkOptions (JStr (js "one")) (JStr (js "two")) (JStr []) (JStr []))
         (js "B") (JStr [])] <> [].
Proof.
  split; [reflexivity|].
  exact (proj1 (solveMCQs_never_empty (fun _ => []) (Ok (Ok synonymText)) None
                  _ eq_refl)).
Defined.

(** The first wrapper key that holds an array. *)
Fixpoint firstArray (keys : list jsstring) (members : list (jsstring * json))
  : option (list json) :=
  match keys with
  | [] => None
  | key :: rest =>
      match lookup key members with
      | Some (JArr elems) => Some elems
      | _ => firstArray rest members
      end
  end.

Lemma probe_firstArray (keys : list jsstring) (members : list (jsstring * json)) :
  probe keys (JObj members) =
  match firstArray keys members with
  | Some elems => JArr elems
  | None => JObj members
  end.
Proof.
  induction keys as [|key rest IH]; simpl; [reflexivity|].
  destruct (lookup key members) as [[| | | |elems|]|]; auto.
Qed.

(** X16.  When the parsed value is an object, [solveMCQs] goes on with the
    array under the first of the keys mcqs, questions, answers, results
    that holds one, and throws the format error when none does; the same
    error is thrown for every other value that is not an array. *)
Theorem solveMCQs_unwraps_first_array :
  forall (Number_toString : jsnum -> jsstring) (p : provider)
         (file : option upload) (text : jsstring) (parsed : json),
  rawText file p = Ok text ->
  JSON_parse (cleanJSONResponse text) = Some parsed ->
  isArray parsed = false ->
  solveMCQs Number_toString p file =
  match (match parsed with
         | JObj members => firstArray possibleArrays members
         | _ => None
         end) with
  | Some elems =>
      match normalizeAll Number_toString elems with
      | Err e => Err (wrap (js "Failed to solve MCQs: ") (fromEngine e))
      | Ok [] =>
          Err (Error (js "Failed to solve MCQs: No valid MCQs could be extracted from the AI response"))
      | Ok (r :: rs) => Ok (r :: rs)
      end
  | None =>
      Err (Error (js "Failed to solve MCQs: Invalid response format: expected array of MCQs"))
  end.
Proof.
  intros Number_toString p file text parsed Hraw Hparse Hna.
  unfold solveMCQs, solveBody. rewrite Hraw. cbv zeta. rewrite Hparse, Hna.
  destruct parsed as [| b | n | s | elems | members]; try reflexivity;
    [discriminate|].
  cbn [isObjectLike]. rewrite probe_firstArray.
  destruct (firstArray possibleArrays members) as [elems|]; [|reflexivity].
  destruct (normalizeAll Number_toString elems) as [[|r rs]|e]; reflexivity.
Qed.

Lemma solveMCQs_unwraps_witness :
  solveMCQs (fun _ => [])
    (Ok (Ok (js "{'results':[{'question':'r'}],'questions':[{'question':'q'}],'mcqs':3}")))
    None
  = Ok [mkMCQ (JStr (js "q")) emptyOptions (js "A") (JStr [])].
Proof.
  rewrite (solveMCQs_unwraps_first_array (fun _ => [])
             (Ok (Ok (js "{'results':[{'question':'r'}],'questions':[{'question':'q'}],'mcqs':3}")))
             None _ _ eq_refl eq_refl eq_refl).
  reflexivity.
Defined.

End NormalizerMore.

(* ===================================================================== *)
(** * More on the sanitizer                                               *)
(* ===================================================================== *)

Module SanitizerMore.

Import JSON Sanitizer.

(** The shape of every result of the sanitizer. *)
Lemma cleanJSONResponse_shape :
  forall text : jsstring,
  let stripped := stripFences text in
  let base := match JSON_parse stripped with
              | Some _ => stripped
              | None => escapeBackslashes stripped
              end in
  exists (quote : jsstring) (braces brackets : nat),
    (quote = [] \/ quote = [QUOTE]) /\
    cleanJSONResponse text
    = base ++ quote ++ List.repeat (ch "}") braces
           ++ List.repeat (ch "]") brackets /\
    ((JSON_parse stripped <> None \/ endsWith (ch "]") base = true
      \/ endsWith (ch "}") base = true) ->
     quote = [] /\ braces = 0 /\ brackets = 0).
Proof.
  intros text stripped base.
  destruct (JSON_parse stripped) as [v|] eqn:Hparse.
  - exists [], 0, 0. split; [now left|]. split; [|auto].
    subst base. simpl. rewrite app_nil_r.
    exact (cleanJSONResponse_parses text v Hparse).
  - destruct (endsWith (ch "]") base) eqn:Hk;
      [|destruct (endsWith (ch "}") base) eqn:Hb].
    + exists [], 0, 0. split; [now left|]. split; [|auto].
      simpl. rewrite app_nil_r. destruct text as [|c text].
      * discriminate Hk.
      * unfold cleanJSONResponse. cbv zeta. fold stripped. rewrite Hparse.
        fold base. now rewrite Hk.
    + exists [], 0, 0. split; [now left|]. split; [|auto].
      simpl. rewrite app_nil_r. destruct text as [|c text].
      * discriminate Hb.
      * unfold cleanJSONResponse. cbv zeta. fold stripped. rewrite Hparse.
        fold base. rewrite Hk, Hb. reflexivity.
    + pose proof (cleanJSONResponse_repairs text Hparse Hk Hb) as Hrep.
      cbv zeta in Hrep. fold stripped in Hrep. fold base in Hrep.
      eexists _, _, _. split; [|split; [rewrite Hrep, <- app_assoc; reflexivity|]].
      * destruct (lastIndexOf (ch ":") base <? lastIndexOf QUOTE base)%Z; auto.
      * intros [H|[H|H]]; congruence.
Qed.

(** X17.  The sanitizer never drops or changes a unit of the text that
    step 1 leaves: its result is that text when it parses, and otherwise
    that text with backslashes doubled, followed by at most one quote,
    then closing braces, then closing brackets; nothing is appended when
    the text ends with a bracket or a brace. *)
Theorem cleanJSONResponse_only_appends :
  forall text : jsstring,
  let stripped := stripFences text in
  let base := match JSON_parse stripped with
              | Some _ => stripped
              | None => escapeBackslashes stripped
              end in
  exists (quote : jsstring) (braces brackets : nat),
    (quote = [] \/ quote = [QUOTE]) /\
    cleanJSONResponse text
    = base ++ quote ++ List.repeat (ch "}") braces
           ++ List.repeat (ch "]") brackets /\
    ((JSON_parse stripped <> None \/ endsWith (ch "]") base = true
      \/ endsWith (ch "}") base = true) ->
     quote = [] /\ braces = 0 /\ brackets = 0).
Proof. exact cleanJSONResponse_shape. Qed.

Lemma escapeBackslashes_filter (keep : char -> bool) (s : jsstring) :
  keep BACKSLASH = false ->
  List.filter keep (escapeBackslashes s) = List.filter keep s.
Proof.
  intros Hk. induction s as [|c s IH]; [reflexivity|].
  cbn [escapeBackslashes].
  destruct ((c =? BACKSLASH)%N && negb (lookahead s)) eqn:E.
  - apply andb_true_iff in E as [Ec _]. apply N.eqb_eq in Ec. subst c.
    cbn [List.filter]. now rewrite Hk.
  - cbn [List.filter]. now rewrite IH.
Qed.

(** X18.  Step 2 only inserts backslashes: the units other than the
    backslash come out unchanged and in order, every backslash is kept
    once or twice, and a text without backslash is left as it is. *)
Theorem escapeBackslashes_only_inserts :
  forall s : jsstring,
  List.filter (fun c => negb (c =? BACKSLASH)%N) (escapeBackslashes s)
  = List.filter (fun c => negb (c =? BACKSLASH)%N) s /\
  (countChar BACKSLASH s <= countChar BACKSLASH (escapeBackslashes s)
   <= 2 * countChar BACKSLASH s)%Z /\
  (countChar BACKSLASH s = 0%Z -> escapeBackslashes s = s).
Proof.
  intros s. split; [|split].
  - apply escapeBackslashes_filter. reflexivity.
  - unfold countChar. induction s as [|c s IH]; [simpl; lia|].
    cbn [escapeBackslashes].
    destruct (N.eqb_spec c BACKSLASH) as [->|Hne].
    + destruct (negb (lookahead s)); cbn [andb List.filter];
        rewrite ?N.eqb_refl; cbn [List.length]; lia.
    + cbn [andb List.filter].
      destruct (N.eqb_spec BACKSLASH c); [congruence|]. lia.
  - intros H. apply escapeBackslashes_none. unfold lacks.
    apply negb_true_iff. apply not_true_is_false. intros Hex.
    apply existsb_exists in Hex as (x & Hin & Hx).
    apply N.eqb_eq in Hx. subst x.
    unfold countChar in H.
    assert (In BACKSLASH (List.filter (N.eqb BACKSLASH) s)).
    { apply filter_In. split; [exact Hin|apply N.eqb_refl]. }
    destruct (List.filter (N.eqb BACKSLASH) s); [contradiction|discriminate].
Qed.

End SanitizerMore.

(* ===================================================================== *)
(** * Sanitizing twice                                                    *)
(* ===================================================================== *)

Module SanitizerTwice.

Import JSON Sanitizer.

Definition fence : jsstring := js "```".

(** ** No fence is left by step 1 *)

Lemma startsWith_fence (s : jsstring) :
  startsWith fence s =
  match s with
  | a :: b :: c :: _ => (96 =? a)%N && ((96 =? b)%N && (96 =? c)%N)
  | _ => false
  end.
Proof.
  change fence with [96%N; 96%N; 96%N].
  destruct s as [|a [|b [|c s]]]; cbn [startsWith];
    rewrite ?andb_false_r, ?andb_true_r; reflexivity.
Qed.

Lemma removeAll_skip (p : jsstring) (s : jsstring) :
  forall k, removeAll_from p k s = removeAll_from p 0 (List.skipn k s).
Proof.
  induction s as [|c s IH]; intros [|k]; try reflexivity.
  cbn [removeAll_from List.skipn]. apply IH.
Qed.

Lemma removeFence_cons (c : char) (s : jsstring) :
  removeFence fence (c :: s) =
  if startsWith fence (c :: s)
  then removeFence fence
         (List.skipn (2 + match List.skipn 3 (c :: s) with
                          | d :: _ => if (d =? LF)%N then 1 else 0
                          | [] => 0
                          end) s)
  else c :: removeFence fence s.
Proof.
  unfold removeFence. cbn [removeAll_from].
  destruct (startsWith fence (c :: s)); [|reflexivity].
  now rewrite removeAll_skip.
Qed.

Lemma skipn_length_le (A : Type) (k : nat) (l : list A) :
  List.length (List.skipn k l) <= List.length l.
Proof. rewrite length_skipn. lia. Qed.

(** After a backquote that does not open a fence, what follows is kept as
    far as needed to see that no fence shows up in the result. *)
Lemma removeFence_no_fence_at_head (c : char) (s : jsstring) :
  startsWith fence (c :: s) = false ->
  startsWith fence (c :: removeFence fence s) = false.
Proof.
  intros H. rewrite startsWith_fence in *.
  destruct (N.eqb_spec 96 c) as [<-|Hc];
    [|destruct (removeFence fence s) as [|x [|y r]]; reflexivity].
  destruct s as [|d s]; [reflexivity|].
  destruct (N.eqb_spec 96 d) as [<-|Hd].
  - (* the third unit of the text is not a backquote *)
    assert (H3 : match s with e :: _ => (96 =? e)%N | [] => false end = false).
    { destruct s as [|e s]; [reflexivity|]. exact H. }
    rewrite removeFence_cons.
    match goal with
    | |- context [startsWith fence ?l] =>
        assert (Hd2 : startsWith fence l = false);
        [rewrite startsWith_fence; destruct s as [|e [|g s]]; try reflexivity;
         cbn [andb]; rewrite H3; reflexivity
        |rewrite Hd2]
    end.
    destruct s as [|e s]; [reflexivity|].
    rewrite removeFence_cons.
    match goal with
    | |- context [startsWith fence ?l] =>
        assert (He : startsWith fence l = false);
        [rewrite startsWith_fence; destruct s as [|g [|i s]]; try reflexivity;
         rewrite H3; reflexivity
        |rewrite He]
    end.
    cbn [andb]. rewrite N.eqb_refl, H3. reflexivity.
  - rewrite removeFence_cons.
    match goal with
    | |- context [startsWith fence ?l] =>
        assert (Hd2 : startsWith fence l = false);
        [rewrite startsWith_fence; destruct s as [|e [|g s]]; try reflexivity;
         destruct (N.eqb_spec 96 d); [congruence|reflexivity]
        |rewrite Hd2]
    end.
    destruct (N.eqb_spec 96 d); [congruence|].
    now destruct (removeFence fence s).
Qed.

Lemma removeFence_no_fence_upto (n : nat) :
  forall s, List.length s <= n -> includes fence (removeFence fence s) = false.
Proof.
  induction n as [|n IH]; intros s Hlen.
  - destruct s; [reflexivity|simpl in Hlen; lia].
  - destruct s as [|c s]; [reflexivity|].
    rewrite removeFence_cons.
    destruct (startsWith fence (c :: s)) eqn:Hs.
    + apply IH. pose proof (skipn_length_le char
        (2 + match List.skipn 3 (c :: s) with
             | d :: _ => if (d =? LF)%N then 1 else 0
             | [] => 0
             end) s).
      simpl in Hlen. lia.
    + cbn [includes]. rewrite (removeFence_no_fence_at_head c s Hs).
      apply IH. simpl in Hlen. lia.
Qed.

Lemma removeFence_no_fence (s : jsstring) :
  includes fence (removeFence fence s) = false.
Proof. exact (removeFence_no_fence_upto (List.length s) s (le_n _)). Qed.

(** ** [trim] *)

Definition isTrimmed (s : jsstring) : bool :=
  match s with
  | [] => true
  | c :: _ => negb (isWhiteSpace c) && negb (isWhiteSpace (List.last s c))
  end.

Lemma trimStart_snoc (a : jsstring) (c : char) :
  isWhiteSpace c = false -> trimStart (a ++ [c]) = trimStart a ++ [c].
Proof.
  intros Hc. induction a as [|d a IH]; simpl.
  - now rewrite Hc.
  - destruct (isWhiteSpace d); [exact IH|reflexivity].
Qed.

Lemma trimEnd_snoc (s : jsstring) (c : char) :
  isWhiteSpace c = false -> trimEnd (s ++ [c]) = s ++ [c].
Proof.
  intros Hc. unfold trimEnd. rewrite rev_app_distr. simpl. rewrite Hc.
  simpl. now rewrite rev_involutive.
Qed.

Lemma trimEnd_cons (c : char) (s : jsstring) :
  isWhiteSpace c = false -> trimEnd (c :: s) = c :: trimEnd s.
Proof.
  intros Hc. unfold trimEnd. simpl. rewrite (trimStart_snoc _ _ Hc).
  now rewrite rev_app_distr.
Qed.

Lemma last_snoc (s : jsstring) (c d : char) : List.last (s ++ [c]) d = c.
Proof. apply last_last. Qed.

Lemma isTrimmed_fix (s : jsstring) : isTrimmed s = true -> trim s = s.
Proof.
  unfold isTrimmed, trim. destruct s as [|c s]; [reflexivity|].
  intros H. apply andb_true_iff in H as [Hc Hl].
  apply negb_true_iff in Hc, Hl.
  cbn [trimStart]. rewrite Hc.
  destruct (exists_last (l := c :: s) ltac:(discriminate)) as (a & z & Ha).
  rewrite Ha in *. rewrite last_snoc in Hl. now apply trimEnd_snoc.
Qed.

Lemma trimEnd_end (s : jsstring) :
  match rev (trimEnd s) with
  | z :: _ => isWhiteSpace z = false
  | [] => True
  end.
Proof.
  unfold trimEnd. rewrite rev_involutive.
  induction (rev s) as [|c r IH]; simpl; [exact I|].
  destruct (isWhiteSpace c) eqn:E; [exact IH|exact E].
Qed.

Lemma trim_isTrimmed (s : jsstring) : isTrimmed (trim s) = true.
Proof.
  unfold trim.
  assert (Hhead : match trimStart s with
                  | c :: _ => isWhiteSpace c = false
                  | [] => True
                  end).
  { induction s as [|c s IH]; simpl; [exact I|].
    destruct (isWhiteSpace c) eqn:E; [exact IH|exact E]. }
  destruct (trimStart s) as [|c t]; [reflexivity|].
  rewrite (trimEnd_cons c t Hhead).
  unfold isTrimmed. rewrite Hhead. cbn [negb andb].
  pose proof (trimEnd_end t) as Hend.
  destruct (trimEnd t) as [|d u] eqn:Et; [simpl; now rewrite Hhead|].
  destruct (exists_last (l := d :: u) ltac:(discriminate)) as (a & z & Ha).
  rewrite Ha in *. rewrite rev_app_distr in Hend. simpl in Hend.
  change (c :: a ++ [z]) with ((c :: a) ++ [z]).
  rewrite last_snoc. now rewrite Hend.
Qed.

(** ** A fence in a part of a text is a fence in the text *)

Lemma includes_app_r (p a b : jsstring) :
  includes p b = true -> includes p (a ++ b) = true.
Proof.
  intros H. induction a as [|c a IH]; [exact H|].
  simpl. rewrite IH. apply orb_true_r.
Qed.

Lemma startsWith_app_l (p a b : jsstring) :
  startsWith p a = true -> startsWith p (a ++ b) = true.
Proof.
  revert a. induction p as [|c p IH]; intros a H; [reflexivity|].
  destruct a as [|d a]; [discriminate|]. simpl in *.
  apply andb_true_iff in H as [Hc Hp]. rewrite Hc. simpl. auto.
Qed.

Lemma includes_app_l (p a b : jsstring) :
  includes p a = true -> includes p (a ++ b) = true.
Proof.
  induction a as [|c a IH]; intros H.
  - simpl in H. rewrite orb_false_r in H. destruct p; [|discriminate].
    destruct b; reflexivity.
  - cbn [includes] in H. apply orb_true_iff in H as [H|H].
    + change ((c :: a) ++ b) with (c :: (a ++ b)). cbn [includes].
      change (c :: (a ++ b)) with ((c :: a) ++ b).
      rewrite (startsWith_app_l _ _ _ H). reflexivity.
    + change ((c :: a) ++ b) with (c :: (a ++ b)). cbn [includes].
      rewrite (IH H). apply orb_true_r.
Qed.

Lemma trimStart_suffix (s : jsstring) : exists a, s = a ++ trimStart s.
Proof.
  induction s as [|c s (a & Ha)]; [now exists []|].
  simpl. destruct (isWhiteSpace c).
  - exists (c :: a). simpl. now rewrite <- Ha.
  - now exists [].
Qed.

Lemma trimEnd_prefix (s : jsstring) : exists b, s = trimEnd s ++ b.
Proof.
  unfold trimEnd. destruct (trimStart_suffix (rev s)) as (a & Ha).
  exists (rev a). rewrite <- rev_app_distr, <- Ha. now rewrite rev_involutive.
Qed.

Lemma includes_trim (p s : jsstring) :
  includes p s = false -> includes p (trim s) = false.
Proof.
  intros H. unfold trim.
  destruct (trimStart_suffix s) as (a & Ha).
  destruct (trimEnd_prefix (trimStart s)) as (b & Hb).
  destruct (includes p (trimEnd (trimStart s))) eqn:E; [|reflexivity].
  apply (includes_app_l p _ b) in E. rewrite <- Hb in E.
  apply (includes_app_r p a) in E. rewrite <- Ha in E. congruence.
Qed.

Lemma stripFences_clean (x : jsstring) :
  includes fence (stripFences x) = false /\ isTrimmed (stripFences x) = true.
Proof.
  unfold stripFences. split; [|apply trim_isTrimmed].
  apply includes_trim. apply removeFence_no_fence.
Qed.

Lemma stripFences_fix (t : jsstring) :
  includes fence t = false -> isTrimmed t = true -> stripFences t = t.
Proof.
  intros Hf Ht. rewrite (stripFences_no_fence t Hf). now apply isTrimmed_fix.
Qed.

(** ** Steps 2 and 3 keep the text free of fences and trimmed *)

Lemma escapeBackslashes_cons (c : char) (s : jsstring) :
  escapeBackslashes (c :: s) = c :: escapeBackslashes s \/
  (c = BACKSLASH /\
   escapeBackslashes (c :: s) = BACKSLASH :: BACKSLASH :: escapeBackslashes s).
Proof.
  cbn [escapeBackslashes].
  destruct ((c =? BACKSLASH)%N) eqn:Hc; cbn [andb]; [|now left].
  apply N.eqb_eq in Hc.
  destruct (negb (lookahead s)); [right; now subst|now left].
Qed.

Lemma escapeBackslashes_head (s : jsstring) :
  match s with
  | [] => escapeBackslashes s = []
  | c :: _ => exists r, escapeBackslashes s = c :: r
  end.
Proof.
  destruct s as [|c s]; [reflexivity|].
  destruct (escapeBackslashes_cons c s) as [H|[Hc H]]; rewrite H.
  - now eexists.
  - subst c. now eexists.
Qed.

Lemma startsWith_fence_escape (s : jsstring) :
  startsWith fence (escapeBackslashes s) = startsWith fence s.
Proof.
  rewrite !startsWith_fence.
  destruct s as [|a s]; [reflexivity|].
  destruct (escapeBackslashes_cons a s) as [H|[Ha H]]; rewrite H; clear H.
  2:{ subst a. destruct (escapeBackslashes s) as [|e r];
      destruct s as [|b [|c s]]; reflexivity. }
  destruct s as [|b s]; [reflexivity|].
  destruct (escapeBackslashes_cons b s) as [H|[Hb H]]; rewrite H; clear H.
  2:{ subst b. rewrite andb_false_r.
      destruct s as [|c s]; [reflexivity|]. now rewrite andb_false_r. }
  destruct s as [|c s]; [reflexivity|].
  destruct (escapeBackslashes_cons c s) as [H|[Hc H]]; rewrite H; clear H.
  - reflexivity.
  - subst c. reflexivity.
Qed.

Lemma includes_fence_escape (s : jsstring) :
  includes fence (escapeBackslashes s) = includes fence s.
Proof.
  induction s as [|c s IH]; [reflexivity|].
  pose proof (startsWith_fence_escape (c :: s)) as Hsw.
  destruct (escapeBackslashes_cons c s) as [H|[Hc H]]; rewrite H in *; clear H.
  - cbn [includes]. rewrite Hsw, IH. reflexivity.
  - subst c.
    change (includes fence (BACKSLASH :: BACKSLASH :: escapeBackslashes s))
      with (startsWith fence (BACKSLASH :: BACKSLASH :: escapeBackslashes s)
            || (startsWith fence (BACKSLASH :: escapeBackslashes s)
                || includes fence (escapeBackslashes s))).
    change (includes fence (BACKSLASH :: s))
      with (startsWith fence (BACKSLASH :: s) || includes fence s).
    rewrite IH, !startsWith_fence.
    generalize (escapeBackslashes s). intros e.
    destruct e as [|e1 [|e2 r]]; destruct s as [|b [|c s]]; reflexivity.
Qed.

Lemma last_escape (s : jsstring) (d : char) :
  List.last (escapeBackslashes s) d = List.last s d.
Proof.
  induction s as [|c s IH]; [reflexivity|].
  pose proof (escapeBackslashes_head s) as Hhd.
  destruct (escapeBackslashes_cons c s) as [H|[Hc H]]; rewrite H; clear H.
  - destruct s as [|b s].
    + reflexivity.
    + destruct Hhd as [r Hr]. rewrite Hr in *.
      cbn [List.last] in *. exact IH.
  - subst c. destruct s as [|b s].
    + reflexivity.
    + destruct Hhd as [r Hr]. rewrite Hr in *.
      cbn [List.last] in *. exact IH.
Qed.

Lemma last_indep (s : jsstring) (c d e : char) :
  List.last (c :: s) d = List.last (c :: s) e.
Proof.
  revert c. induction s as [|b s IH]; intros c; [reflexivity|].
  change (List.last (b :: s) d = List.last (b :: s) e). apply IH.
Qed.

Lemma isTrimmed_escape (s : jsstring) :
  isTrimmed s = true -> isTrimmed (escapeBackslashes s) = true.
Proof.
  destruct s as [|c s]; [reflexivity|].
  intros H.
  destruct (escapeBackslashes_head (c :: s)) as [r Hr].
  pose proof (last_escape (c :: s) c) as Hl. rewrite Hr in *.
  unfold isTrimmed in *. rewrite Hl. exact H.
Qed.

(** The units step 3 appends: a double quote, closing braces and closing
    brackets. *)
Definition isCloser (c : char) : bool :=
  ((c =? QUOTE) || (c =? ch "}") || (c =? ch "]"))%N.

Lemma isCloser_facts (c : char) :
  isCloser c = true -> isWhiteSpace c = false /\ (96 =? c)%N = false.
Proof.
  unfold isCloser. intros H.
  apply orb_true_iff in H. destruct H as [H|H].
  - apply orb_true_iff in H.
    destruct H as [H|H]; apply N.eqb_eq in H; subst c; now split.
  - apply N.eqb_eq in H. subst c. now split.
Qed.

Lemma startsWith_fence_closers (u suf : jsstring) :
  List.forallb isCloser suf = true ->
  startsWith fence (u ++ suf) = startsWith fence u.
Proof.
  intros Hs. rewrite !startsWith_fence.
  assert (Hhd : forall c r, suf = c :: r -> (96 =? c)%N = false).
  { intros c r ->. cbn [List.forallb] in Hs.
    apply andb_true_iff in Hs. now apply isCloser_facts. }
  assert (Htl : forall c r, suf = c :: r -> List.forallb isCloser r = true).
  { intros c r ->. cbn [List.forallb] in Hs.
    now apply andb_true_iff in Hs. }
  destruct u as [|a [|b [|c u]]]; cbn [app].
  - destruct suf as [|x [|y [|z r]]]; try reflexivity.
    now rewrite (Hhd x _ eq_refl).
  - destruct suf as [|x [|y r]]; try reflexivity.
    rewrite (Hhd x _ eq_refl). now rewrite andb_false_r.
  - destruct suf as [|x r]; try reflexivity.
    rewrite (Hhd x _ eq_refl). now rewrite !andb_false_r.
  - reflexivity.
Qed.

Lemma includes_fence_closers (u suf : jsstring) :
  List.forallb isCloser suf = true ->
  includes fence (u ++ suf) = includes fence u.
Proof.
  intros Hs. induction u as [|c u IH].
  - cbn [app]. clear - Hs. induction suf as [|x r IH]; [reflexivity|].
    cbn [List.forallb] in Hs. apply andb_true_iff in Hs.
    destruct Hs as [Hx Hr].
    cbn [includes]. rewrite (IH Hr), startsWith_fence.
    apply isCloser_facts in Hx. destruct Hx as [_ Hx].
    destruct r as [|y [|z r]]; try reflexivity. now rewrite Hx.
  - change ((c :: u) ++ suf) with (c :: (u ++ suf)).
    cbn [includes].
    change (c :: (u ++ suf)) with ((c :: u) ++ suf).
    rewrite (startsWith_fence_closers (c :: u) suf Hs), IH. reflexivity.
Qed.

Lemma last_app_nonempty (u : jsstring) (x : char) (r : jsstring) (d : char) :
  List.last (u ++ x :: r) d = List.last (x :: r) d.
Proof.
  induction u as [|c u IH]; [reflexivity|].
  change ((c :: u) ++ x :: r) with (c :: (u ++ x :: r)).
  destruct (u ++ x :: r) as [|c0 l] eqn:E.
  - now destruct u.
  - change (List.last (c :: c0 :: l) d) with (List.last (c0 :: l) d).
    exact IH.
Qed.

Lemma last_closers (x : char) (r : jsstring) (d : char) :
  List.forallb isCloser (x :: r) = true ->
  isCloser (List.last (x :: r) d) = true.
Proof.
  revert x. induction r as [|y r IH]; intros x Hs.
  - cbn [List.forallb] in Hs. now apply andb_true_iff in Hs.
  - cbn [List.forallb] in Hs. apply andb_true_iff in Hs.
    destruct Hs as [_ Hs].
    change (isCloser (List.last (y :: r) d) = true). now apply IH.
Qed.

Lemma isTrimmed_closers (u suf : jsstring) :
  List.forallb isCloser suf = true ->
  isTrimmed u = true -> isTrimmed (u ++ suf) = true.
Proof.
  intros Hs Hu. destruct suf as [|x r].
  - now rewrite app_nil_r.
  - pose proof (last_closers x r) as Hl.
    destruct u as [|c u].
    + cbn [app]. unfold isTrimmed.
      destruct (isCloser_facts _ (Hl x Hs)) as [Hw _]. rewrite Hw.
      cbn [List.forallb] in Hs. apply andb_true_iff in Hs.
      destruct (isCloser_facts _ (proj1 Hs)) as [Hx _]. now rewrite Hx.
    + change ((c :: u) ++ x :: r) with (c :: (u ++ x :: r)).
      unfold isTrimmed in *.
      change (c :: (u ++ x :: r)) with ((c :: u) ++ x :: r).
      rewrite last_app_nonempty.
      destruct (isCloser_facts _ (Hl c Hs)) as [Hw _]. rewrite Hw.
      apply andb_true_iff in Hu. destruct Hu as [Hc _]. now rewrite Hc.
Qed.

Lemma forallb_repeat (c : char) (n : nat) :
  isCloser c = true -> List.forallb isCloser (List.repeat c n) = true.
Proof.
  intros Hc. induction n as [|n IH]; [reflexivity|].
  cbn [List.repeat List.forallb]. now rewrite Hc, IH.
Qed.

(** What the sanitizer returns holds no fence, and neither starts nor ends
    with white space. *)
Lemma cleanJSONResponse_clean (x : jsstring) :
  includes fence (cleanJSONResponse x) = false /\
  isTrimmed (cleanJSONResponse x) = true.
Proof.
  destruct (SanitizerMore.cleanJSONResponse_shape x)
    as (quote & nb & nk & Hq & Heq & _).
  rewrite Heq. clear Heq.
  destruct (stripFences_clean x) as [Hf Ht].
  set (suf := quote ++ List.repeat (ch "}") nb ++ List.repeat (ch "]") nk).
  assert (Hs : List.forallb isCloser suf = true).
  { unfold suf. rewrite !forallb_app, !forallb_repeat by reflexivity.
    destruct Hq as [-> | ->]; reflexivity. }
  assert (Hbase :
    includes fence
      (match JSON_parse (stripFences x) with
       | Some _ => stripFences x
       | None => escapeBackslashes (stripFences x)
       end) = false /\
    isTrimmed
      (match JSON_parse (stripFences x) with
       | Some _ => stripFences x
       | None => escapeBackslashes (stripFences x)
       end) = true).
  { destruct (JSON_parse (stripFences x)).
    - now split.
    - split; [now rewrite includes_fence_escape|now apply isTrimmed_escape]. }
  destruct Hbase as [Hbf Hbt]. split.
  - now rewrite includes_fence_closers.
  - now apply isTrimmed_closers.
Qed.

(** X19.  Step 1 of the sanitizer leaves no Markdown fence (three
    backquotes) anywhere in the text and no white space at either end,
    whatever the input; therefore running step 1 a second time changes
    nothing. *)
Theorem stripFences_idempotent :
  forall x : jsstring,
    includes (js "```") (stripFences x) = false /\
    trim (stripFences x) = stripFences x /\
    stripFences (stripFences x) = stripFences x.
Proof.
  intros x. destruct (stripFences_clean x) as [Hf Ht].
  split; [exact Hf|]. split.
  - now apply isTrimmed_fix.
  - now apply stripFences_fix.
Qed.

(** X20.  Whenever the text returned by [cleanJSONResponse] is accepted by
    [JSON.parse], sanitizing that text again returns it unchanged: the
    sanitizer is idempotent on every result that the callers go on to
    use.  In all cases the result holds no fence. *)
Theorem cleanJSONResponse_idempotent_on_success :
  forall (x : jsstring) (v : json),
    JSON_parse (cleanJSONResponse x) = Some v ->
    includes (js "```") (cleanJSONResponse x) = false /\
    cleanJSONResponse (cleanJSONResponse x) = cleanJSONResponse x.
Proof.
  intros x v Hv. destruct (cleanJSONResponse_clean x) as [Hf Ht].
  split; [exact Hf|].
  pose proof (stripFences_fix _ Hf Ht) as Hfix.
  destruct (cleanJSONResponse x) as [|c w] eqn:E; [reflexivity|].
  unfold cleanJSONResponse at 1. cbv zeta.
  rewrite Hfix, Hv. reflexivity.
Qed.

(** A fenced reply cut inside a string: the first pass removes the fence
    and closes the string, the object and the array; the second pass
    returns the same text. *)
Lemma cleanJSONResponse_idempotent_witness :
  let x := js "```json
[{'a':'b
```" in
  JSON_parse (cleanJSONResponse x)
  = Some (JArr [JObj [(js "a", JStr (js "b"))]]) /\
  cleanJSONResponse (cleanJSONResponse x) = cleanJSONResponse x.
Proof.
  intros x.
  assert (E : JSON_parse (cleanJSONResponse x)
              = Some (JArr [JObj [(js "a", JStr (js "b"))]])).
  { vm_compute. reflexivity. }
  split; [exact E|].
  exact (proj2 (cleanJSONResponse_idempotent_on_success x _ E)).
Defined.


End SanitizerTwice.

(* ===================================================================== *)
(** * From the provider to the reply of the solving route                 *)
(* ===================================================================== *)

Module Routes.

Import JSON Normalizer Fallback Scheduler Service.

(** [await generateWithFallback(...)] as the two service functions use it:
    what a successful call resolves to is read through
    [response.text()], which returns the text or throws. *)
Definition askProvider (outcomes : nat -> outcome (result jsstring jsstring))
  : provider :=
  snd (generateWithFallback (result jsstring jsstring) outcomes).

(** Whether the uploaded file is a presentation whose extraction fails. *)
Definition extractionFails (file : option upload) : bool :=
  match file with
  | Some f =>
      isPresentation f &&
      match extractedText f with
      | Some _ => false
      | None => true
      end
  | None => false
  end.

Section WithEngineWording.

(** The wording of the engine for its own errors. *)
Variable engineMessage : engine_error -> jsstring.

Variable Number_toString : jsnum -> jsstring.

(** [error.message] *)
Definition messageOf (error : thrown) : jsstring :=
  msg_text error ++
  match msg_engine error with
  | Some e => engineMessage e
  | None => []
  end.

(** What the client of [/solve-mcq] receives: the chunks written to the
    stream, or the JSON body [{success: false, error}] with status 500. *)
Inductive reply : Type :=
| Streamed (chunks : list (chunk canonical))
| Status500 (error : jsstring).

(** The handler of [/solve-mcq] from [validatedData] on.  Nothing is
    written before [solveMCQs] settles, so an error it throws finds the
    headers unsent. *)
Definition solveRoute (p : provider) (file : option upload) : reply :=
  match solveMCQs Number_toString p file with
  | Ok mcqs =>
      Streamed [Chunk mcqs (Z.of_nat (List.length mcqs))
                           (Z.of_nat (List.length mcqs));
                Completed]
  | Err error =>
      Status500 (match messageOf error with
                 | [] => js "Failed to solve MCQs"
                 | c :: m => c :: m
                 end)
  end.

End WithEngineWording.

(** ** The provider's failure *)

Section Provider.

Variable outcomes : nat -> outcome (result jsstring jsstring).

Lemma askProvider_cases :
  let trace := fst (generateWithFallback (result jsstring jsstring) outcomes) in
  match askProvider outcomes with
  | Ok r =>
      exists n, n <= 20 /\ List.length trace = S n /\ outcomes n = Success r
  | Err msg =>
      exists n e, 6 <= n <= 20 /\ List.length trace = S n /\
                  outcomes n = Failure e /\
                  msg = js "All models failed. Last error: " ++ message e
  end.
Proof.
  unfold askProvider.
  destruct (generateWithFallback (result jsstring jsstring) outcomes)
    as [t r] eqn:Hrun.
  unfold generateWithFallback in Hrun.
  destruct (modelLoop_spec _ outcomes MODELS MODELS_NoDup _ _ _ _ Hrun)
    as (ns & Hlen & Hall & Ht & _ & Hres).
  pose proof (FallbackCost.blocks_length MODELS ns Hall Hlen) as Hb.
  rewrite <- Ht in Hb. simpl in Hlen. cbn [fst snd].
  destruct r as [r|msg].
  - destruct Hres as (n & Hn & Hs). exists n.
    split; [lia|]. split; [exact Hn|exact Hs].
  - destruct Hres as (Hfull & [(Hnil & _)|(n & e & Hn & Hf & Hmsg)]).
    + simpl in Hfull. rewrite Hnil in Hb. simpl in Hb. lia.
    + simpl in Hfull. exists n, e. split; [lia|].
      split; [exact Hn|]. split; [exact Hf|exact Hmsg].
Qed.

Lemma askProvider_all_fail :
  (forall k, exists e, outcomes k = Failure e) ->
  exists n e,
    6 <= n <= 20 /\
    List.length (fst (generateWithFallback (result jsstring jsstring) outcomes))
    = S n /\
    outcomes n = Failure e /\
    askProvider outcomes
    = Err (js "All models failed. Last error: " ++ message e).
Proof.
  intros Hall. pose proof askProvider_cases as H. cbv zeta in H.
  destruct (askProvider outcomes) as [r|msg].
  - destruct H as (n & _ & _ & Hs). destruct (Hall n) as (e & He). congruence.
  - destruct H as (n & e & Hn & Hlen & Hf & ->). now exists n, e.
Qed.

End Provider.

Lemma rawText_err (file : option upload) (msg : jsstring) :
  extractionFails file = false ->
  rawText file (Err msg) = Err (Error msg).
Proof.
  unfold extractionFails, rawText. intros H.
  destruct file as [f|]; [|reflexivity].
  destruct (isPresentation f); [|reflexivity].
  destruct (extractedText f); [reflexivity|discriminate].
Qed.

(** X21.  When every provider call fails and no presentation fails to be
    extracted, the message of the last call made (the call of index [n]
    when [S n] calls were made, between 7 and 21 of them) reaches the
    callers with both wrappings: [solveMCQs] and the 500 reply of
    [/solve-mcq] carry [Failed to solve MCQs: All models failed. Last
    error: ...], and [generateMCQs], unless it answers from the cache,
    throws the same with its own prefix and leaves the cache as it was. *)
Theorem provider_failure_reaches_the_caller :
  forall (engineMessage : engine_error -> jsstring)
         (Number_toString : jsnum -> jsstring)
         (sha256hex : jsstring -> jsstring)
         (outcomes : nat -> outcome (result jsstring jsstring))
         (file : option upload),
  (forall k, exists e, outcomes k = Failure e) ->
  extractionFails file = false ->
  exists n e,
    6 <= n <= 20 /\
    List.length (fst (generateWithFallback (result jsstring jsstring) outcomes))
    = S n /\
    outcomes n = Failure e /\
    solveMCQs Number_toString (askProvider outcomes) file
    = Err (Error (js "Failed to solve MCQs: All models failed. Last error: "
                  ++ message e)) /\
    solveRoute engineMessage Number_toString (askProvider outcomes) file
    = Status500 (js "Failed to solve MCQs: All models failed. Last error: "
                 ++ message e) /\
    forall (studyMaterial : jsstring) (difficultyCounts : batch)
           (includeExplanation : bool) (c : cache),
      match cacheKeyOf sha256hex studyMaterial difficultyCounts
              includeExplanation file with
      | Some key => Map_get key c = None
      | None => True
      end ->
      generateMCQs sha256hex (askProvider outcomes) studyMaterial
        difficultyCounts includeExplanation file c
      = (Err (Error (js "Failed to generate MCQs: All models failed. Last error: "
                     ++ message e)), c).
Proof.
  intros engineMessage Number_toString sha256hex outcomes file Hall Hfile.
  destruct (askProvider_all_fail outcomes Hall) as (n & e & Hn & Hlen & Hf & Hp).
  exists n, e. split; [exact Hn|]. split; [exact Hlen|]. split; [exact Hf|].
  rewrite Hp.
  assert (Hsolve :
    solveMCQs Number_toString
      (Err (js "All models failed. Last error: " ++ message e)) file
    = Err (Error (js "Failed to solve MCQs: All models failed. Last error: "
                  ++ message e))).
  { unfold solveMCQs, solveBody. rewrite (rawText_err file _ Hfile).
    reflexivity. }
  split; [exact Hsolve|]. split.
  - unfold solveRoute. rewrite Hsolve.
    unfold messageOf, Error. cbn [msg_text msg_engine].
    rewrite app_nil_r. reflexivity.
  - intros studyMaterial difficultyCounts includeExplanation c Hmiss.
    unfold generateMCQs.
    destruct (cacheKeyOf sha256hex studyMaterial difficultyCounts
                includeExplanation file) as [key|].
    + rewrite Hmiss.
      destruct (Map_has key c); unfold generateFresh;
        rewrite (rawText_err file _ Hfile); reflexivity.
    + unfold generateFresh. rewrite (rawText_err file _ Hfile). reflexivity.
Qed.

Lemma provider_failure_witness :
  let outcomes := fun k : nat =>
    @Failure (result jsstring jsstring)
      (mkError (if k =? 6 then js "[404 Not Found]" else js "[400 Bad Request]")
               None) in
  (forall k, exists e, outcomes k = Failure e) /\
  extractionFails None = false /\
  solveMCQs (fun _ => []) (askProvider outcomes) None
  = Err (Error (js "Failed to solve MCQs: All models failed. Last error: [404 Not Found]")).
Proof.
  intros outcomes.
  assert (Hall : forall k, exists e, outcomes k = Failure e).
  { intros k. eexists. reflexivity. }
  split; [exact Hall|]. split; [reflexivity|].
  destruct (provider_failure_reaches_the_caller
              (fun _ => []) (fun _ => []) (fun _ => []) outcomes None
              Hall eq_refl) as (n & e & _ & Hlen & Hf & Hs & _).
  rewrite Hs.
  assert (Hn : n = 6).
  { apply eq_add_S. rewrite <- Hlen. reflexivity. }
  subst n. inversion Hf. reflexivity.
Defined.

(** X22.  The route [/solve-mcq], from the validated request on, replies
    in one of two ways.  Either it streams exactly one data chunk followed
    by the terminal chunk, the data chunk holding the records returned by
    [solveMCQs], at least one, with [total] and [current] both equal to
    their number; or it answers 500 with a message that begins with
    [Failed to solve MCQs: ], so the default text of the handler is never
    sent. *)
Theorem solve_route_replies :
  forall (engineMessage : engine_error -> jsstring)
         (Number_toString : jsnum -> jsstring)
         (p : provider) (file : option upload),
  match solveRoute engineMessage Number_toString p file with
  | Streamed chunks =>
      exists mcqs,
        solveMCQs Number_toString p file = Ok mcqs /\
        mcqs <> [] /\
        chunks = [Chunk mcqs (Z.of_nat (List.length mcqs))
                             (Z.of_nat (List.length mcqs));
                  Completed]
  | Status500 error =>
      exists e rest,
        solveMCQs Number_toString p file = Err e /\
        error = messageOf engineMessage e /\
        error = js "Failed to solve MCQs: " ++ rest
  end.
Proof.
  intros engineMessage Number_toString p file.
  unfold solveRoute.
  destruct (solveMCQs Number_toString p file) as [mcqs|error] eqn:Hs.
  - exists mcqs. split; [reflexivity|]. split; [|reflexivity].
    unfold solveMCQs, solveBody in Hs.
    destruct (rawText file p); [|discriminate]. cbv zeta in Hs.
    destruct (JSON_parse _) as [v|]; [|discriminate].
    destruct (if isArray v then v
              else if isObjectLike v then probe possibleArrays v else v);
      try discriminate.
    destruct (normalizeAll Number_toString elems) as [w|]; [|discriminate].
    destruct w; [discriminate|]. inversion Hs. discriminate.
  - unfold solveMCQs in Hs.
    destruct (solveBody Number_toString file p) as [w|e0]; [discriminate|].
    inversion Hs; subst error. clear Hs.
    exists (wrap (js "Failed to solve MCQs: ") e0),
           (msg_text e0 ++ match msg_engine e0 with
                           | Some g => engineMessage g
                           | None => []
                           end).
    split; [reflexivity|].
    unfold messageOf, wrap. cbn [msg_text msg_engine].
    rewrite <- app_assoc. split; reflexivity.
Qed.

End Routes.

(* ===================================================================== *)
(** * The progress reported by the generation route                       *)
(* ===================================================================== *)

Module Progress.

Import Scheduler.

(** The number of items a batch asks for. *)
Definition batchTotal (b : batch) : Z :=
  (easyCount b + mediumCount b + hardCount b)%Z.

Lemma sumBy_batchTotal (bs : list batch) :
  sumBy batchTotal bs
  = (sumBy easyCount bs + sumBy mediumCount bs + sumBy hardCount bs)%Z.
Proof.
  induction bs as [|b bs IH]; [reflexivity|].
  unfold sumBy in *. cbn [List.fold_right]. rewrite IH.
  unfold batchTotal. lia.
Qed.

Section Run.

Variables (Mcq E St : Type).

(** A call that returned as many records as its batch asked for. *)
Definition delivered (call : batch * result E (list Mcq)) : Prop :=
  match snd call with
  | Ok mcqs => Z.of_nat (List.length mcqs) = batchTotal (fst call)
  | Err _ => False
  end.

(** A data chunk whose [total] is [total] and whose [current] lies
    strictly between [low] and [high]. *)
Definition partial (total low high : Z) (c : chunk Mcq) : Prop :=
  match c with
  | Chunk _ t current => t = total /\ (low < current < high)%Z
  | Completed => False
  end.

Lemma sumBy_nonneg (calls : list (batch * result E (list Mcq))) :
  Forall (fun call => (0 < batchTotal (fst call))%Z) calls ->
  (0 <= sumBy batchTotal (List.map fst calls))%Z.
Proof.
  induction 1 as [|c l Hc _ IHl]; [reflexivity|].
  cbn [List.map]. unfold sumBy. cbn [List.fold_right].
  fold (sumBy batchTotal (List.map fst l)). lia.
Qed.

Lemma chunksOf_delivered (calls : list (batch * result E (list Mcq))) :
  forall (totalCount completedInRequest : Z),
  Forall delivered calls ->
  Forall (fun call => (0 < batchTotal (fst call))%Z) calls ->
  calls <> [] ->
  exists pre mcqs,
    chunksOf calls totalCount completedInRequest
    = pre ++ [Chunk mcqs totalCount
                (completedInRequest + sumBy batchTotal (List.map fst calls))%Z] /\
    Forall (partial totalCount completedInRequest
              (completedInRequest + sumBy batchTotal (List.map fst calls))%Z)
           pre.
Proof.
  induction calls as [|[b r] rest IH]; intros totalCount completed Hd Hpos Hne;
    [congruence|].
  inversion Hd as [|? ? Hb Hd']; subst.
  inversion Hpos as [|? ? Hp Hpos']; subst.
  unfold delivered in Hb. cbn [fst snd] in Hb, Hp.
  destruct r as [mcqs|err]; [|contradiction].
  cbn [chunksOf List.map fst]. unfold sumBy. cbn [List.fold_right].
  fold (sumBy batchTotal (List.map fst rest)).
  rewrite Hb.
  destruct rest as [|call rest'].
  - exists [], mcqs. cbn [chunksOf List.map app]. unfold sumBy at 1.
    cbn [List.fold_right]. split; [|constructor].
    now rewrite Z.add_0_r.
  - destruct (IH totalCount (completed + batchTotal b)%Z Hd' Hpos'
                ltac:(discriminate)) as (pre & last & Heq & Hpre).
    exists (Chunk mcqs totalCount (completed + batchTotal b)%Z :: pre), last.
    rewrite Heq. split.
    + cbn [app]. now rewrite Z.add_assoc.
    + assert (Hrest : (0 < sumBy batchTotal (List.map fst (call :: rest')))%Z).
      { inversion Hpos' as [|? ? Hc Hl]; subst.
        pose proof (sumBy_nonneg rest' Hl).
        cbn [List.map]. unfold sumBy. cbn [List.fold_right].
        fold (sumBy batchTotal (List.map fst rest')). lia. }
      constructor.
      * unfold partial. split; [reflexivity|lia].
      * eapply Forall_impl; [|exact Hpre].
        intros [m t cur|]; unfold partial; [|tauto].
        intros [Ht Hcur]. split; [exact Ht|lia].
Qed.

End Run.

(** X23.  When every call of a run returns as many records as its batch
    asked for, the progress of the stream is exact: the data chunks before
    the last report a [current] strictly between 0 and [total], the last
    data chunk reports [current] equal to [total], and the terminal chunk
    follows it. *)
Theorem progress_reaches_total :
  forall (Mcq E St : Type)
         (generateMCQs : batch -> St -> result E (list Mcq) * St)
         (validatedData : validated) (st : St),
  let totalCount := (v_easyCount validatedData + v_mediumCount validatedData
                     + v_hardCount validatedData)%Z in
  let s := fst (handler generateMCQs validatedData st) in
  (0 <= v_easyCount validatedData)%Z ->
  (0 <= v_mediumCount validatedData)%Z ->
  (0 <= v_hardCount validatedData)%Z ->
  (0 < totalCount)%Z ->
  Forall (delivered Mcq E) (called s) ->
  exists pre mcqs,
    written s = pre ++ [Chunk mcqs totalCount totalCount; Completed] /\
    Forall (partial Mcq totalCount 0 totalCount) pre.
Proof.
  intros Mcq E St generateMCQs validatedData st totalCount s He Hm Hh Htot Hd.
  destruct (handler_written Mcq E St generateMCQs validatedData st)
    as (Hc & Hw & _).
  fold s in Hc, Hw. fold totalCount in Hw.
  destruct (buildBatches_total _ _ _ He Hm Hh) as (H1 & H2 & H3 & Hall).
  rewrite <- Hc in H1, H2, H3, Hall.
  assert (Hsum : sumBy batchTotal (List.map fst (called s)) = totalCount).
  { rewrite sumBy_batchTotal, H1, H2, H3. reflexivity. }
  assert (Hpos : Forall (fun call => (0 < batchTotal (fst call))%Z) (called s)).
  { apply Forall_forall. intros call Hin.
    rewrite Forall_forall in Hall.
    destruct (Hall (fst call) (in_map fst _ _ Hin)) as ((_ & _ & _ & Hb & _) & _).
    exact Hb. }
  assert (Hne : called s <> []).
  { intros Hnil. rewrite Hnil in Hsum. cbn in Hsum. lia. }
  destruct (chunksOf_delivered Mcq E (called s) totalCount 0 Hd Hpos Hne)
    as (pre & mcqs & Heq & Hpre).
  rewrite Hsum in Heq, Hpre. rewrite Z.add_0_l in Heq, Hpre.
  exists pre, mcqs. split; [|exact Hpre].
  rewrite Hw, Heq, <- app_assoc. reflexivity.
Qed.

(** Three items from a source that always delivers: chunks at 2 and 3. *)
Lemma progress_reaches_total_witness :
  let generateMCQs := fun (b : batch) (st : unit) =>
    (@Ok unit (list unit) (List.repeat tt (Z.to_nat (batchTotal b))), st) in
  let s := fst (handler generateMCQs (mkValidated 1 1 1) tt) in
  Forall (delivered unit unit) (called s) /\
  exists pre mcqs,
    written s = pre ++ [Chunk mcqs 3 3; Completed] /\
    Forall (partial unit 3 0 3) pre.
Proof.
  intros generateMCQs s.
  assert (Hd : Forall (delivered unit unit) (called s)).
  { vm_compute. repeat constructor. }
  split; [exact Hd|].
  exact (progress_reaches_total unit unit unit generateMCQs
           (mkValidated 1 1 1) tt
           ltac:(cbn; lia) ltac:(cbn; lia) ltac:(cbn; lia) ltac:(cbn; lia) Hd).
Defined.

End Progress.

(* ===================================================================== *)
(** * The validators of the two routes                                    *)
(* ===================================================================== *)

Module Validators.

Import JSON Normalizer Scheduler Service.

(** ** [parseInt]

    [parseInt(string)] with no radix, on the string already converted:
    leading white space is dropped, then a sign, then the prefix 0x or 0X,
    which selects radix 16; the digits of the radix that follow are read
    and the rest is ignored.  [None] is NaN.  The value is the integer the
    digits denote; the engine returns the double nearest to it, which is
    that integer up to 2^53 and compares with 0, 1 and 1000 as the integer
    does. *)
Definition radixDigit (radix : N) (c : char) : option N :=
  match hexValue c with
  | Some d => if (d <? radix)%N then Some d else None
  | None => None
  end.

Fixpoint digits (radix : N) (s : jsstring) (acc : option N) : option N :=
  match s with
  | c :: s' =>
      match radixDigit radix c with
      | Some d =>
          digits radix s'
            (Some match acc with
                  | Some a => (a * radix + d)%N
                  | None => d
                  end)
      | None => acc
      end
  | [] => acc
  end.

Definition parseInt (inputString : jsstring) : option Z :=
  let str := trimStart inputString in
  let '(negative, str) :=
    match str with
    | c :: str' =>
        if (c =? ch "-")%N then (true, str')
        else if (c =? ch "+")%N then (false, str')
        else (false, str)
    | [] => (false, str)
    end in
  let '(R, str) :=
    match str with
    | z :: x :: str' =>
        if ((z =? ch "0") && ((x =? ch "x") || (x =? ch "X")))%N
        then (16%N, str')
        else (10%N, str)
    | _ => (10%N, str)
    end in
  match digits R str None with
  | Some mathInt => Some (if negative then (- Z.of_N mathInt)%Z else Z.of_N mathInt)
  | None => None
  end.

(** ** The regular expressions of [sanitizeText]

    Under the flag i a pattern unit that is a lower-case letter matches
    itself and its capital; any other pattern unit matches itself. *)
Definition matchesCI (p c : char) : bool :=
  ((c =? p) || ((97 <=? p) && (p <=? 122) && (c =? p - 32)))%N.

Fixpoint startsWithCI (p s : jsstring) : bool :=
  match p, s with
  | [], _ => true
  | x :: p', c :: s' => matchesCI x c && startsWithCI p' s'
  | _ :: _, [] => false
  end.

(** The index of the first occurrence of [p] in [s], case ignored. *)
Fixpoint indexOfCI (p s : jsstring) : option nat :=
  if startsWithCI p s then Some 0
  else match s with
       | [] => None
       | _ :: s' => option_map S (indexOfCI p s')
       end.

(** The class [\w]. *)
Definition isWordChar (c : char) : bool :=
  ((48 <=? c) && (c <=? 57) || (65 <=? c) && (c <=? 90)
   || (97 <=? c) && (c <=? 122) || (c =? 95))%N.

(** The length of the longest prefix of [s] in the class [f]. *)
Fixpoint spanLength (f : char -> bool) (s : jsstring) : nat :=
  match s with
  | c :: s' => if f c then S (spanLength f s') else 0
  | [] => 0
  end.

(** A matcher gives the length of the match that starts at the head of
    the text, if there is one.

    The expressions for script and for iframe: the opening name, a word
    boundary, a run of units other than [<], then any number of pieces
    made of a [<] that does not start the closing tag and of a run of
    units other than [<], then the closing tag.  Every run ends on a [<]
    or on the end of the text, so the match ends with the first closing
    tag that follows the opening name, and there is no match when none
    follows. *)
Definition matchTag (opening closing : jsstring) (s : jsstring) : option nat :=
  if startsWithCI opening s then
    let rest := List.skipn (List.length opening) s in
    if match rest with
       | c :: _ => negb (isWordChar c)
       | [] => true
       end
    then match indexOfCI closing rest with
         | Some k => Some (List.length opening + k + List.length closing)
         | None => None
         end
    else None
  else None.

(** [/javascript:/i] *)
Definition matchLiteral (p : jsstring) (s : jsstring) : option nat :=
  if startsWithCI p s then Some (List.length p) else None.

(** [/on\w+\s*=/i]: the three classes are disjoint, so the two greedy
    runs are the longest ones. *)
Definition matchHandler (s : jsstring) : option nat :=
  if startsWithCI (js "on") s then
    let rest := List.skipn 2 s in
    let w := spanLength isWordChar rest in
    if 0 <? w then
      let rest := List.skipn w rest in
      let sp := spanLength isWhiteSpace rest in
      match List.skipn sp rest with
      | c :: _ => if (c =? ch "=")%N then Some (2 + w + sp + 1) else None
      | [] => None
      end
    else None
  else None.

(** [s.replace(re, '')] for a global [re] that matches no empty string:
    scanning from the left, every match is dropped and the scan resumes
    after it.  [skip] counts the units of the current match still to
    drop. *)
Fixpoint replaceAll_from (re : jsstring -> option nat) (skip : nat)
    (s : jsstring) : jsstring :=
  match s with
  | [] => []
  | c :: s' =>
      match skip with
      | S k => replaceAll_from re k s'
      | O =>
          match re s with
          | Some (S n) => replaceAll_from re n s'
          | _ => c :: replaceAll_from re 0 s'
          end
      end
  end.

Definition replaceAll (re : jsstring -> option nat) (s : jsstring) : jsstring :=
  replaceAll_from re 0 s.

Definition sanitizeText (text : option json) : jsstring :=
  match text with
  | Some (JStr text) =>
      trim
        (replaceAll matchHandler
           (replaceAll (matchLiteral (js "javascript:"))
              (replaceAll (matchTag (js "<iframe") (js "</iframe>"))
                 (replaceAll (matchTag (js "<script") (js "</script>")) text))))
  | _ => []
  end.

(** ** The single validators *)

Definition validateTextLength (text : option json) (maxLength : Z)
  : result thrown jsstring :=
  match text with
  | Some (JStr (c :: text')) =>
      let trimmed := trim (c :: text') in
      if List.length trimmed =? 0
      then Err (Error (js "Text input cannot be empty"))
      else if (maxLength <? Z.of_nat (List.length trimmed))%Z
      then Ok (List.firstn (Z.to_nat maxLength) trimmed)
      else Ok trimmed
  | _ => Err (Error (js "Invalid text input"))
  end.

Definition validateBoolean (value : option json) : bool :=
  match value with
  | Some (JBool b) => b
  | Some (JStr s) => JSString.eqb s (js "true")
  | _ => truthyOpt value
  end.

(** What [validateMCQCount] is given: a field of the body, or the
    literal 0 of [body.easyCount || 0]. *)
Inductive count : Type :=
| Field (v : json)
| Zero.

(** [field || 0] *)
Definition orZero (field : option json) : count :=
  match field with
  | Some v => if truthy v then Field v else Zero
  | None => Zero
  end.

Section WithConversions.

Variable Number_toString : jsnum -> jsstring.

(** The conversion of an object to a string.  It depends on the prototype
    of the object: [[object Object]] from [Object.prototype] unless a
    member hides the method, a TypeError for the objects without
    prototype that the multipart parser builds. *)
Variable Object_toString : list (jsstring * json) -> result engine_error jsstring.

(** The wording of the engine for its own errors. *)
Variable engineMessage : engine_error -> jsstring.

(** ToString, the conversion [parseInt] applies to its argument.  An array
    joins the strings of its elements with commas, null giving the empty
    string. *)
Fixpoint ToString (v : json) : result engine_error jsstring :=
  match v with
  | JNull => Ok (js "null")
  | JBool true => Ok (js "true")
  | JBool false => Ok (js "false")
  | JNum n => Ok (Number_toString n)
  | JStr s => Ok s
  | JArr elems =>
      (fix join (l : list json) : result engine_error jsstring :=
         match l with
         | [] => Ok []
         | x :: rest =>
             match (match x with JNull => Ok [] | _ => ToString x end) with
             | Err e => Err e
             | Ok s =>
                 match rest with
                 | [] => Ok s
                 | _ :: _ =>
                     match join rest with
                     | Err e => Err e
                     | Ok r => Ok (s ++ ch "," :: r)
                     end
                 end
             end
         end) elems
  | JObj members => Object_toString members
  end.

Definition countToString (c : count) : result engine_error jsstring :=
  match c with
  | Field v => ToString v
  | Zero => Ok (js "0")
  end.

Definition validateMCQCount (c : count) : result thrown Z :=
  match countToString c with
  | Err e => Err (fromEngine e)
  | Ok inputString =>
      match parseInt inputString with
      | Some num =>
          if ((num <? 0) || (1000 <? num))%Z
          then Err (Error (js "MCQ count must be between 0 and 1000"))
          else Ok num
      | None => Err (Error (js "MCQ count must be between 0 and 1000"))
      end
  end.

(** [error.message] *)
Definition messageOf (error : thrown) : jsstring :=
  Routes.messageOf engineMessage error.

(** [errors.join('; ')] *)
Fixpoint join (errors : list jsstring) : jsstring :=
  match errors with
  | [] => []
  | [e] => e
  | e :: rest => e ++ js "; " ++ join rest
  end.

Record generationRequest := mkGenerationRequest {
  g_studyMaterial : jsstring;
  g_easyCount : Z;
  g_mediumCount : Z;
  g_hardCount : Z;
  g_includeExplanation : bool
}.

(** The second [try] of [validateGenerationRequest].  The three counts
    are pure expressions of the body: the total and the returned record
    read the values [validateMCQCount] has computed. *)
Definition validateCounts (body : json) : result thrown (Z * Z * Z) :=
  match validateMCQCount (orZero (getProp body (js "easyCount"))) with
  | Err e => Err e
  | Ok easyCount =>
      match validateMCQCount (orZero (getProp body (js "mediumCount"))) with
      | Err e => Err e
      | Ok mediumCount =>
          match validateMCQCount (orZero (getProp body (js "hardCount"))) with
          | Err e => Err e
          | Ok hardCount =>
              let total := (easyCount + mediumCount + hardCount)%Z in
              if ((total <? 1) || (1000 <? total))%Z
              then Err (Error (js "Total MCQ count must be between 1 and 1000"))
              else Ok (easyCount, mediumCount, hardCount)
          end
      end
  end.

(** [body.field ? sanitizeText(body.field) : ''] *)
Definition sanitizedField (field : option json) : jsstring :=
  if truthyOpt field then sanitizeText field else [].

(** [body.field && body.field.trim().length > limit], for the units of
    the trimmed text over the limit: a truthy field that is not a string
    has no method [trim]. *)
Definition trimmedLengthOver (field : option json) (limit : Z)
  : result thrown bool :=
  match field with
  | Some (JStr s) =>
      match s with
      | [] => Ok false
      | _ :: _ => Ok (limit <? Z.of_nat (List.length (trim s)))%Z
      end
  | Some v =>
      if truthy v
      then Err (fromEngine (NotAFunction (js "trim")))
      else Ok false
  | None => Ok false
  end.

Definition validateGenerationRequest (body : json) (isFileUpload : bool)
  : result thrown generationRequest :=
  let studyMaterial := getProp body (js "studyMaterial") in
  match
    (if negb isFileUpload
     then match validateTextLength studyMaterial 50000 with
          | Ok _ => Ok []
          | Err error => Ok [js "Study Material: " ++ messageOf error]
          end
     else match trimmedLengthOver studyMaterial 100000 with
          | Ok _ => Ok []            (* a warning on the console at most *)
          | Err e => Err e
          end)
  with
  | Err e => Err e
  | Ok errors =>
      match validateCounts body with
      | Err error =>
          Err (Error (join (errors ++ [js "MCQ Counts: " ++ messageOf error])))
      | Ok (easyCount, mediumCount, hardCount) =>
          match errors with
          | [] =>
              Ok (mkGenerationRequest
                    (sanitizedField studyMaterial)
                    easyCount mediumCount hardCount
                    (validateBoolean (getProp body (js "includeExplanation"))))
          | _ :: _ => Err (Error (join errors))
          end
      end
  end.

Record solvingRequest := mkSolvingRequest {
  s_mcqText : jsstring;
  s_includeExplanation : bool
}.

Definition validateSolvingRequest (body : json) (isFileUpload : bool)
  : result thrown solvingRequest :=
  let mcqText := getProp body (js "mcqText") in
  match
    (if negb isFileUpload
     then match validateTextLength mcqText 50000 with
          | Ok _ => Ok []
          | Err error => Ok [js "MCQ Text: " ++ messageOf error]
          end
     else match trimmedLengthOver mcqText 50000 with
          | Ok true =>
              Ok [js "MCQ Text: Text input exceeds maximum length of 50000 characters"]
          | Ok false => Ok []
          | Err e => Err e
          end)
  with
  | Err e => Err e
  | Ok [] =>
      Ok (mkSolvingRequest
            (sanitizedField mcqText)
            (validateBoolean (getProp body (js "includeExplanation"))))
  | Ok errors => Err (Error (join errors))
  end.

End WithConversions.

(** ** Plain text goes through [sanitizeText] *)

Lemma replaceAll_none (re : jsstring -> option nat) (s : jsstring) :
  (forall t, List.incl t s -> re t = None) ->
  replaceAll re s = s.
Proof.
  unfold replaceAll. induction s as [|c s IH]; intros Hre; [reflexivity|].
  cbn [replaceAll_from]. rewrite (Hre (c :: s) (List.incl_refl _)).
  rewrite IH; [reflexivity|].
  intros t Ht. apply Hre. now apply List.incl_tl.
Qed.

Lemma startsWithCI_in (p s : jsstring) (x : char) :
  startsWithCI p s = true -> In x p -> (x <? 97)%N = true -> In x s.
Proof.
  revert s. induction p as [|y p IH]; intros s Hsw Hin Hx; [contradiction|].
  destruct s as [|c s]; [discriminate|].
  cbn [startsWithCI] in Hsw. apply andb_true_iff in Hsw as [Hm Hsw].
  destruct Hin as [->|Hin].
  - left. unfold matchesCI in Hm. apply orb_true_iff in Hm as [Hm|Hm].
    + now apply N.eqb_eq in Hm.
    + apply andb_true_iff in Hm as [Hm _]. apply andb_true_iff in Hm as [Hm _].
      apply N.leb_le in Hm. apply N.ltb_lt in Hx. lia.
  - right. now apply IH.
Qed.

Lemma In_skipn (k : nat) (s : jsstring) (x : char) :
  In x (List.skipn k s) -> In x s.
Proof.
  intros H. rewrite <- (List.firstn_skipn k s). apply in_or_app. now right.
Qed.

Lemma matchTag_in (opening closing s : jsstring) (n : nat) (x : char) :
  matchTag opening closing s = Some n ->
  In x opening -> (x <? 97)%N = true -> In x s.
Proof.
  unfold matchTag. intros H.
  destruct (startsWithCI opening s) eqn:Hsw; [|discriminate].
  intros. now apply (startsWithCI_in opening).
Qed.

Lemma matchLiteral_in (p s : jsstring) (n : nat) (x : char) :
  matchLiteral p s = Some n ->
  In x p -> (x <? 97)%N = true -> In x s.
Proof.
  unfold matchLiteral. intros H.
  destruct (startsWithCI p s) eqn:Hsw; [|discriminate].
  intros. now apply (startsWithCI_in p).
Qed.

Lemma matchHandler_in (s : jsstring) (n : nat) :
  matchHandler s = Some n -> In (ch "=") s.
Proof.
  unfold matchHandler. intros H.
  destruct (startsWithCI (js "on") s); [|discriminate]. cbv zeta in H.
  destruct (0 <? spanLength isWordChar (List.skipn 2 s)); [|discriminate].
  destruct (List.skipn _ (List.skipn _ (List.skipn 2 s))) as [|c r] eqn:E;
    [discriminate|].
  destruct (N.eqb_spec c (ch "=")) as [->|_]; [|discriminate].
  do 3 eapply In_skipn. rewrite E. now left.
Qed.

Lemma not_in_incl (x : char) (s t : jsstring) :
  lacks x s = true -> List.incl t s -> ~ In x t.
Proof.
  intros Hl Hincl Hin. exact (lacks_not_in x s Hl (Hincl x Hin)).
Qed.

Lemma option_nat_none (o : option nat) : (forall n, o <> Some n) -> o = None.
Proof. destruct o as [n|]; [intros H; now destruct (H n)|reflexivity]. Qed.

(** Plain text is only trimmed. *)
Lemma sanitizeText_plain_text (text : jsstring) :
  lacks (ch "<") text = true ->
  lacks (ch ":") text = true ->
  lacks (ch "=") text = true ->
  sanitizeText (Some (JStr text)) = trim text.
Proof.
  intros Hlt Hcolon Heq. unfold sanitizeText.
  rewrite (replaceAll_none (matchTag (js "<script") (js "</script>")) text).
  2:{ intros t Ht. apply option_nat_none. intros n Hn.
      apply (not_in_incl _ _ _ Hlt Ht).
      apply (matchTag_in _ _ _ _ (ch "<") Hn); [now left|reflexivity]. }
  rewrite (replaceAll_none (matchTag (js "<iframe") (js "</iframe>")) text).
  2:{ intros t Ht. apply option_nat_none. intros n Hn.
      apply (not_in_incl _ _ _ Hlt Ht).
      apply (matchTag_in _ _ _ _ (ch "<") Hn); [now left|reflexivity]. }
  rewrite (replaceAll_none (matchLiteral (js "javascript:")) text).
  2:{ intros t Ht. apply option_nat_none. intros n Hn.
      apply (not_in_incl _ _ _ Hcolon Ht).
      apply (matchLiteral_in _ _ _ (ch ":") Hn); [|reflexivity].
      apply in_or_app with (l := js "javascript") (m := [ch ":"]).
      right. now left. }
  rewrite (replaceAll_none matchHandler text).
  2:{ intros t Ht. apply option_nat_none. intros n Hn.
      apply (not_in_incl _ _ _ Heq Ht).
      exact (matchHandler_in _ _ Hn). }
  reflexivity.
Qed.

(** X24.  A text without the units [<], [:] and [=] goes through
    [sanitizeText] untouched apart from the final trim: each of the four
    expressions needs one of the three units to match. *)
Theorem sanitizeText_keeps_plain_text :
  forall text : jsstring,
  lacks (ch "<") text = true ->
  lacks (ch ":") text = true ->
  lacks (ch "=") text = true ->
  sanitizeText (Some (JStr text)) = trim text.
Proof. exact sanitizeText_plain_text. Qed.

Lemma sanitizeText_plain_witness :
  sanitizeText (Some (JStr (js "  Photosynthesis happens on leaves; conditions vary. ")))
  = js "Photosynthesis happens on leaves; conditions vary.".
Proof.
  rewrite (sanitizeText_keeps_plain_text
             (js "  Photosynthesis happens on leaves; conditions vary. ")
             eq_refl eq_refl eq_refl).
  reflexivity.
Defined.

(** ** A script element between plain text *)

(** No unit of [s] is [<], [:] or [=]. *)
Definition plain (s : jsstring) : bool :=
  lacks (ch "<") s && lacks (ch ":") s && lacks (ch "=") s.

Lemma replaceAll_from_skip (re : jsstring -> option nat) (s : jsstring) :
  forall k, replaceAll_from re k s = replaceAll_from re 0 (List.skipn k s).
Proof.
  induction s as [|c s IH]; intros [|k]; try reflexivity.
  cbn [replaceAll_from List.skipn]. apply IH.
Qed.

Lemma replaceAll_match (re : jsstring -> option nat) (s : jsstring) (n : nat) :
  re s = Some (S n) ->
  replaceAll re s = replaceAll re (List.skipn (S n) s).
Proof.
  unfold replaceAll. intros Hre. destruct s as [|c s].
  - now rewrite List.skipn_nil.
  - cbn [replaceAll_from]. rewrite Hre. cbn [List.skipn].
    apply replaceAll_from_skip.
Qed.

Lemma replaceAll_prefix (re : jsstring -> option nat) (pre s : jsstring) :
  (forall c t, re (c :: t) <> None -> ~ In c pre) ->
  replaceAll re (pre ++ s) = pre ++ replaceAll re s.
Proof.
  unfold replaceAll. intros Hre. induction pre as [|c pre IH]; [reflexivity|].
  cbn [app replaceAll_from].
  destruct (re (c :: pre ++ s)) as [n|] eqn:E.
  - exfalso. apply (Hre c (pre ++ s)); [congruence|now left].
  - rewrite IH; [reflexivity|].
    intros d t Hd Hin. apply (Hre d t Hd). now right.
Qed.

Lemma skipn_app_length (a b : jsstring) (k : nat) :
  List.skipn (List.length a + k) (a ++ b) = List.skipn k b.
Proof. induction a as [|c a IH]; [reflexivity|exact IH]. Qed.

Lemma matchesCI_refl (p : char) : matchesCI p p = true.
Proof. unfold matchesCI. now rewrite N.eqb_refl. Qed.

Lemma startsWithCI_refl (p s : jsstring) : startsWithCI p (p ++ s) = true.
Proof.
  induction p as [|x p IH]; [reflexivity|].
  cbn [app startsWithCI]. now rewrite matchesCI_refl, IH.
Qed.

Lemma matchTag_head (opening closing : jsstring) (c : char) (t : jsstring) :
  matchTag (ch "<" :: opening) closing (c :: t) <> None -> c = ch "<".
Proof.
  unfold matchTag. cbn [startsWithCI].
  destruct (matchesCI (ch "<") c) eqn:E; [|intros H; now destruct H].
  intros _. unfold matchesCI in E.
  apply orb_true_iff in E as [E|E]; [now apply N.eqb_eq in E|discriminate E].
Qed.

Lemma indexOfCI_skip (closing inner rest : jsstring) :
  lacks (ch "<") inner = true ->
  indexOfCI (ch "<" :: closing) (inner ++ (ch "<" :: closing) ++ rest)
  = Some (List.length inner).
Proof.
  intros Hl. induction inner as [|x inner IH].
  - cbn [app List.length indexOfCI].
    change (ch "<" :: closing ++ rest) with ((ch "<" :: closing) ++ rest).
    now rewrite startsWithCI_refl.
  - rewrite lacks_cons in Hl. apply andb_true_iff in Hl as [Hx Hl].
    specialize (IH Hl).
    assert (Hm : matchesCI (ch "<") x = false).
    { unfold matchesCI. apply negb_true_iff in Hx.
      rewrite N.eqb_sym, Hx. reflexivity. }
    set (tail := (ch "<" :: closing) ++ rest) in *.
    cbn [app List.length indexOfCI startsWithCI].
    rewrite Hm. cbn [andb]. now rewrite IH.
Qed.

(** X28.  A script element that stands between two plain texts is removed
    whole: when the texts before and after hold none of [<], [:] and [=],
    and what stands between the opening name and the closing tag starts
    outside the class of word characters and holds no [<], the result of
    [sanitizeText] is the two plain texts joined and trimmed. *)
Theorem sanitizeText_removes_script_element :
  forall (before after inner : jsstring) (c : char),
  plain before = true ->
  plain after = true ->
  isWordChar c = false ->
  lacks (ch "<") (c :: inner) = true ->
  sanitizeText
    (Some (JStr (before ++ js "<script" ++ (c :: inner) ++ js "</script>"
                 ++ after)))
  = trim (before ++ after).
Proof.
  intros before after inner c Hb Ha Hc Hin.
  unfold plain in Hb, Ha.
  apply andb_true_iff in Hb as [Hb Hb3]. apply andb_true_iff in Hb as [Hb1 Hb2].
  apply andb_true_iff in Ha as [Ha Ha3]. apply andb_true_iff in Ha as [Ha1 Ha2].
  assert (Hscript :
    replaceAll (matchTag (js "<script") (js "</script>"))
      (before ++ js "<script" ++ (c :: inner) ++ js "</script>" ++ after)
    = before ++ after).
  { rewrite replaceAll_prefix.
    2:{ intros d t Hd Hin'. apply matchTag_head in Hd. subst d.
        exact (lacks_not_in _ _ Hb1 Hin'). }
    f_equal.
    assert (Hm :
      matchTag (js "<script") (js "</script>")
        (js "<script" ++ (c :: inner) ++ js "</script>" ++ after)
      = Some (S (6 + List.length (c :: inner) + 9))).
    { unfold matchTag. rewrite startsWithCI_refl.
      change (List.skipn (List.length (js "<script"))
                (js "<script" ++ (c :: inner) ++ js "</script>" ++ after))
        with ((c :: inner) ++ js "</script>" ++ after).
      cbn [app]. rewrite Hc. cbn [negb].
      match goal with
      | |- context [indexOfCI ?p ?s] =>
          replace (indexOfCI p s) with (Some (List.length (c :: inner)))
            by (symmetry;
                exact (indexOfCI_skip (js "/script>") (c :: inner) after Hin))
      end.
      reflexivity. }
    rewrite (replaceAll_match _ _ _ Hm).
    assert (Hskip :
      List.skipn (S (6 + List.length (c :: inner) + 9))
        (js "<script" ++ (c :: inner) ++ js "</script>" ++ after) = after).
    { transitivity
        (List.skipn
           (List.length (js "<script")
            + (List.length (c :: inner) + (List.length (js "</script>") + 0)))
           (js "<script" ++ (c :: inner) ++ js "</script>" ++ after)).
      - reflexivity.
      - rewrite !skipn_app_length. reflexivity. }
    rewrite Hskip.
    apply replaceAll_none. intros t Ht. apply option_nat_none. intros n Hn.
    apply (not_in_incl _ _ _ Ha1 Ht).
    apply (matchTag_in _ _ _ _ (ch "<") Hn); [now left|reflexivity]. }
  assert (Hplain : plain (before ++ after) = true).
  { unfold plain. rewrite !lacks_app, Hb1, Hb2, Hb3, Ha1, Ha2, Ha3. reflexivity. }
  unfold plain in Hplain.
  apply andb_true_iff in Hplain as [Hp Hp3].
  apply andb_true_iff in Hp as [Hp1 Hp2].
  pose proof (sanitizeText_plain_text (before ++ after) Hp1 Hp2 Hp3) as Hrest.
  unfold sanitizeText in Hrest.
  rewrite (replaceAll_none (matchTag (js "<script") (js "</script>"))
             (before ++ after)) in Hrest.
  2:{ intros t Ht. apply option_nat_none. intros n Hn.
      apply (not_in_incl _ _ _ Hp1 Ht).
      apply (matchTag_in _ _ _ _ (ch "<") Hn); [now left|reflexivity]. }
  unfold sanitizeText. rewrite Hscript. exact Hrest.
Qed.

Lemma sanitizeText_removes_script_witness :
  sanitizeText (Some (JStr (js " Read <script src=x.js>steal()</script>this. ")))
  = js "Read this.".
Proof.
  exact (sanitizeText_removes_script_element
           (js " Read ") (js "this. ") (js "src=x.js>steal()") (ch " ")
           eq_refl eq_refl eq_refl eq_refl).
Defined.

(** ** The counts of an accepted request *)

Section Accepted.

Variable Number_toString : jsnum -> jsstring.
Variable Object_toString : list (jsstring * json) -> result engine_error jsstring.
Variable engineMessage : engine_error -> jsstring.

Lemma validateMCQCount_range (c : count) (num : Z) :
  validateMCQCount Number_toString Object_toString c = Ok num ->
  (0 <= num <= 1000)%Z.
Proof.
  unfold validateMCQCount.
  destruct (countToString _ _ c) as [inputString|e]; [|discriminate].
  destruct (parseInt inputString) as [n|]; [|discriminate].
  destruct (Z.ltb_spec n 0) as [Hlo|Hlo]; cbn [orb]; [discriminate|].
  destruct (Z.ltb_spec 1000 n) as [Hhi|Hhi]; [discriminate|].
  intros Heq. inversion Heq. subst. lia.
Qed.

Lemma validateCounts_range (body : json) (easyCount mediumCount hardCount : Z) :
  validateCounts Number_toString Object_toString body
  = Ok (easyCount, mediumCount, hardCount) ->
  (0 <= easyCount <= 1000)%Z /\ (0 <= mediumCount <= 1000)%Z /\
  (0 <= hardCount <= 1000)%Z /\
  (1 <= easyCount + mediumCount + hardCount <= 1000)%Z.
Proof.
  unfold validateCounts.
  destruct (validateMCQCount _ _ (orZero (getProp body (js "easyCount"))))
    as [e|] eqn:He; [|discriminate].
  destruct (validateMCQCount _ _ (orZero (getProp body (js "mediumCount"))))
    as [m|] eqn:Hm; [|discriminate].
  destruct (validateMCQCount _ _ (orZero (getProp body (js "hardCount"))))
    as [h|] eqn:Hh; [|discriminate].
  cbv zeta.
  destruct (Z.ltb_spec (e + m + h) 1) as [Hlo|Hlo]; cbn [orb]; [discriminate|].
  destruct (Z.ltb_spec 1000 (e + m + h)) as [Hhi|Hhi]; [discriminate|].
  intros Heq. inversion Heq. subst.
  pose proof (validateMCQCount_range _ _ He).
  pose proof (validateMCQCount_range _ _ Hm).
  pose proof (validateMCQCount_range _ _ Hh).
  lia.
Qed.

Lemma validateGenerationRequest_ok (body : json) (isFileUpload : bool)
    (v : generationRequest) :
  validateGenerationRequest Number_toString Object_toString engineMessage
    body isFileUpload = Ok v ->
  validateCounts Number_toString Object_toString body
  = Ok (g_easyCount v, g_mediumCount v, g_hardCount v) /\
  g_studyMaterial v = sanitizedField (getProp body (js "studyMaterial")) /\
  (isFileUpload = false ->
   exists text,
     getProp body (js "studyMaterial") = Some (JStr text) /\ trim text <> []).
Proof.
  unfold validateGenerationRequest. cbv zeta. intros H.
  destruct (validateCounts Number_toString Object_toString body)
    as [[[e m] h]|err] eqn:Hc.
  - destruct isFileUpload; cbn [negb] in H.
    + destruct (trimmedLengthOver _ _) as [b|]; [|discriminate].
      inversion H. subst. cbn. split; [reflexivity|]. split; [reflexivity|].
      discriminate.
    + unfold validateTextLength in H.
      destruct (getProp body (js "studyMaterial")) as [[| | |[|c text]| |]|]
        eqn:Hg; try discriminate.
      destruct (trim (c :: text)) as [|d t] eqn:Ht; [discriminate|].
      cbn [List.length Nat.eqb] in H.
      destruct (50000 <? Z.of_nat (S (List.length t)))%Z;
        inversion H; subst; cbn;
        (split; [reflexivity|]; split; [reflexivity|]; intros _;
         exists (c :: text); split; [reflexivity|]; rewrite Ht; discriminate).
  - destruct (if negb isFileUpload then _ else _); discriminate.
Qed.

End Accepted.

(** X25.  A generation request that passes validation has three counts
    between 0 and 1000 whose sum lies between 1 and 1000, whatever the
    body held, and, without a file, a study material that is a string with
    a unit other than white space.  The handler then calls [generateMCQs]
    at least once and at most 500 times. *)
Theorem accepted_request_is_bounded :
  forall (Number_toString : jsnum -> jsstring)
         (Object_toString : list (jsstring * json) -> result engine_error jsstring)
         (engineMessage : engine_error -> jsstring)
         (body : json) (isFileUpload : bool) (v : generationRequest),
  validateGenerationRequest Number_toString Object_toString engineMessage
    body isFileUpload = Ok v ->
  (0 <= g_easyCount v <= 1000)%Z /\
  (0 <= g_mediumCount v <= 1000)%Z /\
  (0 <= g_hardCount v <= 1000)%Z /\
  (1 <= g_easyCount v + g_mediumCount v + g_hardCount v <= 1000)%Z /\
  (isFileUpload = false ->
   exists text,
     getProp body (js "studyMaterial") = Some (JStr text) /\ trim text <> []) /\
  forall (Mcq E St : Type)
         (generateMCQs : batch -> St -> result E (list Mcq) * St) (st : St),
    1 <= List.length
           (called (fst (handler generateMCQs
                           (mkValidated (g_easyCount v) (g_mediumCount v)
                              (g_hardCount v)) st))) <= 500.
Proof.
  intros Number_toString Object_toString engineMessage body isFileUpload v H.
  destruct (validateGenerationRequest_ok _ _ _ _ _ _ H) as (Hc & _ & Htext).
  destruct (validateCounts_range _ _ _ _ _ _ Hc) as (He & Hm & Hh & Ht).
  split; [exact He|]. split; [exact Hm|]. split; [exact Hh|].
  split; [exact Ht|]. split; [exact Htext|].
  intros Mcq E St generateMCQs st.
  destruct (handler_written Mcq E St generateMCQs
              (mkValidated (g_easyCount v) (g_mediumCount v) (g_hardCount v)) st)
    as (Hcalled & _ & _).
  cbn [v_easyCount v_mediumCount v_hardCount] in Hcalled.
  pose proof (SchedulerMore.buildBatches_length (g_easyCount v)
                (g_mediumCount v) (g_hardCount v)
                ltac:(lia) ltac:(lia) ltac:(lia)) as Hlen.
  rewrite <- Hcalled, length_map in Hlen.
  set (n := List.length _) in *.
  set (total := (g_easyCount v + g_mediumCount v + g_hardCount v)%Z) in *.
  assert (1 <= (total + 1) / 2 < 501)%Z.
  { split.
    - apply Z.div_le_lower_bound; lia.
    - apply Z.div_lt_upper_bound; lia. }
  lia.
Qed.

Lemma accepted_request_witness :
  let body := JObj [(js "studyMaterial", JStr (js "Cells divide."));
                    (js "easyCount", JStr (js "3"));
                    (js "hardCount", JStr (js "2 questions"));
                    (js "includeExplanation", JStr (js "true"))] in
  validateGenerationRequest (fun _ => []) (fun _ => Ok []) (fun _ => [])
    body false
  = Ok (mkGenerationRequest (js "Cells divide.") 3 0 2 true) /\
  List.length
    (called (fst (handler (fun (_ : batch) (st : unit) =>
                             (@Err unit (list unit) tt, st))
                    (mkValidated 3 0 2) tt))) <= 500.
Proof.
  intros body.
  assert (H : validateGenerationRequest (fun _ => []) (fun _ => Ok [])
                (fun _ => []) body false
              = Ok (mkGenerationRequest (js "Cells divide.") 3 0 2 true)).
  { vm_compute. reflexivity. }
  split; [exact H|].
  destruct (accepted_request_is_bounded _ _ _ _ _ _ H)
    as (_ & _ & _ & _ & _ & Hcalls).
  exact (proj2 (Hcalls unit unit unit (fun _ st => (Err tt, st)) tt)).
Defined.

(** ** [parseInt] on printed integers *)

(** Whether [0x] or [0X] starts the text [c :: t]. *)
Definition hexPrefix (c : char) (t : jsstring) : bool :=
  ((c =? ch "0")%N &&
   match t with
   | x :: _ => ((x =? ch "x") || (x =? ch "X"))%N
   | [] => false
   end).

(** The digits of [s] end where [rest] starts. *)
Definition stops (rest : jsstring) : bool :=
  match rest with
  | c :: _ => negb (isDigit c)
  | [] => true
  end.

Lemma digits_stops (rest : jsstring) (acc : option N) :
  stops rest = true -> digits 10 rest acc = acc.
Proof.
  destruct rest as [|c rest]; [reflexivity|].
  cbn [stops digits]. intros Hc. apply negb_true_iff in Hc.
  unfold radixDigit, hexValue. rewrite Hc.
  destruct ((97 <=? c) && (c <=? 102))%N eqn:Hlow.
  - assert (H : (c - 87 <? 10)%N = false).
    { apply N.ltb_ge. bool_to_prop Hlow. lia. }
    now rewrite H.
  - destruct ((65 <=? c) && (c <=? 70))%N eqn:Hup; [|reflexivity].
    assert (H : (c - 55 <? 10)%N = false).
    { apply N.ltb_ge. bool_to_prop Hup. lia. }
    now rewrite H.
Qed.

Lemma parseInt_digit_head (c : char) (t : jsstring) :
  isDigit c = true ->
  hexPrefix c t = false ->
  parseInt (c :: t) = option_map Z.of_N (digits 10 (c :: t) None) /\
  parseInt (ch "-" :: c :: t)
  = option_map (fun n => (- Z.of_N n)%Z) (digits 10 (c :: t) None).
Proof.
  intros Hd Hp. unfold isDigit in Hd. bool_to_prop Hd.
  assert (Hws : isWhiteSpace c = false).
  { unfold isWhiteSpace. repeat char_test; try reflexivity; lia. }
  assert (Hminus : (c =? ch "-")%N = false) by (apply N.eqb_neq; norm_ch; lia).
  assert (Hplus : (c =? ch "+")%N = false) by (apply N.eqb_neq; norm_ch; lia).
  split.
  - unfold parseInt. cbn [trimStart]. rewrite Hws, Hminus, Hplus.
    cbv beta iota zeta.
    destruct t as [|x t'].
    + now destruct (digits 10 [c] None).
    + match goal with
      | |- context [if ?b then _ else _] =>
          replace b with false by (symmetry; exact Hp)
      end.
      now destruct (digits 10 (c :: x :: t') None).
  - unfold parseInt.
    change (trimStart (ch "-" :: c :: t)) with (ch "-" :: c :: t).
    cbv beta iota zeta.
    change (ch "-" =? ch "-")%N with true.
    cbv beta iota zeta.
    destruct t as [|x t'].
    + now destruct (digits 10 [c] None).
    + match goal with
      | |- context [if ?b then _ else _] =>
          replace b with false by (symmetry; exact Hp)
      end.
      now destruct (digits 10 (c :: x :: t') None).
Qed.

Lemma digits_uint_acc (d : Decimal.uint) (rest : jsstring) :
  stops rest = true ->
  forall acc : positive,
  digits 10 (js (DecimalString.NilEmpty.string_of_uint d) ++ rest)
    (Some (Npos acc))
  = Some (Npos (Pos.of_uint_acc d acc)).
Proof.
  intros Hrest. induction d as [|d IH|d IH|d IH|d IH|d IH|d IH|d IH|d IH|d IH|d IH];
    intros acc.
  - now apply digits_stops.
  - transitivity
      (digits 10 (js (DecimalString.NilEmpty.string_of_uint d) ++ rest)
         (Some (Npos acc * 10 + 0)%N)); [reflexivity|].
    replace (Npos acc * 10 + 0)%N with (Npos (10 * acc)) by lia. apply IH.
  - transitivity
      (digits 10 (js (DecimalString.NilEmpty.string_of_uint d) ++ rest)
         (Some (Npos acc * 10 + 1)%N)); [reflexivity|].
    replace (Npos acc * 10 + 1)%N with (Npos (1 + 10 * acc)) by lia. apply IH.
  - transitivity
      (digits 10 (js (DecimalString.NilEmpty.string_of_uint d) ++ rest)
         (Some (Npos acc * 10 + 2)%N)); [reflexivity|].
    replace (Npos acc * 10 + 2)%N with (Npos (2 + 10 * acc)) by lia. apply IH.
  - transitivity
      (digits 10 (js (DecimalString.NilEmpty.string_of_uint d) ++ rest)
         (Some (Npos acc * 10 + 3)%N)); [reflexivity|].
    replace (Npos acc * 10 + 3)%N with (Npos (3 + 10 * acc)) by lia. apply IH.
  - transitivity
      (digits 10 (js (DecimalString.NilEmpty.string_of_uint d) ++ rest)
         (Some (Npos acc * 10 + 4)%N)); [reflexivity|].
    replace (Npos acc * 10 + 4)%N with (Npos (4 + 10 * acc)) by lia. apply IH.
  - transitivity
      (digits 10 (js (DecimalString.NilEmpty.string_of_uint d) ++ rest)
         (Some (Npos acc * 10 + 5)%N)); [reflexivity|].
    replace (Npos acc * 10 + 5)%N with (Npos (5 + 10 * acc)) by lia. apply IH.
  - transitivity
      (digits 10 (js (DecimalString.NilEmpty.string_of_uint d) ++ rest)
         (Some (Npos acc * 10 + 6)%N)); [reflexivity|].
    replace (Npos acc * 10 + 6)%N with (Npos (6 + 10 * acc)) by lia. apply IH.
  - transitivity
      (digits 10 (js (DecimalString.NilEmpty.string_of_uint d) ++ rest)
         (Some (Npos acc * 10 + 7)%N)); [reflexivity|].
    replace (Npos acc * 10 + 7)%N with (Npos (7 + 10 * acc)) by lia. apply IH.
  - transitivity
      (digits 10 (js (DecimalString.NilEmpty.string_of_uint d) ++ rest)
         (Some (Npos acc * 10 + 8)%N)); [reflexivity|].
    replace (Npos acc * 10 + 8)%N with (Npos (8 + 10 * acc)) by lia. apply IH.
  - transitivity
      (digits 10 (js (DecimalString.NilEmpty.string_of_uint d) ++ rest)
         (Some (Npos acc * 10 + 9)%N)); [reflexivity|].
    replace (Npos acc * 10 + 9)%N with (Npos (9 + 10 * acc)) by lia. apply IH.
Qed.

Lemma digits_uint_zero (d : Decimal.uint) (rest : jsstring) :
  stops rest = true ->
  digits 10 (js (DecimalString.NilEmpty.string_of_uint d) ++ rest) (Some 0%N)
  = Some (Pos.of_uint d).
Proof.
  intros Hrest.
  induction d as [|d IH|d IH|d IH|d IH|d IH|d IH|d IH|d IH|d IH|d IH].
  - now apply digits_stops.
  - exact IH.
  - exact (digits_uint_acc d rest Hrest 1).
  - exact (digits_uint_acc d rest Hrest 2).
  - exact (digits_uint_acc d rest Hrest 3).
  - exact (digits_uint_acc d rest Hrest 4).
  - exact (digits_uint_acc d rest Hrest 5).
  - exact (digits_uint_acc d rest Hrest 6).
  - exact (digits_uint_acc d rest Hrest 7).
  - exact (digits_uint_acc d rest Hrest 8).
  - exact (digits_uint_acc d rest Hrest 9).
Qed.

Lemma digits_uint (d : Decimal.uint) (rest : jsstring) :
  stops rest = true -> d <> Decimal.Nil ->
  digits 10 (js (DecimalString.NilEmpty.string_of_uint d) ++ rest) None
  = Some (Pos.of_uint d).
Proof.
  intros Hrest Hd. rewrite <- (digits_uint_zero d rest Hrest).
  destruct d; [congruence|..]; reflexivity.
Qed.

Lemma uint_head (d : Decimal.uint) (rest : jsstring) :
  d <> Decimal.Nil -> d <> Decimal.zero ->
  exists c t,
    js (DecimalString.NilEmpty.string_of_uint d) ++ rest = c :: t /\
    isDigit c = true /\ hexPrefix c t = false.
Proof.
  intros Hnil Hzero.
  destruct d as [|d|d|d|d|d|d|d|d|d|d]; [congruence|..];
    try (eexists; eexists; split; [reflexivity|split; reflexivity]).
  destruct d as [|d|d|d|d|d|d|d|d|d|d];
    [now destruct Hzero|..];
    eexists; eexists; (split; [reflexivity|split; reflexivity]).
Qed.

Lemma parseInt_uint (d : Decimal.uint) (rest : jsstring) :
  stops rest = true -> d <> Decimal.Nil -> d <> Decimal.zero ->
  parseInt (js (DecimalString.NilEmpty.string_of_uint d) ++ rest)
  = Some (Z.of_N (Pos.of_uint d)) /\
  parseInt (ch "-" :: js (DecimalString.NilEmpty.string_of_uint d) ++ rest)
  = Some (- Z.of_N (Pos.of_uint d))%Z.
Proof.
  intros Hrest Hnil Hzero.
  pose proof (digits_uint d rest Hrest Hnil) as Hdigits.
  destruct (uint_head d rest Hnil Hzero) as (c & t & Heq & Hc & Hp).
  rewrite Heq in *.
  destruct (parseInt_digit_head c t Hc Hp) as [H1 H2].
  rewrite H1, H2, Hdigits. split; reflexivity.
Qed.

Lemma string_of_uint_nonnil (d : Decimal.uint) :
  d <> Decimal.Nil ->
  DecimalString.NilZero.string_of_uint d
  = DecimalString.NilEmpty.string_of_uint d.
Proof. destruct d; [congruence|..]; reflexivity. Qed.

(** [parseInt] reads back the decimal form of an integer and ignores what
    follows the digits.  The only exception is a zero followed by x or X,
    which starts a hexadecimal number. *)
Lemma parseInt_decimal (z : Z) (rest : jsstring) :
  stops rest = true ->
  (z = 0%Z -> hexPrefix (ch "0") rest = false) ->
  parseInt (decimal z ++ rest) = Some z.
Proof.
  intros Hrest Hhex. unfold decimal.
  destruct z as [|p|p].
  - change (js (DecimalString.NilZero.string_of_int (Z.to_int 0)) ++ rest)
      with (ch "0" :: rest).
    destruct (parseInt_digit_head (ch "0") rest eq_refl (Hhex eq_refl))
      as [H _].
    rewrite H. cbn [digits].
    change (radixDigit 10 (ch "0")) with (Some 0%N). cbv iota.
    now rewrite (digits_stops rest _ Hrest).
  - pose proof (DecimalPos.Unsigned.to_uint_nonnil p) as Hnil.
    pose proof (DecimalPos.Unsigned.to_uint_nonzero p) as Hzero.
    destruct (parseInt_uint (Pos.to_uint p) rest Hrest Hnil Hzero) as [H _].
    rewrite DecimalPos.Unsigned.of_to in H.
    cbn [Z.to_int DecimalString.NilZero.string_of_int].
    rewrite (string_of_uint_nonnil _ Hnil). exact H.
  - pose proof (DecimalPos.Unsigned.to_uint_nonnil p) as Hnil.
    pose proof (DecimalPos.Unsigned.to_uint_nonzero p) as Hzero.
    destruct (parseInt_uint (Pos.to_uint p) rest Hrest Hnil Hzero) as [_ H].
    rewrite DecimalPos.Unsigned.of_to in H.
    cbn [Z.to_int DecimalString.NilZero.string_of_int].
    rewrite (string_of_uint_nonnil _ Hnil). exact H.
Qed.

(** X26.  The count validation is lenient on what follows the digits.  A
    field that is a string made of the decimal form of an integer and of
    anything that does not go on with a digit is validated as that
    integer: [12abc] and [12.9] are accepted as 12, and the field is
    rejected exactly when the integer is below 0 or above 1000.  The only
    exception is a zero followed by x or X, read as hexadecimal. *)
Theorem validateMCQCount_reads_leading_digits :
  forall (Number_toString : jsnum -> jsstring)
         (Object_toString : list (jsstring * json) -> result engine_error jsstring)
         (z : Z) (rest : jsstring),
  stops rest = true ->
  (z = 0%Z -> hexPrefix (ch "0") rest = false) ->
  validateMCQCount Number_toString Object_toString
    (orZero (Some (JStr (decimal z ++ rest))))
  = if ((z <? 0) || (1000 <? z))%Z
    then Err (Error (js "MCQ count must be between 0 and 1000"))
    else Ok z.
Proof.
  intros Number_toString Object_toString z rest Hrest Hhex.
  pose proof (parseInt_decimal z rest Hrest Hhex) as Hp.
  destruct (decimal z ++ rest) as [|c s] eqn:E; [discriminate Hp|].
  unfold validateMCQCount. cbn [orZero truthy countToString ToString].
  now rewrite Hp.
Qed.

Lemma validateMCQCount_reads_witness :
  validateMCQCount (fun _ => []) (fun _ => Ok [])
    (orZero (Some (JStr (js "12.9 questions")))) = Ok 12%Z.
Proof.
  exact (validateMCQCount_reads_leading_digits (fun _ => []) (fun _ => Ok [])
           12 (js ".9 questions") eq_refl ltac:(discriminate)).
Defined.

(** ** The length limit of the solving request *)

(** X27.  The limit of 50000 units on the text to solve is enforced only
    when a file comes with the request.  Without a file a text with a unit
    other than white space is accepted whatever its length, and the text
    returned is [sanitizeText] of the whole text: the copy that
    [validateTextLength] cuts at the limit is dropped.  With a file the
    same text is rejected as soon as its trimmed length exceeds 50000. *)
Theorem solving_text_limit_needs_a_file :
  forall (engineMessage : engine_error -> jsstring)
         (body : json) (text : jsstring),
  getProp body (js "mcqText") = Some (JStr text) ->
  trim text <> [] ->
  let accepted :=
    Ok (mkSolvingRequest (sanitizeText (Some (JStr text)))
          (validateBoolean (getProp body (js "includeExplanation")))) in
  validateSolvingRequest engineMessage body false = accepted /\
  validateSolvingRequest engineMessage body true
  = if (50000 <? Z.of_nat (List.length (trim text)))%Z
    then Err (Error (js "MCQ Text: Text input exceeds maximum length of 50000 characters"))
    else accepted.
Proof.
  intros engineMessage body text Hget Htrim accepted. subst accepted.
  destruct text as [|c text]; [now destruct Htrim|].
  unfold validateSolvingRequest. cbv zeta. rewrite Hget.
  assert (Hfield : sanitizedField (Some (JStr (c :: text)))
                   = sanitizeText (Some (JStr (c :: text)))) by reflexivity.
  rewrite Hfield. split.
  - cbn [negb]. unfold validateTextLength. cbv zeta.
    destruct (trim (c :: text)) as [|d t] eqn:Ht; [congruence|].
    cbn [List.length Nat.eqb].
    now destruct (50000 <? Z.of_nat (S (List.length t)))%Z.
  - cbn [negb trimmedLengthOver].
    now destruct (50000 <? Z.of_nat (List.length (trim (c :: text))))%Z.
Qed.

Lemma solving_text_limit_witness :
  let body := JObj [(js "mcqText", JStr (js " 1. Which gas do plants absorb? "))] in
  validateSolvingRequest (fun _ => []) body false
  = Ok (mkSolvingRequest (js "1. Which gas do plants absorb?") false).
Proof.
  intros body.
  destruct (solving_text_limit_needs_a_file
              (fun _ => []) body (js " 1. Which gas do plants absorb? ")
              eq_refl ltac:(vm_compute; discriminate)) as [H _].
  rewrite H. reflexivity.
Defined.

End Validators.
